(** * The compiler core of scratch-vm: type lattice, IR, analyzer, rewriter
      and the yield discipline of the code generator.

    Sources embedded here:
    - [src/compiler/intermediate.js]  (IntermediateInput and its methods),
    - the IR optimizer (TypeState and IROptimizer, latest revision),
    - [src/compiler/jsgen.js]         (the EQ safe-constant test, the yield
                                       helpers and the stacked blocks that
                                       reach them),
    - the older generator revision    (isSafeConstantForEqualsOptimization).

    JavaScript numbers are IEEE-754 binary64 values; they are represented
    by [spec_float] (precision 53, emax 1024).  Bitwise operators act on
    lattice elements, which are small non-negative integers, so [Z.land]
    and [Z.lor] coincide with the 32-bit operators of the host. *)

From Stdlib Require Import ZArith String Ascii List Bool Lia.
From Stdlib Require Import Floats.SpecFloat.
From stdpp Require Import gmap strings.

Set Warnings "-register-all".

Open Scope Z_scope.

(* ===================================================================== *)
(** * Host values *)
(* ===================================================================== *)

Module JS.

Abbreviation number := spec_float.

Definition prec : Z := 53.
Definition emax : Z := 1024.

Definition NaN : number := S754_nan.
Definition Infinity : number := S754_infinity false.
Definition NegInfinity : number := S754_infinity true.
Definition zero : number := S754_zero false.
Definition negzero : number := S754_zero true.

(** The binary64 value nearest to an integer. *)
Definition of_Z (z : Z) : number := binary_normalize prec emax z 0 false.

(** Primitive values that can be stored in a CONSTANT node. *)
Inductive value :=
| VNumber (n : number)
| VString (s : string)
| VBoolean (b : bool).

(** [a === b] on numbers: NaN differs from itself, the two zeros agree. *)
Definition strict_eq (a b : number) : bool := SFeqb a b.

(** [a < b] on numbers. *)
Definition lt (a b : number) : bool := SFltb a b.

(** [Number.isNaN]. *)
Definition isNaN (n : number) : bool :=
  match n with S754_nan => true | _ => false end.

(** Truthiness of a number: everything but 0, -0 and NaN. *)
Definition truthy (n : number) : bool :=
  match n with
  | S754_zero _ | S754_nan => false
  | _ => true
  end.

(** [Object.is(n, -0)]. *)
Definition is_negzero (n : number) : bool :=
  match n with S754_zero true => true | _ => false end.

(** [Number.isInteger]. *)
Definition isInteger (n : number) : bool :=
  match n with
  | S754_zero _ => true
  | S754_finite _ m e =>
      if 0 <=? e then true else Zpos m mod 2 ^ (- e) =? 0
  | _ => false
  end.

(** [n !== 0] on numbers (true for NaN). *)
Definition nonzero (n : number) : bool := negb (strict_eq n zero).

(** The string conversions of the host are parameters of the
    development: [StringToNumber] is the abstract operation behind unary
    plus on strings, [NumberToString] the one behind [n.toString()]. *)
Section Conversions.
Variable StringToNumber : string -> number.
Variable NumberToString : number -> string.

(** Unary plus. *)
Definition ToNumber (v : value) : number :=
  match v with
  | VNumber n => n
  | VString s => StringToNumber s
  | VBoolean b => if b then of_Z 1 else zero
  end.

(** [v + ''] and [v.toString()]. *)
Definition ToString (v : value) : string :=
  match v with
  | VNumber n => NumberToString n
  | VString s => s
  | VBoolean b => if b then "true"%string else "false"%string
  end.
End Conversions.

End JS.

(* ===================================================================== *)
(** * An executable host *)
(* ===================================================================== *)

(** A concrete reading of the two host conversions, after ECMA-262
    (StringToNumber and Number::toString with radix 10), on strings of
    ASCII characters.  The theorems below hold for any pair of
    conversions; this one is used to evaluate the compiler on literals. *)
Module Host.
Import JS.

Definition isWhiteSpace (c : ascii) : bool :=
  let n := Z.of_nat (nat_of_ascii c) in
  (n =? 9) || (n =? 10) || (n =? 11) || (n =? 12) || (n =? 13) || (n =? 32).

Fixpoint trimStart (s : string) : string :=
  match s with
  | String c rest => if isWhiteSpace c then trimStart rest else s
  | EmptyString => s
  end.

Definition reverse (s : string) : string :=
  string_of_list_ascii (List.rev (list_ascii_of_string s)).

Definition trim (s : string) : string :=
  reverse (trimStart (reverse (trimStart s))).

(** The value of a digit in a radix up to 36, if it is one. *)
Definition digitValue (radix : Z) (c : ascii) : option Z :=
  let n := Z.of_nat (nat_of_ascii c) in
  let v :=
    if (48 <=? n) && (n <=? 57) then n - 48
    else if (97 <=? n) && (n <=? 122) then n - 87
    else if (65 <=? n) && (n <=? 90) then n - 55
    else radix in
  if v <? radix then Some v else None.

(** Reads the longest prefix of digits: its value, its length, the rest. *)
Fixpoint readDigits (radix : Z) (s : string) (value : Z) (len : Z)
  : Z * Z * string :=
  match s with
  | String c rest =>
      match digitValue radix c with
      | Some d => readDigits radix rest (value * radix + d) (len + 1)
      | None => (value, len, s)
      end
  | EmptyString => (value, len, s)
  end.

(** The binary64 value nearest to [num / den] (ties to even), with the
    given sign. *)
Definition roundRational (sign : bool) (num den : Z) : number :=
  if num =? 0 then S754_zero sign
  else
    let '(q, e, l) := SFdiv_core_binary prec emax num 0 den 0 in
    binary_round_aux prec emax sign q e l.

(** [mantissa * 10 ^ exponent], rounded. *)
Definition roundDecimal (sign : bool) (mantissa exponent : Z) : number :=
  if 0 <=? exponent then roundRational sign (mantissa * 10 ^ exponent) 1
  else roundRational sign mantissa (10 ^ (- exponent)).

(** ExponentPart, or nothing. *)
Definition readExponent (s : string) : option Z :=
  match s with
  | EmptyString => Some 0
  | String c rest =>
      if (Ascii.eqb c "e" || Ascii.eqb c "E")%char then
        let '(negative, rest) :=
          match rest with
          | String "-"%char r => (true, r)
          | String "+"%char r => (false, r)
          | _ => (false, rest)
          end in
        match readDigits 10 rest 0 0 with
        | (v, len, EmptyString) =>
            if 0 <? len then Some (if negative then - v else v) else None
        | _ => None
        end
      else None
  end.

(** StrUnsignedDecimalLiteral. *)
Definition unsignedDecimal (sign : bool) (s : string) : number :=
  if String.eqb s "Infinity" then S754_infinity sign
  else
    let '(intValue, intLen, rest) := readDigits 10 s 0 0 in
    let '(value, fracLen, rest) :=
      match rest with
      | String "."%char r => readDigits 10 r intValue 0
      | _ => (intValue, 0, rest)
      end in
    if (intLen + fracLen =? 0) then NaN
    else
      match readExponent rest with
      | Some e => roundDecimal sign value (e - fracLen)
      | None => NaN
      end.

(** NonDecimalIntegerLiteral: 0x, 0o, 0b. *)
Definition nonDecimal (s : string) : option number :=
  match s with
  | String "0"%char (String p rest) =>
      let radix :=
        if (Ascii.eqb p "x" || Ascii.eqb p "X")%char then 16
        else if (Ascii.eqb p "o" || Ascii.eqb p "O")%char then 8
        else if (Ascii.eqb p "b" || Ascii.eqb p "B")%char then 2
        else 0 in
      if radix =? 0 then None
      else
        match readDigits radix rest 0 0 with
        | (v, len, EmptyString) =>
            if 0 <? len then Some (roundRational false v 1) else Some NaN
        | _ => Some NaN
        end
  | _ => None
  end.

(** StringToNumber of ECMA-262 on strings of ASCII characters. *)
Definition StringToNumber (s : string) : number :=
  let s := trim s in
  match s with
  | EmptyString => zero
  | String c rest =>
      match nonDecimal s with
      | Some n => n
      | None =>
          if Ascii.eqb c "-" then unsignedDecimal true rest
          else if Ascii.eqb c "+" then unsignedDecimal false rest
          else unsignedDecimal false s
      end
  end.

(** Decimal digits of a non-negative integer. *)
Fixpoint digitsOf (fuel : nat) (n : Z) (acc : string) : string :=
  match fuel with
  | O => acc
  | S fuel =>
      let acc := String (ascii_of_nat (Z.to_nat (48 + n mod 10))) acc in
      if n <? 10 then acc else digitsOf fuel (n / 10) acc
  end.

Definition decimal (n : Z) : string :=
  digitsOf (S (Z.to_nat (Z.log2 n))) n EmptyString.

Fixpoint zeros (n : nat) : string :=
  match n with
  | O => EmptyString
  | S n => String "0" (zeros n)
  end.

Definition number_eqb (a b : number) : bool :=
  match a, b with
  | S754_zero s, S754_zero s' => Bool.eqb s s'
  | S754_infinity s, S754_infinity s' => Bool.eqb s s'
  | S754_nan, S754_nan => true
  | S754_finite s m e, S754_finite s' m' e' =>
      Bool.eqb s s' && (Zpos m =? Zpos m') && (e =? e')
  | _, _ => false
  end.

(** The least [j >= 1] with [num * 10 ^ j >= den]. *)
Fixpoint leadingZeros (fuel : nat) (num den j : Z) : Z :=
  match fuel with
  | O => j
  | S fuel =>
      if den <=? num * 10 ^ j then j else leadingZeros fuel num den (j + 1)
  end.

(** The search for the shortest digit string: for [k] digits, the two
    multiples of [10 ^ (n - k)] around [num / den] are tried, and the
    nearer one that converts back to [x] is kept. *)
Fixpoint shortest (fuel : nat) (x : number) (num den n k : Z)
  : Z * Z * Z :=
  let p := n - k in
  let lo := if 0 <=? p then num / (den * 10 ^ p)
            else (num * 10 ^ (- p)) / den in
  let hi := lo + 1 in
  let okLo := number_eqb (roundDecimal false lo p) x in
  let okHi := number_eqb (roundDecimal false hi p) x in
  (* twice the distance to the midpoint of lo and hi, as a comparison *)
  let cmp :=
    if 0 <=? p then (2 * num) ?= ((2 * lo + 1) * 10 ^ p * den)
    else (2 * num * 10 ^ (- p)) ?= ((2 * lo + 1) * den) in
  let pickLo :=
    okLo && (negb okHi
             || match cmp with Lt => true | Eq => Z.even lo | Gt => false end)
  in
  let found s := if s =? 10 ^ k then (10 ^ (k - 1), k, n + 1) else (s, k, n) in
  match fuel with
  | O => found lo
  | S fuel =>
      if pickLo then found lo
      else if okHi then found hi
      else shortest fuel x num den n (k + 1)
  end.

(** Steps 6 to 10 of Number::toString. *)
Definition format (s k n : Z) : string :=
  let digits := decimal s in
  if (k <=? n) && (n <=? 21) then digits +:+ zeros (Z.to_nat (n - k))
  else if (0 <? n) && (n <=? 21) then
    substring 0 (Z.to_nat n) digits +:+ "."
    +:+ substring (Z.to_nat n) (Z.to_nat (k - n)) digits
  else if (-6 <? n) && (n <=? 0) then
    "0." +:+ zeros (Z.to_nat (- n)) +:+ digits
  else
    let e := n - 1 in
    let exponent :=
      (if e <? 0 then "e-" else "e+") +:+ decimal (Z.abs e) in
    if k =? 1 then digits +:+ exponent
    else substring 0 1 digits +:+ "."
         +:+ substring 1 (Z.to_nat (k - 1)) digits +:+ exponent.

(** Number::toString of ECMA-262, radix 10. *)
Definition NumberToString (x : number) : string :=
  match x with
  | S754_nan => "NaN"
  | S754_zero _ => "0"
  | S754_infinity s => if s then "-Infinity" else "Infinity"
  | S754_finite sign m e =>
      let '(num, den) :=
        if 0 <=? e then (Zpos m * 2 ^ e, 1) else (Zpos m, 2 ^ (- e)) in
      let n :=
        if den <=? num then Z.of_nat (String.length (decimal (num / den)))
        else 1 - leadingZeros 400 num den 1 in
      let '(s, k, n) := shortest 17 (S754_finite false m e) num den n 1 in
      (if sign then "-" else EmptyString) +:+ format s k n
  end.
End Host.

(* ===================================================================== *)
(** * enums.js: the type lattice *)
(* ===================================================================== *)

(** Modelled from the spec: the InputType table of [enums.js] is not among
    the sources.  Following section 3 of the specification, the nine
    number refinements are pairwise disjoint bits, the derived groups are
    the unions it lists, and ANY is the union of every bit. *)
Module InputType.
Definition NUMBER_POS_INF : Z := 0x001.
Definition NUMBER_POS_INT : Z := 0x002.
Definition NUMBER_POS_FRACT : Z := 0x004.
Definition NUMBER_ZERO : Z := 0x008.
Definition NUMBER_NEG_ZERO : Z := 0x010.
Definition NUMBER_NEG_INT : Z := 0x020.
Definition NUMBER_NEG_FRACT : Z := 0x040.
Definition NUMBER_NEG_INF : Z := 0x080.
Definition NUMBER_NAN : Z := 0x100.

Definition NUMBER_POS_REAL : Z := Z.lor NUMBER_POS_INT NUMBER_POS_FRACT.
Definition NUMBER_NEG_REAL : Z := Z.lor NUMBER_NEG_INT NUMBER_NEG_FRACT.
Definition NUMBER_POS : Z := Z.lor NUMBER_POS_REAL NUMBER_POS_INF.
Definition NUMBER_NEG : Z := Z.lor NUMBER_NEG_REAL NUMBER_NEG_INF.
Definition NUMBER_ANY_ZERO : Z := Z.lor NUMBER_ZERO NUMBER_NEG_ZERO.
Definition NUMBER_INF : Z := Z.lor NUMBER_POS_INF NUMBER_NEG_INF.
Definition NUMBER_FRACT : Z := Z.lor NUMBER_POS_FRACT NUMBER_NEG_FRACT.
Definition NUMBER_REAL : Z :=
  Z.lor (Z.lor NUMBER_POS_REAL NUMBER_NEG_REAL) NUMBER_ANY_ZERO.
Definition NUMBER : Z := Z.lor NUMBER_REAL NUMBER_INF.
Definition NUMBER_OR_NAN : Z := Z.lor NUMBER NUMBER_NAN.

Definition STRING_NUM : Z := 0x200.
Definition STRING : Z := 0x400.
Definition BOOLEAN : Z := 0x800.

Definition ANY : Z :=
  Z.lor NUMBER_OR_NAN (Z.lor STRING_NUM (Z.lor STRING BOOLEAN)).
End InputType.

(** Opcodes of the input nodes the optimizer and [toType] distinguish. *)
Inductive CastOpcode :=
| CAST_BOOLEAN
| CAST_NUMBER
| CAST_NUMBER_OR_NAN
| CAST_STRING.

Inductive ArithOpcode :=
| OP_ADD
| OP_SUBTRACT
| OP_MULTIPLY
| OP_DIVIDE.

(* ===================================================================== *)
(** * intermediate.js *)
(* ===================================================================== *)

(** A variable descriptor.  The analyzer keys its state by [name]; the
    generator reads [id] and [scope]. *)
Record VariableRef := mkVariable {
  id : string;
  name : string;
  scope : string;
  isCloud : bool
}.

(** An IntermediateInput is {opcode, type, inputs}.  The opcode fixes the
    shape of the [inputs] record, so each shape is a constructor:
    [{value}] for CONSTANT, [{variable}] for VAR_GET, [{target}] for the
    casts, [{left, right}] for the four arithmetic operators.  Every
    other opcode keeps its name and the entries of [inputs] that are
    IntermediateInputs, in order.  The [yields] field
    of an input is read by none of the embedded functions. *)
Inductive IntermediateInput :=
| CONSTANT (type : Z) (value : JS.value)
| VAR_GET (type : Z) (variable : VariableRef)
| CAST (opcode : CastOpcode) (type : Z) (target : IntermediateInput)
| ARITH (opcode : ArithOpcode) (type : Z) (left right : IntermediateInput)
| OTHER (opcode : string) (type : Z)
        (inputs : list (string * IntermediateInput)).

Definition input_type (i : IntermediateInput) : Z :=
  match i with
  | CONSTANT t _ | VAR_GET t _ | CAST _ t _ | ARITH _ t _ _ | OTHER _ t _ => t
  end.

(** [IntermediateInput.getNumberInputType]. *)
Definition getNumberInputType (number : JS.number) : Z :=
  if JS.strict_eq number JS.Infinity then InputType.NUMBER_POS_INF
  else if JS.strict_eq number JS.NegInfinity then InputType.NUMBER_NEG_INF
  else if JS.lt number JS.zero then InputType.NUMBER_NEG
  else if JS.lt JS.zero number then InputType.NUMBER_POS
  else if JS.isNaN number then InputType.NUMBER_NAN
  else InputType.NUMBER_ZERO.

(** [isAlwaysType]: [(this.type & type) === this.type]. *)
Definition isAlwaysType (this : IntermediateInput) (type : Z) : bool :=
  Z.land (input_type this) type =? input_type this.

(** [isSometimesType]: [(this.type & type) !== 0]. *)
Definition isSometimesType (this : IntermediateInput) (type : Z) : bool :=
  negb (Z.land (input_type this) type =? 0).

(** Modelled from the spec: [Cast.toBoolean] lives in [util/cast], which is
    not among the sources.  Section 4.2: host truthiness of the source,
    with the convention that the empty string, "0" and "false" map to
    false. *)
Definition Cast_toBoolean (v : JS.value) : bool :=
  match v with
  | JS.VBoolean b => b
  | JS.VNumber n => JS.truthy n
  | JS.VString s =>
      negb (String.eqb s EmptyString || String.eqb s "0"
            || String.eqb s "false")
  end.

(** Outcome of a function that may throw. *)
Inductive result (A : Type) :=
| Ok (a : A)
| Throw (message : string).
Arguments Ok {A} a.
Arguments Throw {A} message.

(** Sequencing: a throw aborts what follows. *)
#[global] Instance result_bind : MBind result :=
  fun A B k r =>
    match r with
    | Ok a => k a
    | Throw message => Throw message
    end.

(** The first switch of [toType]: the cast opcode of a target type, when
    the target is one of the four supported ones. *)
Definition castOpcodeFor (targetType : Z) : option CastOpcode :=
  if targetType =? InputType.BOOLEAN then Some CAST_BOOLEAN
  else if targetType =? InputType.NUMBER then Some CAST_NUMBER
  else if targetType =? InputType.NUMBER_OR_NAN then Some CAST_NUMBER_OR_NAN
  else if targetType =? InputType.STRING then Some CAST_STRING
  else None.

Section ToType.
Variable StringToNumber : string -> JS.number.
Variable NumberToString : JS.number -> string.

(** The compile-time cast of a constant: the new type and literal. *)
Definition castConstant (castOpcode : CastOpcode) (value : JS.value)
  : IntermediateInput :=
  match castOpcode with
  | CAST_BOOLEAN =>
      CONSTANT InputType.BOOLEAN (JS.VBoolean (Cast_toBoolean value))
  | CAST_NUMBER | CAST_NUMBER_OR_NAN =>
      let numberValue := JS.ToNumber StringToNumber value in
      CONSTANT InputType.NUMBER
        (JS.VNumber
           (if JS.truthy numberValue then numberValue
            else if JS.is_negzero numberValue then JS.negzero
                 else JS.zero))
  | CAST_STRING =>
      CONSTANT InputType.STRING
        (JS.VString (JS.ToString NumberToString value))
  end.

(** [toType].  A constant is updated in place by the source and then
    returned; the returned node is that updated constant. *)
Definition toType (this : IntermediateInput) (targetType : Z)
  : result IntermediateInput :=
  match castOpcodeFor targetType with
  | None => Throw "Cannot cast to type"
  | Some castOpcode =>
      if isAlwaysType this targetType then Ok this
      else match this with
           | CONSTANT _ value => Ok (castConstant castOpcode value)
           | _ => Ok (CAST castOpcode targetType this)
           end
  end.
End ToType.

(* ===================================================================== *)
(** * The IR optimizer: TypeState *)
(* ===================================================================== *)

(** [TypeState.variables]: an object used as a map from variable names to
    lattice elements.  Names are assumed not to collide with members of
    [Object.prototype]. *)
Abbreviation TypeState := (gmap string Z).

Module TypeState.

(** [new TypeState()]. *)
Definition create : TypeState := ∅.

(** [clear]: the flag is set when some entry differs from ANY. *)
Definition clear (this : TypeState) : bool * TypeState :=
  (map_fold (fun _ type modified => modified || negb (type =? InputType.ANY))
     false this,
   ∅).

(** [clone]: a fresh object that receives every entry. *)
Definition clone (this : TypeState) : TypeState :=
  map_fold (fun varId type vars => <[varId := type]> vars) ∅ this.

(** [getVariableType]: [this.variables[variable.name] ?? ANY]. *)
Definition getVariableType (this : TypeState) (variable : VariableRef) : Z :=
  default InputType.ANY (this !! name variable).

(** [setVariableType]. *)
Definition setVariableType (this : TypeState) (variable : VariableRef)
    (type : Z) : bool * TypeState :=
  if getVariableType this variable =? type then (false, this)
  else (true, <[name variable := type]> this).

(** [!other.variables[varId]]: the entry is missing or is 0. *)
Definition falsy (entry : option Z) : bool :=
  match entry with
  | None => true
  | Some type => type =? 0
  end.

(** First loop of [or]: every entry of [other] is joined into [this]. *)
Definition or_join (this other : TypeState) : bool * TypeState :=
  map_fold
    (fun varId otherType '(modified, vars) =>
       let currentType := default InputType.ANY (vars !! varId) in
       let newType := Z.lor currentType otherType in
       (modified || negb (currentType =? newType),
        <[varId := newType]> vars))
    (false, this) other.

(** Second loop of [or]: entries of [this] that [other] does not have
    are promoted to ANY. *)
Definition or_promote (other : TypeState) (acc : bool * TypeState)
  : bool * TypeState :=
  map_fold
    (fun varId thisType '(modified, vars) =>
       if falsy (other !! varId) then
         if negb (thisType =? InputType.ANY)
         then (true, <[varId := InputType.ANY]> vars)
         else (modified, vars)
       else (modified, vars))
    acc (snd acc).

(** [or]: returns whether [this] changed, and the updated [this]. *)
Definition or (this other : TypeState) : bool * TypeState :=
  or_promote other (or_join this other).

End TypeState.

(* ===================================================================== *)
(** * The IR optimizer: stack blocks *)
(* ===================================================================== *)

(** An IntermediateStackBlock is {opcode, inputs, yields} plus the two
    annotations the analyzer attaches.  As for inputs, the opcode fixes
    the shape of [inputs]: the opcodes that the analyzer, the yield
    helpers or [retire] look at are constructors, every other statement
    opcode is [STACK_OTHER].  A nested stack is [None] when the field is
    null or undefined, and otherwise the list [stack.blocks]. *)
Inductive IntermediateStackBlock :=
| Block (node : StackNode) (yields : bool)
        (entryState exitState : option (gmap string Z))
with StackNode :=
| VAR_SET (variable : VariableRef) (value : IntermediateInput)
| CONTROL_WHILE (condition : IntermediateInput)
       (do_ : option (list IntermediateStackBlock)) (warpTimer : bool)
| CONTROL_FOR (variable : VariableRef) (count : IntermediateInput)
       (do_ : option (list IntermediateStackBlock))
| CONTROL_REPEAT (times : IntermediateInput)
       (do_ : option (list IntermediateStackBlock))
| CONTROL_IF_ELSE (condition : IntermediateInput)
       (whenTrue whenFalse : option (list IntermediateStackBlock))
| PROCEDURE_CALL (code variant : string)
       (arguments : list IntermediateInput)
| CONTROL_STOP_ALL
| CONTROL_STOP_OTHERS
| CONTROL_STOP_SCRIPT
| CONTROL_CLONE_DELETE
| CONTROL_WAIT (seconds : IntermediateInput)
| CONTROL_WAIT_UNTIL (condition : IntermediateInput)
| EVENT_BROADCAST (broadcast : IntermediateInput)
| EVENT_BROADCAST_AND_WAIT (broadcast : IntermediateInput)
| ADDON_CALL (code blockId : string)
       (arguments : list (string * IntermediateInput))
| COMPATIBILITY_LAYER (opcode : string)
       (inputs : list (string * IntermediateInput))
       (fields : list (string * string))
| STACK_OTHER (opcode : string) (inputs : list (string * IntermediateInput)).

Abbreviation IntermediateStack := (option (list IntermediateStackBlock)).

Definition block_node (b : IntermediateStackBlock) : StackNode :=
  match b with Block node _ _ _ => node end.
Definition block_yields (b : IntermediateStackBlock) : bool :=
  match b with Block _ yields _ _ => yields end.
Definition block_entryState (b : IntermediateStackBlock)
  : option (gmap string Z) :=
  match b with Block _ _ entryState _ => entryState end.
Definition block_exitState (b : IntermediateStackBlock)
  : option (gmap string Z) :=
  match b with Block _ _ _ exitState => exitState end.

(** The node of a loop block once its body [inputs.do] carries new
    annotations; the body is the only part of a node the analyzer
    touches. *)
Definition withDo (node : StackNode)
    (stack : option (list IntermediateStackBlock)) : StackNode :=
  match node with
  | CONTROL_WHILE condition _ warpTimer =>
      CONTROL_WHILE condition stack warpTimer
  | CONTROL_FOR variable count _ => CONTROL_FOR variable count stack
  | CONTROL_REPEAT times _ => CONTROL_REPEAT times stack
  | _ => node
  end.

(* ===================================================================== *)
(** * The IR optimizer: analysis of inputs *)
(* ===================================================================== *)

(** Truthiness of [type & mask]. *)
Definition has (type mask : Z) : bool := negb (Z.land type mask =? 0).

(** [resultType |= bits] under a condition. *)
Definition orWhen (condition : bool) (bits resultType : Z) : Z :=
  if condition then Z.lor resultType bits else resultType.

Section Transfer.
Import InputType.
Variables leftType rightType : Z.

Definition canBeFractional : bool :=
  has leftType NUMBER_FRACT || has rightType NUMBER_FRACT.

(** The bits ADD, SUBTRACT and MULTIPLY add once a sign is possible:
    the integer and the infinity of that sign, and the fraction when an
    operand can be fractional. *)
Definition posBits : Z :=
  orWhen canBeFractional NUMBER_POS_FRACT
    (Z.lor NUMBER_POS_INT NUMBER_POS_INF).
Definition negBits : Z :=
  orWhen canBeFractional NUMBER_NEG_FRACT
    (Z.lor NUMBER_NEG_INT NUMBER_NEG_INF).

Definition analyzeAdd : Z :=
  let canBeNaN :=
    (has leftType NUMBER_POS_INF && has rightType NUMBER_NEG_INF)
    || (has leftType NUMBER_NEG_INF && has rightType NUMBER_POS_INF) in
  let canBePos := has leftType NUMBER_POS || has rightType NUMBER_POS in
  let canBeNeg := has leftType NUMBER_NEG || has rightType NUMBER_NEG in
  let canBeZero :=
    (has leftType NUMBER_POS_REAL && has rightType NUMBER_NEG_REAL)
    || (has leftType NUMBER_NEG_REAL && has rightType NUMBER_POS_REAL)
    || (has leftType NUMBER_ZERO && has rightType NUMBER_ZERO)
    || (has leftType NUMBER_ZERO && has rightType NUMBER_NEG_ZERO)
    || (has leftType NUMBER_NEG_ZERO && has rightType NUMBER_ZERO) in
  let canBeNegZero :=
    has leftType NUMBER_NEG_ZERO && has rightType NUMBER_NEG_ZERO in
  orWhen canBeNegZero NUMBER_NEG_ZERO
    (orWhen canBeZero NUMBER_ZERO
       (orWhen canBeNeg negBits
          (orWhen canBePos posBits
             (orWhen canBeNaN NUMBER_NAN 0)))).

Definition analyzeSubtract : Z :=
  let canBeNaN :=
    (has leftType NUMBER_POS_INF && has rightType NUMBER_POS_INF)
    || (has leftType NUMBER_NEG_INF && has rightType NUMBER_NEG_INF) in
  let canBePos := has leftType NUMBER_POS || has rightType NUMBER_NEG in
  let canBeNeg := has leftType NUMBER_NEG || has rightType NUMBER_POS in
  let canBeZero :=
    (has leftType NUMBER_POS_REAL && has rightType NUMBER_POS_REAL)
    || (has leftType NUMBER_NEG_REAL && has rightType NUMBER_NEG_REAL)
    || (has leftType NUMBER_ZERO && has rightType NUMBER_ZERO)
    || (has leftType NUMBER_ZERO && has rightType NUMBER_NEG_ZERO)
    || (has leftType NUMBER_NEG_ZERO && has rightType NUMBER_NEG_ZERO) in
  let canBeNegZero :=
    has leftType NUMBER_NEG_ZERO && has rightType NUMBER_ZERO in
  orWhen canBeNegZero NUMBER_NEG_ZERO
    (orWhen canBeZero NUMBER_ZERO
       (orWhen canBeNeg negBits
          (orWhen canBePos posBits
             (orWhen canBeNaN NUMBER_NAN 0)))).

Definition analyzeMultiply : Z :=
  let canBeNaN :=
    (has leftType NUMBER_POS_INF && has rightType NUMBER_ANY_ZERO)
    || (has leftType NUMBER_ANY_ZERO && has rightType NUMBER_POS_INF) in
  let canBePos :=
    (has leftType NUMBER_POS && has rightType NUMBER_POS)
    || (has leftType NUMBER_NEG && has rightType NUMBER_NEG) in
  let canBeNeg :=
    (has leftType NUMBER_POS && has rightType NUMBER_NEG)
    || (has leftType NUMBER_NEG && has rightType NUMBER_POS) in
  let canBeZero :=
    (has leftType NUMBER_ZERO && has rightType NUMBER_POS_REAL)
    || (has leftType NUMBER_NEG_ZERO && has rightType NUMBER_NEG_REAL)
    || (has leftType NUMBER_POS_REAL && has rightType NUMBER_ZERO)
    || (has leftType NUMBER_NEG_REAL && has rightType NUMBER_NEG_ZERO)
    || (has leftType NUMBER_POS_REAL && has rightType NUMBER_POS_REAL)
    || (has leftType NUMBER_NEG_REAL && has rightType NUMBER_NEG_REAL) in
  let canBeNegZero :=
    (has leftType NUMBER_NEG_ZERO && has rightType NUMBER_POS_REAL)
    || (has leftType NUMBER_ZERO && has rightType NUMBER_NEG_REAL)
    || (has leftType NUMBER_POS_REAL && has rightType NUMBER_NEG_ZERO)
    || (has leftType NUMBER_NEG_REAL && has rightType NUMBER_ZERO)
    || (has leftType NUMBER_NEG_REAL && has rightType NUMBER_POS_REAL)
    || (has leftType NUMBER_POS_REAL && has rightType NUMBER_NEG_REAL) in
  orWhen canBeNegZero NUMBER_NEG_ZERO
    (orWhen canBeZero NUMBER_ZERO
       (orWhen canBeNeg negBits
          (orWhen canBePos posBits
             (orWhen canBeNaN NUMBER_NAN 0)))).

Definition analyzeDivide : Z :=
  let canBeNaN :=
    (has leftType NUMBER_REAL && has rightType NUMBER_ZERO)
    || (has leftType NUMBER_INF && has rightType NUMBER_INF) in
  let canBePos :=
    (has leftType NUMBER_POS && has rightType NUMBER_POS)
    || (has leftType NUMBER_NEG && has rightType NUMBER_NEG) in
  let canBeNeg :=
    (has leftType NUMBER_POS && has rightType NUMBER_NEG)
    || (has leftType NUMBER_NEG && has rightType NUMBER_POS) in
  let canBeZero :=
    (has leftType NUMBER_ZERO && has rightType NUMBER_POS)
    || (has leftType NUMBER_NEG_ZERO && has rightType NUMBER_NEG)
    || (has leftType NUMBER_POS_REAL && has rightType NUMBER_POS_REAL)
    || (has leftType NUMBER_NEG_REAL && has rightType NUMBER_NEG_REAL) in
  let canBeNegZero :=
    (has leftType NUMBER_NEG_ZERO && has rightType NUMBER_POS)
    || (has leftType NUMBER_ZERO && has rightType NUMBER_NEG)
    || (has leftType NUMBER_NEG_REAL && has rightType NUMBER_POS_REAL)
    || (has leftType NUMBER_POS_REAL && has rightType NUMBER_NEG_REAL) in
  orWhen canBeNegZero NUMBER_NEG_ZERO
    (orWhen canBeZero NUMBER_ZERO
       (orWhen canBeNeg NUMBER_NEG
          (orWhen (has leftType NUMBER_NEG_INF
                   && has rightType NUMBER_NEG_ZERO) NUMBER_POS_INF
             (orWhen (has leftType NUMBER_POS_INF
                      && has rightType NUMBER_ZERO) NUMBER_POS_INF
                (orWhen (has leftType NUMBER_POS_INF
                         && has rightType NUMBER_NEG_ZERO) NUMBER_NEG_INF
                   (orWhen (has leftType NUMBER_NEG_INF
                            && has rightType NUMBER_ZERO) NUMBER_NEG_INF
                      (orWhen canBePos NUMBER_POS
                         (orWhen canBeNaN NUMBER_NAN 0)))))))).

Definition analyzeArith (opcode : ArithOpcode) : Z :=
  match opcode with
  | OP_ADD => analyzeAdd
  | OP_SUBTRACT => analyzeSubtract
  | OP_MULTIPLY => analyzeMultiply
  | OP_DIVIDE => analyzeDivide
  end.
End Transfer.

(** [IROptimizer.analyzeInputBlock]. *)
Fixpoint analyzeInputBlock (inputBlock : IntermediateInput) (state : TypeState)
  : Z :=
  match inputBlock with
  | VAR_GET _ variable => TypeState.getVariableType state variable
  | CAST CAST_NUMBER _ target =>
      let innerType := analyzeInputBlock target state in
      if has innerType InputType.NUMBER then innerType
      else InputType.NUMBER
  | CAST CAST_NUMBER_OR_NAN _ target =>
      let innerType := analyzeInputBlock target state in
      if has innerType InputType.NUMBER_OR_NAN then innerType
      else InputType.NUMBER_OR_NAN
  | ARITH opcode _ lhs rhs =>
      analyzeArith (analyzeInputBlock lhs state)
                   (analyzeInputBlock rhs state) opcode
  | _ => input_type inputBlock
  end.

(* ===================================================================== *)
(** * The IR optimizer: analysis of stacks *)
(* ===================================================================== *)

(** The three stack functions call one another and the loop iterates
    until [or] reports no change, so they are defined with fuel: [None]
    means the fuel ran out.  A successful run returns the flag the source
    returns, the block or stack with its updated annotations, and the
    state the source has mutated. *)

Section AnalyzeStack.
(** The recursive calls go through [analyzeStackBlock] at the fuel
    that is left. *)
Variable analyzeStackBlock :
  IntermediateStackBlock -> TypeState ->
  option (bool * IntermediateStackBlock * TypeState).

(** What [analyzeStack] does with one block once the block has been
    analyzed: clear on yields, then record the exit state. *)
Definition recordExit (stateChanged : bool)
    (stackBlock : IntermediateStackBlock) (state : TypeState)
  : bool * IntermediateStackBlock * TypeState :=
  let '(stateChanged, state) :=
    if block_yields stackBlock then
      (* stateChanged ||= state.clear() *)
      if stateChanged then (true, state) else TypeState.clear state
    else (stateChanged, state) in
  if stateChanged then
    let exitState :=
      match block_exitState stackBlock with
      | Some exitState => Some (snd (TypeState.or exitState state))
      | None => Some (TypeState.clone state)
      end in
    (true,
     Block (block_node stackBlock) (block_yields stackBlock)
           (block_entryState stackBlock) exitState,
     state)
  else (false, stackBlock, state).

(** The loop of [analyzeStack] over [stack.blocks]. *)
Fixpoint analyzeBlocks (blocks : list IntermediateStackBlock)
    (state : TypeState) (modified : bool)
  : option (bool * list IntermediateStackBlock * TypeState) :=
  match blocks with
  | [] => Some (modified, [], state)
  | stackBlock :: rest =>
      '(stateChanged, stackBlock, state) ← analyzeStackBlock stackBlock state;
      let '(stateChanged, stackBlock, state) :=
        recordExit stateChanged stackBlock state in
      '(modified, rest, state) ←
        analyzeBlocks rest state (modified || stateChanged);
      Some (modified, stackBlock :: rest, state)
  end.

(** [IROptimizer.analyzeStack]. *)
Definition analyzeStack (stack : IntermediateStack) (state : TypeState)
  : option (bool * IntermediateStack * TypeState) :=
  match stack with
  | None => Some (false, None, state)
  | Some blocks =>
      '(modified, blocks, state) ← analyzeBlocks blocks state false;
      Some (modified, Some blocks, state)
  end.

(** The do-while of [analyzeLoopedStack]; the result is the last value
    of [modified] together with the body and the state. *)
Fixpoint iterateLoop (fuel : nat) (stack : IntermediateStack)
    (state : TypeState)
  : option (bool * IntermediateStack * TypeState) :=
  match fuel with
  | O => None
  | S fuel =>
      let newState := TypeState.clone state in
      '(_, stack, newState) ← analyzeStack stack newState;
      let '(keepLooping, state) := TypeState.or state newState in
      if keepLooping then iterateLoop fuel stack state
      else Some (keepLooping, stack, state)
  end.

(** [IROptimizer.analyzeLoopedStack]; [stack] is [block.inputs.do]. *)
Definition analyzeLoopedStack (fuel : nat)
    (stack : IntermediateStack) (state : TypeState)
    (block : IntermediateStackBlock)
  : option (bool * IntermediateStackBlock * TypeState) :=
  if block_yields block then
    let '(modified, state) := TypeState.clear state in
    let entryState := TypeState.clone state in
    let exitState := TypeState.clone state in
    '(bodyModified, stack, state) ← analyzeStack stack state;
    Some (bodyModified || modified,
          Block (withDo (block_node block) stack) (block_yields block)
                (Some entryState) (Some exitState),
          state)
  else
    '(modified, stack, state) ← iterateLoop fuel stack state;
    Some (modified,
          Block (withDo (block_node block) stack) (block_yields block)
                (Some (TypeState.clone state)) (block_exitState block),
          state).
End AnalyzeStack.

(** [IROptimizer.analyzeStackBlock]. *)
Fixpoint analyzeStackBlock (fuel : nat) (stackBlock : IntermediateStackBlock)
    (state : TypeState)
  : option (bool * IntermediateStackBlock * TypeState) :=
  match fuel with
  | O => None
  | S fuel =>
      match block_node stackBlock with
      | VAR_SET variable value =>
          let '(modified, state) :=
            TypeState.setVariableType state variable
              (analyzeInputBlock value state) in
          Some (modified, stackBlock, state)
      | CONTROL_WHILE _ do_ _
      | CONTROL_FOR _ _ do_
      | CONTROL_REPEAT _ do_ =>
          analyzeLoopedStack (analyzeStackBlock fuel) fuel do_ state
            stackBlock
      | CONTROL_IF_ELSE condition whenTrue whenFalse =>
          let trueState := TypeState.clone state in
          '(_, whenTrue, trueState) ←
            analyzeStack (analyzeStackBlock fuel) whenTrue trueState;
          '(modified, whenFalse, state) ←
            analyzeStack (analyzeStackBlock fuel) whenFalse state;
          (* modified ||= state.or(trueState) *)
          let '(modified, state) :=
            if (modified : bool) then (true, state)
            else TypeState.or state trueState in
          Some (modified,
                Block (CONTROL_IF_ELSE condition whenTrue whenFalse)
                      (block_yields stackBlock)
                      (block_entryState stackBlock)
                      (block_exitState stackBlock),
                state)
      | PROCEDURE_CALL _ _ _ =>
          let '(modified, state) := TypeState.clear state in
          Some (modified, stackBlock, state)
      | _ => Some (false, stackBlock, state)
      end
  end.

(** The analysis of a whole stack at a given fuel. *)
Definition analyze (fuel : nat) (stack : IntermediateStack)
    (state : TypeState)
  : option (bool * IntermediateStack * TypeState) :=
  analyzeStack (analyzeStackBlock fuel) stack state.

(* ===================================================================== *)
(** * The IR optimizer: the rewriter on inputs *)
(* ===================================================================== *)

(** [IROptimizer.optimizeInput].  The source first replaces every entry
    of [input.inputs] that is an IntermediateInput by its optimized form,
    then looks at the opcode. *)
Fixpoint optimizeInput (input : IntermediateInput) (state : TypeState)
  : IntermediateInput :=
  match input with
  | CONSTANT _ value =>
      CONSTANT (analyzeInputBlock input state) value
  | VAR_GET _ variable =>
      VAR_GET (analyzeInputBlock input state) variable
  | CAST opcode type target =>
      let target := optimizeInput target state in
      match opcode with
      | CAST_NUMBER =>
          let targetType := analyzeInputBlock target state in
          if Z.land targetType InputType.NUMBER =? targetType then target
          else CAST opcode type target
      | CAST_NUMBER_OR_NAN =>
          let targetType := analyzeInputBlock target state in
          if Z.land targetType InputType.NUMBER_OR_NAN =? targetType
          then target
          else CAST opcode type target
      | _ =>
          let input := CAST opcode type target in
          CAST opcode (analyzeInputBlock input state) target
      end
  | ARITH opcode type lhs rhs =>
      let lhs := optimizeInput lhs state in
      let rhs := optimizeInput rhs state in
      ARITH opcode (analyzeInputBlock (ARITH opcode type lhs rhs) state)
            lhs rhs
  | OTHER opcode type inputs =>
      let inputs :=
        (fix optimizeInputs (inputs : list (string * IntermediateInput)) :=
           match inputs with
           | [] => []
           | (inputKey, inputInput) :: rest =>
               (inputKey, optimizeInput inputInput state)
               :: optimizeInputs rest
           end) inputs in
      OTHER opcode (analyzeInputBlock (OTHER opcode type inputs) state)
            inputs
  end.


(* ===================================================================== *)
(** * jsgen.js: the safe-constant test of the EQ lowering *)
(* ===================================================================== *)

Section EqualsOptimization.
Variable StringToNumber : string -> JS.number.
Variable NumberToString : JS.number -> string.

(** [isSafeInputForEqualsOptimization] of the current generator. *)
Definition isSafeInputForEqualsOptimization (input : IntermediateInput)
  : bool :=
  match input with
  | CONSTANT _ value =>
      if isAlwaysType input InputType.NUMBER
         || isAlwaysType input InputType.STRING_NUM
      then JS.nonzero (JS.ToNumber StringToNumber value)
      else false
  | _ => false
  end.

(** [isSafeConstantForEqualsOptimization] of the older generator, whose
    ConstantInput keeps the raw literal in [constantValue]. *)
Definition isSafeConstantForEqualsOptimization (constantValue : JS.value)
  : bool :=
  let numberValue := JS.ToNumber StringToNumber constantValue in
  if negb (JS.truthy numberValue) then false
  else String.eqb (NumberToString numberValue)
                  (JS.ToString NumberToString constantValue).

(** The four outcomes of the OP_EQUALS case of [descendInput]. *)
Inductive EqualsLowering :=
| EQ_BOTH_NUMBERS
| EQ_SAFE_CONSTANT
| EQ_STRINGS
| EQ_COMPARE_EQUAL.

(** The InputType table entry NUMBER_INTERPRETABLE is not among the
    sources and the specification leaves it implementation-defined; it is
    a parameter of the case analysis. *)
Variable NUMBER_INTERPRETABLE : Z.

(** The case analysis of OP_EQUALS in [descendInput]: which of the four
    texts is produced for the operands [left] and [right]. *)
Definition equalsLowering (lhs rhs : IntermediateInput) : EqualsLowering :=
  if isAlwaysType lhs NUMBER_INTERPRETABLE
     && isAlwaysType rhs NUMBER_INTERPRETABLE
  then EQ_BOTH_NUMBERS
  else if isSafeInputForEqualsOptimization lhs
          || isSafeInputForEqualsOptimization rhs
  then EQ_SAFE_CONSTANT
  else if negb (isSometimesType lhs NUMBER_INTERPRETABLE)
          || negb (isSometimesType rhs NUMBER_INTERPRETABLE)
  then EQ_STRINGS
  else EQ_COMPARE_EQUAL.
End EqualsOptimization.

(* ===================================================================== *)
(** * jsgen.js: stacked blocks, yields and retirement *)
(* ===================================================================== *)

Module JSGenerator.

Definition nl : string := String (ascii_of_nat 10) EmptyString.
Definition dq : string := String (ascii_of_nat 34) EmptyString.
Definition quoted (s : string) : string := dq +:+ s +:+ dq.
Definition boolText (b : bool) : string := if b then "true" else "false".

(** [IntermediateScript], without the dependency list and the cache. *)
Record IntermediateScript := mkScript {
  topBlockId : string;
  stack : IntermediateStack;
  isProcedure : bool;
  procedureCode : string;
  arguments : list string;
  isWarp : bool;
  yields : bool;
  warpTimer : bool
}.

(** [IntermediateRepresentation]. *)
Record IntermediateRepresentation := mkIR {
  entry : IntermediateScript;
  procedures : gmap string IntermediateScript
}.

Record Frame := mkFrame {
  isLoop : bool;
  isLastBlock : bool
}.

(** The mutable part of a JSGenerator.  [frames] has the most recent
    frame first; a variable pool is represented by its count. *)
Record Generator := mkGenerator {
  source : string;
  frames : list Frame;
  localVariables : Z;
  setupVariablesPool : Z;
  setupVariables : list (string * string)
}.

(** Modelled from the spec: [variable-pool.js] is not among the sources.
    Section 4.6 describes a pool as a prefixed counter, so the name a
    pool hands out is its prefix followed by its count. *)
Definition poolName (prefix : string) (count : Z) : string :=
  prefix +:+ Host.decimal count.

Definition create : Generator :=
  mkGenerator EmptyString [] 0 0 [].

(** [this.source += text]. *)
Definition emit (text : string) (g : Generator) : Generator :=
  mkGenerator (source g +:+ text) (frames g) (localVariables g)
              (setupVariablesPool g) (setupVariables g).

Definition pushFrame (frame : Frame) (g : Generator) : Generator :=
  mkGenerator (source g) (frame :: frames g) (localVariables g)
              (setupVariablesPool g) (setupVariables g).

Definition popFrame (g : Generator) : Generator :=
  mkGenerator (source g) (tail (frames g)) (localVariables g)
              (setupVariablesPool g) (setupVariables g).

(** [frame.isLastBlock = ...] on the frame of the stack being descended,
    which is the most recent one. *)
Definition setLastBlock (last : bool) (g : Generator) : Generator :=
  match frames g with
  | frame :: rest =>
      mkGenerator (source g) (mkFrame (isLoop frame) last :: rest)
                  (localVariables g) (setupVariablesPool g)
                  (setupVariables g)
  | [] => g
  end.

Fixpoint lastBlockInLoop (frames : list Frame) : bool :=
  match frames with
  | [] => false
  | frame :: rest =>
      if negb (isLastBlock frame) then false
      else if isLoop frame then true
      else lastBlockInLoop rest
  end.

Definition isLastBlockInLoop (g : Generator) : bool :=
  lastBlockInLoop (frames g).

(** [this.localVariables.next()]. *)
Definition nextLocal (g : Generator) : string * Generator :=
  (poolName "a" (localVariables g),
   mkGenerator (source g) (frames g) (localVariables g + 1)
               (setupVariablesPool g) (setupVariables g)).

Fixpoint assoc (key : string) (entries : list (string * string))
  : option string :=
  match entries with
  | [] => None
  | (k, v) :: rest => if String.eqb k key then Some v else assoc key rest
  end.

Definition evaluateOnce (text : string) (g : Generator)
  : string * Generator :=
  match assoc text (setupVariables g) with
  | Some variable => (variable, g)
  | None =>
      let variable := poolName "b" (setupVariablesPool g) in
      (variable,
       mkGenerator (source g) (frames g) (localVariables g)
                   (setupVariablesPool g + 1)
                   (setupVariables g ++ [(text, variable)]))
  end.

Section Generator.
Variable script : IntermediateScript.
Variable ir : IntermediateRepresentation.

(** [sanitize] is JSON escaping, a host facility. *)
Variable sanitize : string -> string.

(** The lowering of inputs and of the statement opcodes that neither
    nest a stack nor reach [retire] or a yield helper; both produce text
    or throw.  In the source they can also register setup variables
    through [evaluateOnce]; they leave the frames alone and add to the
    source nothing but the text they produce, which is what is
    represented here. *)
Variable descendInput : IntermediateInput -> result string.
Variable descendOther :
  string -> list (string * IntermediateInput) -> result string.

Definition referenceVariable (variable : VariableRef) (g : Generator)
  : string * Generator :=
  if String.eqb (scope variable) "target"
  then evaluateOnce ("target.variables[" +:+ quoted (sanitize (id variable))
                     +:+ "]") g
  else evaluateOnce ("stage.variables[" +:+ quoted (sanitize (id variable))
                     +:+ "]") g.

Definition yielded (g : Generator) : result Generator :=
  if yields script then Ok g
  else Throw "Script yielded but is not marked as yielding.".

Definition retire (g : Generator) : Generator :=
  if isProcedure script then emit ("retire(); yield;" +:+ nl) g
  else emit ("retire(); return;" +:+ nl) g.

Definition yieldNotWarp (g : Generator) : result Generator :=
  if isWarp script then Ok g
  else yielded (emit ("yield;" +:+ nl) g).

Definition yieldStuckOrNotWarp (g : Generator) : result Generator :=
  yielded
    (if isWarp script then emit ("if (isStuck()) yield;" +:+ nl) g
     else emit ("yield;" +:+ nl) g).

Definition yieldLoop (g : Generator) : result Generator :=
  if warpTimer script then yieldStuckOrNotWarp g else yieldNotWarp g.

Definition requestRedraw (g : Generator) : Generator :=
  emit ("runtime.requestRedraw();" +:+ nl) g.

(** The entries [name:compiled,] of an object literal. *)
Fixpoint descendEntries (inputs : list (string * IntermediateInput))
  : result string :=
  match inputs with
  | [] => Ok EmptyString
  | (inputName, input) :: rest =>
      compiledInput ← descendInput input;
      others ← descendEntries rest;
      Ok (quoted (sanitize inputName) +:+ ":" +:+ compiledInput +:+ ","
          +:+ others)
  end.

Definition descendInputRecord (inputs : list (string * IntermediateInput))
  : result string :=
  entries ← descendEntries inputs;
  Ok ("{" +:+ entries +:+ "}").

Fixpoint fieldEntries (fields : list (string * string)) : string :=
  match fields with
  | [] => EmptyString
  | (fieldName, field) :: rest =>
      quoted (sanitize fieldName) +:+ ":" +:+ quoted (sanitize field) +:+ ","
      +:+ fieldEntries rest
  end.

Definition generateCompatibilityLayerCall (opcode : string)
    (inputs : list (string * IntermediateInput))
    (fields : list (string * string)) (setFlags : bool) (g : Generator)
  : result (string * Generator) :=
  entries ← descendEntries inputs;
  let '(opcodeFunction, g) :=
    evaluateOnce ("runtime.getOpcodeFunction(" +:+ quoted (sanitize opcode)
                  +:+ ")") g in
  Ok ("yield* executeInCompatibilityLayer({" +:+ entries
      +:+ fieldEntries fields +:+ "}, " +:+ opcodeFunction +:+ ", "
      +:+ boolText (isWarp script) +:+ ", " +:+ boolText setFlags
      +:+ ", null)",
      g).

(** [args.join(',')] over the compiled arguments. *)
Fixpoint descendArguments (inputs : list IntermediateInput)
  : result string :=
  match inputs with
  | [] => Ok EmptyString
  | [input] => descendInput input
  | input :: rest =>
      compiledInput ← descendInput input;
      others ← descendArguments rest;
      Ok (compiledInput +:+ "," +:+ others)
  end.

Section DescendStack.
Variable descendStackedBlock :
  IntermediateStackBlock -> Generator -> result Generator.

Fixpoint descendBlocks (blocks : list IntermediateStackBlock)
    (g : Generator) : result Generator :=
  match blocks with
  | [] => Ok g
  | block :: rest =>
      g ← descendStackedBlock block
             (setLastBlock (match rest with [] => true | _ => false end) g);
      descendBlocks rest g
  end.

(** [descendStack]; reading [blocks] of a null stack is a TypeError. *)
Definition descendStack (stack : IntermediateStack) (frame : Frame)
    (g : Generator) : result Generator :=
  match stack with
  | None => Throw "TypeError"
  | Some blocks =>
      g ← descendBlocks blocks (pushFrame frame g);
      Ok (popFrame g)
  end.
End DescendStack.

(** [descendStackedBlock]. *)
Fixpoint descendStackedBlock (block : IntermediateStackBlock)
    (g : Generator) {struct block} : result Generator :=
  match block with
  | Block node _ _ _ =>
  match node with
  | ADDON_CALL code blockId arguments =>
      inputs ← descendInputRecord arguments;
      let blockFunction :=
        "runtime.getAddonBlock(" +:+ quoted (sanitize code)
        +:+ ").callback" in
      Ok (emit ("yield* executeInCompatibilityLayer(" +:+ inputs +:+ ", "
                +:+ blockFunction +:+ ", " +:+ boolText (isWarp script)
                +:+ ", false, " +:+ quoted (sanitize blockId) +:+ ");"
                +:+ nl) g)
  | COMPATIBILITY_LAYER opcode inputs fields =>
      let isLastInLoop := isLastBlockInLoop g in
      '(call, g) ←
        generateCompatibilityLayerCall opcode inputs fields isLastInLoop g;
      let g := emit (call +:+ ";" +:+ nl) g in
      Ok (if isLastInLoop
          then emit ("if (hasResumedFromPromise) "
                     +:+ "{hasResumedFromPromise = false;continue;}" +:+ nl) g
          else g)
  | CONTROL_CLONE_DELETE =>
      let g := emit ("if (!target.isOriginal) {" +:+ nl) g in
      let g := emit ("  runtime.disposeTarget(target);" +:+ nl) g in
      let g := emit ("  runtime.stopForTarget(target);" +:+ nl) g in
      let g := retire g in
      Ok (emit ("}" +:+ nl) g)
  | CONTROL_FOR variable count do_ =>
      let '(index, g) := nextLocal g in
      let g := emit ("var " +:+ index +:+ " = 0; ") g in
      compiledCount ← descendInput count;
      let g := emit ("while (" +:+ index +:+ " < " +:+ compiledCount
                     +:+ ") { ") g in
      let g := emit (index +:+ "++; ") g in
      let '(reference, g) := referenceVariable variable g in
      let g := emit (reference +:+ ".value = " +:+ index +:+ ";" +:+ nl) g in
      g ← descendStack descendStackedBlock do_ (mkFrame true false) g;
      g ← yieldLoop g;
      Ok (emit ("}" +:+ nl) g)
  | CONTROL_IF_ELSE condition whenTrue whenFalse =>
      compiledCondition ← descendInput condition;
      let g := emit ("if (" +:+ compiledCondition +:+ ") {" +:+ nl) g in
      g ← descendStack descendStackedBlock whenTrue (mkFrame false false) g;
      g ← match whenFalse with
           | None => Throw "TypeError"
           | Some [] => Ok g
           | Some _ =>
               descendStack descendStackedBlock whenFalse
                 (mkFrame false false) (emit ("} else {" +:+ nl) g)
           end;
      Ok (emit ("}" +:+ nl) g)
  | CONTROL_REPEAT times do_ =>
      let '(i, g) := nextLocal g in
      compiledTimes ← descendInput times;
      let g := emit ("for (var " +:+ i +:+ " = " +:+ compiledTimes +:+ "; "
                     +:+ i +:+ " >= 0.5; " +:+ i +:+ "--) {" +:+ nl) g in
      g ← descendStack descendStackedBlock do_ (mkFrame true false) g;
      g ← yieldLoop g;
      Ok (emit ("}" +:+ nl) g)
  | CONTROL_STOP_ALL =>
      Ok (retire (emit ("runtime.stopAll();" +:+ nl) g))
  | CONTROL_STOP_OTHERS =>
      Ok (emit ("runtime.stopForTarget(target, thread);" +:+ nl) g)
  | CONTROL_STOP_SCRIPT =>
      if isProcedure script then Ok (emit ("return;" +:+ nl) g)
      else Ok (retire g)
  | CONTROL_WAIT seconds =>
      let '(duration, g) := nextLocal g in
      let g := emit ("thread.timer = timer();" +:+ nl) g in
      compiledSeconds ← descendInput seconds;
      let g := emit ("var " +:+ duration +:+ " = Math.max(0, 1000 * "
                     +:+ compiledSeconds +:+ ");" +:+ nl) g in
      let g := requestRedraw g in
      g ← yieldNotWarp g;
      let g := emit ("while (thread.timer.timeElapsed() < " +:+ duration
                     +:+ ") {" +:+ nl) g in
      g ← yieldStuckOrNotWarp g;
      let g := emit ("}" +:+ nl) g in
      Ok (emit ("thread.timer = null;" +:+ nl) g)
  | CONTROL_WAIT_UNTIL condition =>
      compiledCondition ← descendInput condition;
      let g := emit ("while (!" +:+ compiledCondition +:+ ") {" +:+ nl) g in
      g ← yieldStuckOrNotWarp g;
      Ok (emit ("}" +:+ nl) g)
  | CONTROL_WHILE condition do_ nodeWarpTimer =>
      compiledCondition ← descendInput condition;
      let g := emit ("while (" +:+ compiledCondition +:+ ") {" +:+ nl) g in
      g ← descendStack descendStackedBlock do_ (mkFrame true false) g;
      g ← (if nodeWarpTimer then yieldStuckOrNotWarp g else yieldLoop g);
      Ok (emit ("}" +:+ nl) g)
  | EVENT_BROADCAST broadcast =>
      compiledBroadcast ← descendInput broadcast;
      Ok (emit ("startHats(" +:+ quoted "event_whenbroadcastreceived"
                +:+ ", { BROADCAST_OPTION: " +:+ compiledBroadcast +:+ " });"
                +:+ nl) g)
  | EVENT_BROADCAST_AND_WAIT broadcast =>
      compiledBroadcast ← descendInput broadcast;
      yielded
        (emit ("yield* waitThreads(startHats("
               +:+ quoted "event_whenbroadcastreceived"
               +:+ ", { BROADCAST_OPTION: " +:+ compiledBroadcast +:+ " }));"
               +:+ nl) g)
  | PROCEDURE_CALL procedureCode' procedureVariant arguments' =>
      match procedures ir !! procedureVariant with
      | None => Throw "TypeError"
      | Some procedureData =>
          match stack procedureData with
          | None => Ok g
          | Some _ =>
              g ← (if negb (isWarp script)
                       && String.eqb procedureCode' (procedureCode script)
                    then yieldNotWarp g else Ok g);
              g ← (if yields procedureData then
                      if yields script then Ok (emit "yield* " g)
                      else Throw ("Script uses yielding procedure but is "
                                  +:+ "not marked as yielding.")
                    else Ok g);
              let g := emit ("thread.procedures["
                             +:+ quoted (sanitize procedureVariant) +:+ "](")
                            g in
              g ← match arguments procedureData with
                   | [] => Ok g
                   | _ =>
                       args ← descendArguments arguments';
                       Ok (emit args g)
                   end;
              Ok (emit (");" +:+ nl) g)
          end
      end
  | VAR_SET variable value =>
      let '(varReference, g) := referenceVariable variable g in
      compiledValue ← descendInput value;
      let g := emit (varReference +:+ ".value = " +:+ compiledValue +:+ ";"
                     +:+ nl) g in
      Ok (if isCloud variable
          then emit ("runtime.ioDevices.cloud.requestUpdateVariable("
                     +:+ quoted (sanitize (name variable)) +:+ ", "
                     +:+ varReference +:+ ".value);" +:+ nl) g
          else g)
  | STACK_OTHER opcode inputs =>
      text ← descendOther opcode inputs;
      Ok (emit text g)
  end
  end.

(** [compile] up to the call of [createScriptFactory]: the generator
    after the script's stack has been descended. *)
Definition compileSource : result Generator :=
  match stack script with
  | Some _ =>
      descendStack descendStackedBlock (stack script) (mkFrame false false)
        create
  | None => Ok create
  end.

(** The text [createScriptFactory] places between the braces of the
    generated function. *)
Definition functionBody : result string :=
  g ← compileSource;
  Ok (source g
      +:+ (if isProcedure script then EmptyString else "retire();" +:+ nl)).

(** The keyword [createScriptFactory] opens the generated function with. *)
Definition functionKeyword : string :=
  if yields script then "function* " else "function ".
End Generator.

(** Whether [needle] occurs in [text]. *)
Fixpoint contains (needle text : string) : bool :=
  if String.prefix needle text then true
  else match text with
       | EmptyString => false
       | String _ rest => contains needle rest
       end.

End JSGenerator.

(* ===================================================================== *)
(** * Plain objects of the host *)
(* ===================================================================== *)

(** The property names of [Object.prototype] (ECMA-262, 20.1.3 and
    B.2.2).  [this.variables] of a TypeState is a plain object: at one of
    these names a lookup that finds no property of the object itself goes
    on to the prototype and returns a function or an object, and an
    assignment to [__proto__] stores no property.  At every other name
    the object is the finite map of its own properties, which is what
    [TypeState] represents. *)
Definition prototypeNames : list string :=
  ["__defineGetter__"; "__defineSetter__"; "__lookupGetter__";
   "__lookupSetter__"; "__proto__"; "constructor"; "hasOwnProperty";
   "isPrototypeOf"; "propertyIsEnumerable"; "toLocaleString"; "toString";
   "valueOf"].

(** The key is not the name of a property of [Object.prototype]. *)
Definition plainKey (key : string) : bool :=
  negb (existsb (String.eqb key) prototypeNames).

(* ===================================================================== *)
(** * The IR optimizer: the rewriter on stacks and the driver *)
(* ===================================================================== *)

Section OptimizeStack.
(** The recursive calls on nested stacks go through the function that
    rewrites one block. *)
Variable optimizeStackBlock :
  IntermediateStackBlock -> TypeState -> IntermediateStackBlock.

(** [if (stackBlock.entryState) state = stackBlock.entryState]. *)
Definition stateInside (stackBlock : IntermediateStackBlock)
    (state : TypeState) : TypeState :=
  match block_entryState stackBlock with
  | Some entryState => entryState
  | None => state
  end.

(** [if (stackBlock.exitState) state = stackBlock.exitState], after the
    assignment above. *)
Definition stateAfter (stackBlock : IntermediateStackBlock)
    (state : TypeState) : TypeState :=
  match block_exitState stackBlock with
  | Some exitState => exitState
  | None => stateInside stackBlock state
  end.

(** The loop of [optimizeStack] over [stack.blocks]; [state] is the
    local variable the loop reassigns. *)
Fixpoint optimizeBlocks (blocks : list IntermediateStackBlock)
    (state : TypeState) : list IntermediateStackBlock :=
  match blocks with
  | [] => []
  | stackBlock :: rest =>
      optimizeStackBlock stackBlock state
      :: optimizeBlocks rest (stateAfter stackBlock state)
  end.

(** [IROptimizer.optimizeStack]. *)
Definition optimizeStack (stack : IntermediateStack) (state : TypeState)
  : IntermediateStack :=
  match stack with
  | None => None
  | Some blocks => Some (optimizeBlocks blocks state)
  end.
End OptimizeStack.

(** The entries of an [inputs] record that are IntermediateInputs, each
    replaced by its optimized form. *)
Definition optimizeInputs (inputs : list (string * IntermediateInput))
    (state : TypeState) : list (string * IntermediateInput) :=
  List.map (fun entry => (fst entry, optimizeInput (snd entry) state)) inputs.

(** What [optimizeStack] does with one block: every entry of
    [stackBlock.inputs] that is an IntermediateInput is rewritten, every
    entry that is an IntermediateStack is rewritten in turn, and every
    other entry is left alone.  The argument array of PROCEDURE_CALL and
    the input records of ADDON_CALL and COMPATIBILITY_LAYER are neither,
    so these blocks stay as they are. *)
Fixpoint optimizeStackBlock (stackBlock : IntermediateStackBlock)
    (state : TypeState) {struct stackBlock} : IntermediateStackBlock :=
  match stackBlock with
  | Block node yields entryState exitState =>
      let state :=
        match entryState with
        | Some entryState => entryState
        | None => state
        end in
      Block
        match node with
        | VAR_SET variable value =>
            VAR_SET variable (optimizeInput value state)
        | CONTROL_WHILE condition do_ warpTimer =>
            CONTROL_WHILE (optimizeInput condition state)
              (optimizeStack optimizeStackBlock do_ state) warpTimer
        | CONTROL_FOR variable count do_ =>
            CONTROL_FOR variable (optimizeInput count state)
              (optimizeStack optimizeStackBlock do_ state)
        | CONTROL_REPEAT times do_ =>
            CONTROL_REPEAT (optimizeInput times state)
              (optimizeStack optimizeStackBlock do_ state)
        | CONTROL_IF_ELSE condition whenTrue whenFalse =>
            CONTROL_IF_ELSE (optimizeInput condition state)
              (optimizeStack optimizeStackBlock whenTrue state)
              (optimizeStack optimizeStackBlock whenFalse state)
        | CONTROL_WAIT seconds => CONTROL_WAIT (optimizeInput seconds state)
        | CONTROL_WAIT_UNTIL condition =>
            CONTROL_WAIT_UNTIL (optimizeInput condition state)
        | EVENT_BROADCAST broadcast =>
            EVENT_BROADCAST (optimizeInput broadcast state)
        | EVENT_BROADCAST_AND_WAIT broadcast =>
            EVENT_BROADCAST_AND_WAIT (optimizeInput broadcast state)
        | STACK_OTHER opcode inputs =>
            STACK_OTHER opcode (optimizeInputs inputs state)
        | PROCEDURE_CALL _ _ _
        | ADDON_CALL _ _ _
        | COMPATIBILITY_LAYER _ _ _
        | CONTROL_STOP_ALL
        | CONTROL_STOP_OTHERS
        | CONTROL_STOP_SCRIPT
        | CONTROL_CLONE_DELETE => node
        end
        yields entryState exitState
  end.

(** A script once [stack] has been analyzed and rewritten in place. *)
Definition withStack (script : JSGenerator.IntermediateScript)
    (stack : IntermediateStack) : JSGenerator.IntermediateScript :=
  JSGenerator.mkScript
    (JSGenerator.topBlockId script) stack
    (JSGenerator.isProcedure script) (JSGenerator.procedureCode script)
    (JSGenerator.arguments script) (JSGenerator.isWarp script)
    (JSGenerator.yields script) (JSGenerator.warpTimer script).

(** The loop of [optimize] over [ir.entry.dependedProcedures].  Each
    procedure is analyzed and then rewritten with the state object the
    analysis has just updated; the same object goes on to the next
    procedure.  A variant that [ir.procedures] lacks is a TypeError.
    [None] means the analysis ran out of fuel. *)
Fixpoint optimizeProcedures (fuel : nat) (dependedProcedures : list string)
    (procedures : gmap string JSGenerator.IntermediateScript)
    (state : TypeState)
  : option (result (gmap string JSGenerator.IntermediateScript
                    * TypeState)) :=
  match dependedProcedures with
  | [] => Some (Ok (procedures, state))
  | procVariant :: rest =>
      match procedures !! procVariant with
      | None => Some (Throw "TypeError")
      | Some procedure =>
          '(_, stack, state) ←
            analyze fuel (JSGenerator.stack procedure) state;
          let stack := optimizeStack optimizeStackBlock stack state in
          optimizeProcedures fuel rest
            (<[procVariant := withStack procedure stack]> procedures) state
      end
  end.

(** [IROptimizer.optimize]; [dependedProcedures] is the list of that name
    of [ir.entry].  The result is the IR as the call leaves it, with the
    final state. *)
Definition optimize (fuel : nat) (ir : JSGenerator.IntermediateRepresentation)
    (dependedProcedures : list string)
  : option (result (JSGenerator.IntermediateRepresentation * TypeState)) :=
  r ← optimizeProcedures fuel dependedProcedures
         (JSGenerator.procedures ir) TypeState.create;
  match r with
  | Throw message => Some (Throw message)
  | Ok (procedures, state) =>
      '(_, stack, state) ←
        analyze fuel (JSGenerator.stack (JSGenerator.entry ir)) state;
      let stack := optimizeStack optimizeStackBlock stack state in
      Some (Ok (JSGenerator.mkIR (withStack (JSGenerator.entry ir) stack)
                                 procedures,
                state))
  end.

(* ===================================================================== *)
(** * intermediate.js: isConstant *)
(* ===================================================================== *)

(** [a === b] on the primitive values a CONSTANT can hold: values of
    different kinds differ, numbers compare as numbers. *)
Definition strictEquals (a b : JS.value) : bool :=
  match a, b with
  | JS.VNumber x, JS.VNumber y => JS.strict_eq x y
  | JS.VString x, JS.VString y => String.eqb x y
  | JS.VBoolean x, JS.VBoolean y => Bool.eqb x y
  | _, _ => false
  end.

Section IsConstant.
Variable StringToNumber : string -> JS.number.

(** [IntermediateInput.isConstant]. *)
Definition isConstant (this : IntermediateInput) (value : JS.value) : bool :=
  match this with
  | CONSTANT _ own =>
      let equal := strictEquals own value in
      match value with
      | JS.VNumber number =>
          if negb equal
          then JS.strict_eq (JS.ToNumber StringToNumber own) number
          else equal
      | _ => equal
      end
  | _ => false
  end.
End IsConstant.

(* ===================================================================== *)
(** * jsgen.js: the CONSTANT case of descendInput *)
(* ===================================================================== *)

(** [typeof] of a primitive value. *)
Definition typeOf (value : JS.value) : string :=
  match value with
  | JS.VNumber _ => "number"
  | JS.VString _ => "string"
  | JS.VBoolean _ => "boolean"
  end.

Section DescendConstant.
Variable NumberToString : JS.number -> string.
Variable sanitize : string -> string.

(** The message of the two errors about a literal of the wrong kind;
    the type is printed in decimal. *)
Definition wrongKind (type : Z) (value : JS.value) (expected : string)
  : string :=
  "JS: '" +:+ Host.decimal type +:+ "' type constant had " +:+ typeOf value
  +:+ " type value. Expected " +:+ expected +:+ ".".

(** What [descendInput] returns for [block = {CONSTANT, type, {value}}]. *)
Definition descendConstant (type : Z) (value : JS.value) : result string :=
  let block := CONSTANT type value in
  if isAlwaysType block InputType.NUMBER then
    match value with
    | JS.VNumber number =>
        if JS.is_negzero number then Ok "-0"
        else Ok (NumberToString number)
    | _ => Throw (wrongKind type value "number")
    end
  else if isAlwaysType block InputType.BOOLEAN then
    match value with
    | JS.VBoolean b => Ok (JSGenerator.boolText b)
    | _ => Throw (wrongKind type value "boolean")
    end
  else if isSometimesType block InputType.STRING then
    Ok (JSGenerator.quoted (sanitize (JS.ToString NumberToString value)))
  else
    Throw ("JS: Unknown constant input type '" +:+ Host.decimal type
           +:+ "'.").
End DescendConstant.

(* ===================================================================== *)
(** * jsgen.js: script names *)
(* ===================================================================== *)

(** Strings are sequences of code units.  The functions of this part
    only compare code units with ASCII characters, so what they do to an
    8-bit character is what the source does to any code unit. *)

Definition charCode (c : ascii) : Z := Z.of_nat (nat_of_ascii c).

(** [[a-zA-Z0-9]]. *)
Definition isAlphanumeric (c : ascii) : bool :=
  let n := charCode c in
  ((97 <=? n) && (n <=? 122)) || ((65 <=? n) && (n <=? 90))
  || ((48 <=? n) && (n <=? 57)).

(** [\w]: [[A-Za-z0-9_]]. *)
Definition isWord (c : ascii) : bool :=
  isAlphanumeric c || Ascii.eqb c "_".

(** [s.replace(/%[\w]/g, '')]: scanning from the left, every percent sign
    that a word character follows is dropped together with it. *)
Fixpoint removeArguments (s : string) : string :=
  match s with
  | EmptyString => EmptyString
  | String c rest =>
      match rest with
      | String d after =>
          if Ascii.eqb c "%" && isWord d then removeArguments after
          else String c (removeArguments rest)
      | EmptyString => String c EmptyString
      end
  end.

(** [s.replace(/[^a-zA-Z0-9]/g, '_')]. *)
Fixpoint replaceUnsafe (s : string) : string :=
  match s with
  | EmptyString => EmptyString
  | String c rest =>
      String (if isAlphanumeric c then c else "_"%char) (replaceUnsafe rest)
  end.

(** The local [simplifiedProcedureCode] of [getScriptName]. *)
Definition simplifiedProcedureCode (procedureCode : string) : string :=
  substring 0 20 (replaceUnsafe (removeArguments procedureCode)).

(** The three module-level pools, each represented by its count. *)
Record NamePools := mkNamePools {
  factoryNameVariablePool : Z;
  functionNameVariablePool : Z;
  generatorNameVariablePool : Z
}.

(** [getScriptFactoryName]. *)
Definition getScriptFactoryName (pools : NamePools) : string * NamePools :=
  (JSGenerator.poolName "factory" (factoryNameVariablePool pools),
   mkNamePools (factoryNameVariablePool pools + 1)
               (functionNameVariablePool pools)
               (generatorNameVariablePool pools)).

(** [getScriptName]. *)
Definition getScriptName (script : JSGenerator.IntermediateScript)
    (yields : bool) (pools : NamePools) : string * NamePools :=
  let '(name, pools) :=
    if yields then
      (JSGenerator.poolName "gen" (generatorNameVariablePool pools),
       mkNamePools (factoryNameVariablePool pools)
                   (functionNameVariablePool pools)
                   (generatorNameVariablePool pools + 1))
    else
      (JSGenerator.poolName "fun" (functionNameVariablePool pools),
       mkNamePools (factoryNameVariablePool pools)
                   (functionNameVariablePool pools + 1)
                   (generatorNameVariablePool pools)) in
  (if JSGenerator.isProcedure script
   then name +:+ "_"
        +:+ simplifiedProcedureCode (JSGenerator.procedureCode script)
   else name,
   pools).

(* ===================================================================== *)
(** * The older generator: compiled inputs *)
(* ===================================================================== *)

(** The older revision of the generator returns, for every input node, an
    object of one of three classes that share the interface [Input].
    [asColor] is left out. *)
Module OlderGenerator.

(** [ValueType] of the older [enums.js]. *)
Module ValueType.
Definition NUMBER : Z := 1.
Definition STRING : Z := 2.
Definition BOOLEAN : Z := 3.
Definition UNKNOWN : Z := 4.
Definition NUMBER_OR_NAN : Z := 5.
End ValueType.

(** The three classes.  [_value] of a VariableInput is null or the
    Input the variable was most recently set to. *)
Inductive Input :=
| TypedInput (source : string) (type : Z)
| ConstantInput (constantValue : JS.value) (safe : bool)
| VariableInput (source : string) (type : Z) (_value : option Input).

Section Methods.
Variable StringToNumber : string -> JS.number.
Variable NumberToString : JS.number -> string.
(** [String.prototype.trim] and [sanitize]. *)
Variable trim : string -> string.
Variable sanitize : string -> string.

(** [asNumber] of TypedInput and of VariableInput. *)
Definition typedAsNumber (source : string) (type : Z) : string :=
  if type =? ValueType.NUMBER then source
  else if type =? ValueType.NUMBER_OR_NAN then "(" +:+ source +:+ " || 0)"
  else "(+" +:+ source +:+ " || 0)".

Definition typedAsNumberOrNaN (source : string) (type : Z) : string :=
  if (type =? ValueType.NUMBER) || (type =? ValueType.NUMBER_OR_NAN)
  then source
  else "(+" +:+ source +:+ ")".

Definition typedAsString (source : string) (type : Z) : string :=
  if type =? ValueType.STRING then source
  else "(" +:+ JSGenerator.quoted EmptyString +:+ " + " +:+ source +:+ ")".

Definition typedAsBoolean (source : string) (type : Z) : string :=
  if type =? ValueType.BOOLEAN then source
  else "toBoolean(" +:+ source +:+ ")".

(** [ConstantInput.asNumber]. *)
Definition constantAsNumber (constantValue : JS.value) : string :=
  let numberValue := JS.ToNumber StringToNumber constantValue in
  if JS.truthy numberValue then NumberToString numberValue
  else if JS.is_negzero numberValue then "-0"
  else "0".

(** [ConstantInput.asString]. *)
Definition constantAsString (constantValue : JS.value) : string :=
  JSGenerator.quoted (sanitize (JS.ToString NumberToString constantValue)).

(** [ConstantInput.asUnknown].  A number literal is returned as it is and
    becomes text when the caller places it in a template. *)
Definition constantAsUnknown (constantValue : JS.value) : string :=
  match constantValue with
  | JS.VNumber number => NumberToString number
  | JS.VString s =>
      if String.eqb (NumberToString (StringToNumber s)) s then s
      else constantAsString constantValue
  | JS.VBoolean _ => constantAsString constantValue
  end.

Definition asNumber (input : Input) : string :=
  match input with
  | TypedInput source type | VariableInput source type _ =>
      typedAsNumber source type
  | ConstantInput constantValue _ => constantAsNumber constantValue
  end.

Definition asNumberOrNaN (input : Input) : string :=
  match input with
  | TypedInput source type | VariableInput source type _ =>
      typedAsNumberOrNaN source type
  | ConstantInput constantValue _ => constantAsNumber constantValue
  end.

Definition asString (input : Input) : string :=
  match input with
  | TypedInput source type | VariableInput source type _ =>
      typedAsString source type
  | ConstantInput constantValue _ => constantAsString constantValue
  end.

Definition asBoolean (input : Input) : string :=
  match input with
  | TypedInput source type | VariableInput source type _ =>
      typedAsBoolean source type
  | ConstantInput constantValue _ =>
      JSGenerator.boolText (Cast_toBoolean constantValue)
  end.

Definition asUnknown (input : Input) : string :=
  match input with
  | TypedInput source _ | VariableInput source _ _ => source
  | ConstantInput constantValue _ => constantAsUnknown constantValue
  end.

Definition asSafe (input : Input) : string :=
  match input with
  | ConstantInput constantValue safe =>
      if safe then constantAsUnknown constantValue
      else constantAsString constantValue
  | _ => asUnknown input
  end.

(** [isAlwaysNumber]; a VariableInput asks the input it was set to. *)
Fixpoint isAlwaysNumber (input : Input) : bool :=
  match input with
  | TypedInput _ type => type =? ValueType.NUMBER
  | ConstantInput constantValue _ =>
      let value := JS.ToNumber StringToNumber constantValue in
      if JS.isNaN value then false
      else if JS.strict_eq value JS.zero then
        negb (String.eqb (trim (JS.ToString NumberToString constantValue))
                         EmptyString)
      else true
  | VariableInput _ _ (Some value) => isAlwaysNumber value
  | VariableInput _ _ None => false
  end.

Fixpoint isAlwaysNumberOrNaN (input : Input) : bool :=
  match input with
  | TypedInput _ type =>
      (type =? ValueType.NUMBER) || (type =? ValueType.NUMBER_OR_NAN)
  | ConstantInput _ _ => isAlwaysNumber input
  | VariableInput _ _ (Some value) => isAlwaysNumberOrNaN value
  | VariableInput _ _ None => false
  end.

Fixpoint isNeverNumber (input : Input) : bool :=
  match input with
  | TypedInput _ _ => false
  | ConstantInput constantValue _ =>
      JS.isNaN (JS.ToNumber StringToNumber constantValue)
  | VariableInput _ _ (Some value) => isNeverNumber value
  | VariableInput _ _ None => false
  end.
End Methods.

(** [VariableInput.setInput]: the variable whose source is [source] once
    it has been set to [input]. *)
Definition setInput (source : string) (input : Input) : Input :=
  let resolved :=
    match input with
    | VariableInput _ _ value => value
    | _ => Some input
    end in
  match resolved with
  | None => VariableInput source ValueType.UNKNOWN None
  | Some input =>
      VariableInput source
        match input with
        | TypedInput _ type => type
        | _ => ValueType.UNKNOWN
        end
        (Some input)
  end.

(** What [getNamesOfCostumesAndSounds] reads of a target. *)
Record NamedAssets := mkNamedAssets {
  isOriginal : bool;
  costumes : list string;
  sounds : list string
}.

(** [result.add(name)] on a Set kept in insertion order. *)
Definition addName (name : string) (result : list string) : list string :=
  if existsb (String.eqb name) result then result else result ++ [name].

(** [getNamesOfCostumesAndSounds] over [runtime.targets]. *)
Definition getNamesOfCostumesAndSounds (targets : list NamedAssets)
  : list string :=
  fold_left
    (fun result target =>
       if isOriginal target then
         fold_left (fun result name => addName name result) (sounds target)
           (fold_left (fun result name => addName name result)
              (costumes target) result)
       else result)
    targets [].

(** [safeConstantInput]; [namesOfCostumesAndSounds] is the set the
    generator computed when it was created. *)
Definition safeConstantInput (namesOfCostumesAndSounds : list string)
    (value : JS.value) : Input :=
  let unsafe :=
    match value with
    | JS.VString s => existsb (String.eqb s) namesOfCostumesAndSounds
    | _ => false
    end in
  ConstantInput value (negb unsafe).

End OlderGenerator.

(* ===================================================================== *)
(** * extensions/tw_lazy: folders of sprites *)
(* ===================================================================== *)

Module LazySpriteLoading.

Definition DIVIDER : string := "//".

(** [haystack.indexOf(needle)], counted from [position]: the index of
    the first occurrence, or -1. *)
Fixpoint indexOfFrom (needle haystack : string) (position : Z) : Z :=
  if String.prefix needle haystack then position
  else match haystack with
       | EmptyString => -1
       | String _ rest => indexOfFrom needle rest (position + 1)
       end.

Definition indexOf (needle haystack : string) : Z :=
  indexOfFrom needle haystack 0.

(** [getFolderFromName]; [None] is null. *)
Definition getFolderFromName (name : string) : option string :=
  let idx := indexOf DIVIDER name in
  if (idx =? -1) || (idx =? 0) then None
  else Some (substring 0 (Z.to_nat idx) name).

(** [startsWithFolder]. *)
Definition startsWithFolder (objectName folderName : string) : bool :=
  String.prefix (folderName +:+ DIVIDER) objectName.

(** What the extension reads of a target. *)
Record Target := mkTarget {
  isOriginal : bool;
  getName : string;
  lazyLoading : bool;
  isStage : bool
}.

(** A menu item [{text, value}]. *)
Record MenuItem := mkMenuItem {
  text : string;
  value : string
}.

(** [getSpriteOptions] over [runtime.targets]. *)
Fixpoint getSpriteOptions (targets : list Target) : list MenuItem :=
  match targets with
  | [] => []
  | target :: rest =>
      if negb (isOriginal target) then getSpriteOptions rest
      else
        let name := getName target in
        if lazyLoading target then
          mkMenuItem name name :: getSpriteOptions rest
        else if negb (isStage target) then
          mkMenuItem (name +:+ " (already loaded)") name
          :: getSpriteOptions rest
        else getSpriteOptions rest
  end.

(** [folderNames.add(folder)] on a Set kept in insertion order. *)
Definition add (folder : string) (folderNames : list string) : list string :=
  if existsb (String.eqb folder) folderNames then folderNames
  else folderNames ++ [folder].

(** [if (folder) folderNames.add(folder)]: null and the empty string are
    skipped. *)
Definition addFolder (name : string) (folderNames : list string)
  : list string :=
  match getFolderFromName name with
  | Some folder =>
      if String.eqb folder EmptyString then folderNames
      else add folder folderNames
  | None => folderNames
  end.

(** The loop of [getFolderOptions]. *)
Fixpoint collectFolders (targets : list Target) (folderNames : list string)
  : list string :=
  match targets with
  | [] => folderNames
  | target :: rest =>
      if negb (isOriginal target) then collectFolders rest folderNames
      else
        let name := getName target in
        if lazyLoading target then
          collectFolders rest (addFolder name folderNames)
        else if negb (isStage target) then
          collectFolders rest (addFolder name folderNames)
        else collectFolders rest folderNames
  end.

(** [getFolderOptions]. *)
Definition getFolderOptions (targets : list Target) : list MenuItem :=
  match collectFolders targets [] with
  | [] => [mkMenuItem "Project contains no folders" EmptyString]
  | folderNames => List.map (fun i => mkMenuItem i i) folderNames
  end.

(** The names [loadFolder] collects in [namesToLoad] before it loads
    each of them. *)
Fixpoint namesToLoad (targets : list Target) (folder : string)
  : list string :=
  match targets with
  | [] => []
  | target :: rest =>
      if negb (isOriginal target) then namesToLoad rest folder
      else
        let name := getName target in
        if startsWithFolder name folder then name :: namesToLoad rest folder
        else namesToLoad rest folder
  end.

End LazySpriteLoading.

(* ===================================================================== *)
(** * jsgen.js: sanitize *)
(* ===================================================================== *)

(** [JSON.stringify] on a string, after QuoteJSONString of ECMA-262, for
    strings of 8-bit code units: the seven characters with a short
    escape, the other control characters as a four-digit escape, every
    other code unit as it is. *)
Module JSON.

Definition backslash : ascii := ascii_of_nat 92.
Definition quote : ascii := ascii_of_nat 34.

(** A lower-case hexadecimal digit. *)
Definition hexDigit (n : Z) : ascii :=
  ascii_of_nat (Z.to_nat (if n <? 10 then 48 + n else 87 + n)).

Definition escape (c : ascii) : string :=
  String backslash (String c EmptyString).

Definition quoteUnit (c : ascii) : string :=
  let n := charCode c in
  if n =? 8 then escape "b"
  else if n =? 9 then escape "t"
  else if n =? 10 then escape "n"
  else if n =? 12 then escape "f"
  else if n =? 13 then escape "r"
  else if n =? 34 then escape quote
  else if n =? 92 then escape backslash
  else if n <? 32 then
    String backslash
      (String "u"
         (String "0"
            (String "0"
               (String (hexDigit (n / 16))
                  (String (hexDigit (n mod 16)) EmptyString)))))
  else String c EmptyString.

Fixpoint quoteUnits (s : string) : string :=
  match s with
  | EmptyString => EmptyString
  | String c rest => quoteUnit c +:+ quoteUnits rest
  end.

Definition stringify (s : string) : string :=
  String quote (quoteUnits s +:+ String quote EmptyString).

End JSON.

Section Sanitize.
Variable NumberToString : JS.number -> string.

(** [sanitize]: a value that is not a string is first turned into one;
    [slice(1, -1)] drops the first and the last code unit. *)
Definition sanitize (value : JS.value) : string :=
  let text := JS.ToString NumberToString value in
  let json := JSON.stringify text in
  substring 1 (String.length json - 2) json.
End Sanitize.

(* ===================================================================== *)
(** * The specification's reading of two functions *)
(* ===================================================================== *)

(** Literal inference as section 4.1 of the specification words it
    ([number_type]); compared below with [getNumberInputType]. *)
Definition number_type_spec (n : JS.number) : Z :=
  match n with
  | S754_nan => InputType.NUMBER_NAN
  | S754_infinity false => InputType.NUMBER_POS_INF
  | S754_infinity true => InputType.NUMBER_NEG_INF
  | S754_zero false => InputType.NUMBER_ZERO
  | S754_zero true => InputType.NUMBER_NEG_ZERO
  | S754_finite false _ _ =>
      if JS.isInteger n then InputType.NUMBER_POS_INT
      else InputType.NUMBER_POS_FRACT
  | S754_finite true _ _ =>
      if JS.isInteger n then InputType.NUMBER_NEG_INT
      else InputType.NUMBER_NEG_FRACT
  end.

(** The safe-constant criterion as sections 4.6 and 9 of the
    specification word it: non-zero, and the stringified numeric value
    equals the original literal. *)
Definition safeConstant_spec (StringToNumber : string -> JS.number)
    (NumberToString : JS.number -> string) (value : JS.value) : bool :=
  let numberValue := JS.ToNumber StringToNumber value in
  JS.nonzero numberValue
  && String.eqb (NumberToString numberValue)
                (JS.ToString NumberToString value).

(** The subset test of the lattice: [x & T == x]. *)
Definition subsetOf (x T : Z) : bool := Z.land x T =? x.

(* ===================================================================== *)
(** * Lattice elements, well-typed IR and the termination measure *)
(* ===================================================================== *)

(** A lattice element is a subset of ANY, the union of every bit. *)
Definition isLattice (type : Z) : bool := subsetOf type InputType.ANY.

(** Every [type] field of an input tree is a lattice element. *)
Fixpoint input_wf (input : IntermediateInput) : bool :=
  isLattice (input_type input)
  && match input with
     | CAST _ _ target => input_wf target
     | ARITH _ _ lhs rhs => input_wf lhs && input_wf rhs
     | OTHER _ _ inputs =>
         (fix all (inputs : list (string * IntermediateInput)) : bool :=
            match inputs with
            | [] => true
            | (_, input) :: rest => input_wf input && all rest
            end) inputs
     | _ => true
     end.

Definition allBlocks (P : IntermediateStackBlock -> bool)
    (stack : IntermediateStack) : bool :=
  match stack with
  | None => true
  | Some blocks => forallb P blocks
  end.

(** The expressions the analyzer evaluates, which are the values of the
    VAR_SET blocks at any depth, are well typed. *)
Fixpoint block_wf (block : IntermediateStackBlock) : bool :=
  match block with
  | Block node _ _ _ =>
      match node with
      | VAR_SET _ value => input_wf value
      | CONTROL_WHILE _ do_ _
      | CONTROL_FOR _ _ do_
      | CONTROL_REPEAT _ do_ => allBlocks block_wf do_
      | CONTROL_IF_ELSE _ whenTrue whenFalse =>
          allBlocks block_wf whenTrue && allBlocks block_wf whenFalse
      | _ => true
      end
  end.

Definition stack_wf (stack : IntermediateStack) : bool :=
  allBlocks block_wf stack.

Definition sumBlocks (size : IntermediateStackBlock -> nat)
    (stack : IntermediateStack) : nat :=
  match stack with
  | None => O
  | Some blocks => list_sum (List.map size blocks)
  end.

(** The number of blocks of a block, nested ones included. *)
Fixpoint block_size (block : IntermediateStackBlock) : nat :=
  match block with
  | Block node _ _ _ =>
      S match node with
        | CONTROL_WHILE _ do_ _
        | CONTROL_FOR _ _ do_
        | CONTROL_REPEAT _ do_ => sumBlocks block_size do_
        | CONTROL_IF_ELSE _ whenTrue whenFalse =>
            (sumBlocks block_size whenTrue
             + sumBlocks block_size whenFalse)%nat
        | _ => O
        end
  end.

Definition stack_size (stack : IntermediateStack) : nat :=
  sumBlocks block_size stack.

(** Every entry of a state is a lattice element. *)
Definition state_wf (state : TypeState) : Prop :=
  forall k v, state !! k = Some v -> isLattice v = true.

(** The sum over the entries of a state of [ANY - type], which weighs the
    bits an entry still lacks; [or] can only lower it. *)
Definition deficit (state : TypeState) : Z :=
  map_fold (fun _ type acc => acc + (InputType.ANY - type)) 0 state.

(** [s'] extends [s]: old entries only grow, new entries are ANY. *)
Definition grows (s s' : TypeState) : Prop :=
  (forall k a, s !! k = Some a ->
               exists a', s' !! k = Some a' /\ a <= a' <= InputType.ANY)
  /\ (forall k, s !! k = None ->
                s' !! k = None \/ s' !! k = Some InputType.ANY).

(** What the analysis of a block leaves untouched. *)
Definition sameShape (b b' : IntermediateStackBlock) : Prop :=
  block_size b' = block_size b
  /\ block_wf b' = block_wf b
  /\ block_yields b' = block_yields b.

Definition sameShapeStack (stack stack' : IntermediateStack) : Prop :=
  stack_size stack' = stack_size stack /\ stack_wf stack' = stack_wf stack.

(** [f'] answers whenever [f] does, with the same answer. *)
Definition extends
    (f f' : IntermediateStackBlock -> TypeState ->
            option (bool * IntermediateStackBlock * TypeState)) : Prop :=
  forall b s r, f b s = Some r -> f' b s = Some r.

(** Whether a node is one of the three loops. *)
Definition isLoopNode (node : StackNode) : bool :=
  match node with
  | CONTROL_WHILE _ _ _ | CONTROL_FOR _ _ _ | CONTROL_REPEAT _ _ => true
  | _ => false
  end.

(** What the analysis of a yielding loop amounts to: one analysis of the
    body [do_] from the cleared state, which is also recorded as the
    entry and exit state of the loop block. *)
Definition yieldingLoopAnalysis (fuel : nat) (node : StackNode)
    (do_ : IntermediateStack) (state : TypeState)
  : option (bool * IntermediateStackBlock * TypeState) :=
  match analyzeStack (analyzeStackBlock fuel) do_ ∅ with
  | Some (bodyModified, body, after) =>
      Some (bodyModified || fst (TypeState.clear state),
            Block (withDo node body) true (Some ∅) (Some ∅),
            after)
  | None => None
  end.

(* ===================================================================== *)
(** * Example programs *)
(* ===================================================================== *)

Module Examples.

Definition numberConstant (z : Z) : IntermediateInput :=
  CONSTANT (getNumberInputType (JS.of_Z z)) (JS.VNumber (JS.of_Z z)).

Definition stringConstant (type : Z) (s : string) : IntermediateInput :=
  CONSTANT type (JS.VString s).

Definition var (n : string) : VariableRef := mkVariable n n "target" false.

Definition plain (node : StackNode) : IntermediateStackBlock :=
  Block node false None None.

(** [1 / 0], the value of scenario S4. *)
Definition oneOverZero : IntermediateInput :=
  ARITH OP_DIVIDE InputType.NUMBER_OR_NAN (numberConstant 1) (numberConstant 0).

(** [if c then x := "hello" else y := 1], entered with x known positive. *)
Definition branchBlock : IntermediateStackBlock :=
  plain (CONTROL_IF_ELSE (VAR_GET InputType.ANY (var "c"))
           (Some [plain (VAR_SET (var "x")
                           (stringConstant InputType.STRING "hello"))])
           (Some [plain (VAR_SET (var "y") (numberConstant 1))])).

Definition branchEntry : TypeState := {[ "x" := InputType.NUMBER_POS ]}.

(** The exit states of the two branches of [branchBlock] from
    [branchEntry], and their join. *)
Definition branchTrueExit : TypeState := {[ "x" := InputType.STRING ]}.
Definition branchFalseExit : TypeState :=
  <[ "y" := InputType.NUMBER_POS ]> branchEntry.
Definition branchJoin : TypeState :=
  snd (TypeState.or branchFalseExit branchTrueExit).

(** A statement that leaves the variables alone. *)
Definition showBlock : IntermediateStackBlock :=
  plain (STACK_OTHER "looks.show" []).

(** [x := 1]. *)
Definition setBlock : IntermediateStackBlock :=
  plain (VAR_SET (var "x") (numberConstant 1)).

(** [while c { y := y + 1 }], scenario S3. *)
Definition countBlock : IntermediateStackBlock :=
  plain (CONTROL_WHILE (VAR_GET InputType.ANY (var "c"))
           (Some [plain (VAR_SET (var "y")
                    (ARITH OP_ADD InputType.NUMBER
                       (CAST CAST_NUMBER InputType.NUMBER
                          (VAR_GET InputType.ANY (var "y")))
                       (numberConstant 1)))])
           false).

Definition countEntry : TypeState := {[ "y" := InputType.STRING ]}.

(** A type with one bit that is not part of ANY, and a loop whose body
    is a yielding assignment of a constant of that type. *)
Definition outsideType : Z := Z.lor InputType.ANY 0x1000.

Definition oscillatingBody (exitState : option (gmap string Z))
  : IntermediateStack :=
  Some [Block (VAR_SET (var "x") (stringConstant outsideType "a"))
              true None exitState].

Definition oscillatingBlock : IntermediateStackBlock :=
  plain (CONTROL_WHILE (VAR_GET InputType.ANY (var "c"))
           (oscillatingBody None) false).

(** A procedure that stops everything, flagged as not yielding. *)
Definition stopProcedure : JSGenerator.IntermediateScript :=
  JSGenerator.mkScript "top" (Some [plain CONTROL_STOP_ALL])
    true "stop" [] false false false.

(** A script that calls an addon block, flagged as not yielding. *)
Definition addonScript : JSGenerator.IntermediateScript :=
  JSGenerator.mkScript "top" (Some [plain (ADDON_CALL "log" "blk" [])])
    false EmptyString [] false false false.

(** A script that waits for a condition, flagged as not yielding. *)
Definition waitScript : JSGenerator.IntermediateScript :=
  JSGenerator.mkScript "top"
    (Some [plain (CONTROL_WAIT_UNTIL (VAR_GET InputType.ANY (var "c")))])
    false EmptyString [] false false false.

(** A choice for the table entry NUMBER_INTERPRETABLE. *)
Definition NUMBER_INTERPRETABLE : Z :=
  Z.lor InputType.NUMBER (Z.lor InputType.STRING_NUM InputType.BOOLEAN).

End Examples.

(* ===================================================================== *)
(** * Definitions for the further properties *)
(* ===================================================================== *)

(** A block without its annotations, nested blocks included: what is
    left is the program the block stands for. *)
Fixpoint eraseBlock (block : IntermediateStackBlock)
  : IntermediateStackBlock :=
  match block with
  | Block node yields _ _ =>
      let eraseStack (stack : IntermediateStack) : IntermediateStack :=
        match stack with
        | None => None
        | Some blocks => Some (List.map eraseBlock blocks)
        end in
      Block match node with
            | CONTROL_WHILE condition do_ warpTimer =>
                CONTROL_WHILE condition (eraseStack do_) warpTimer
            | CONTROL_FOR variable count do_ =>
                CONTROL_FOR variable count (eraseStack do_)
            | CONTROL_REPEAT times do_ =>
                CONTROL_REPEAT times (eraseStack do_)
            | CONTROL_IF_ELSE condition whenTrue whenFalse =>
                CONTROL_IF_ELSE condition (eraseStack whenTrue)
                                (eraseStack whenFalse)
            | _ => node
            end
            yields None None
  end.

Definition eraseStack (stack : IntermediateStack) : IntermediateStack :=
  match stack with
  | None => None
  | Some blocks => Some (List.map eraseBlock blocks)
  end.

(** An input without its type fields and without its number casts: what
    the rewriter has to keep. *)
Fixpoint stripNumberCasts (input : IntermediateInput) : IntermediateInput :=
  match input with
  | CONSTANT _ value => CONSTANT 0 value
  | VAR_GET _ variable => VAR_GET 0 variable
  | CAST CAST_NUMBER _ target
  | CAST CAST_NUMBER_OR_NAN _ target => stripNumberCasts target
  | CAST opcode _ target => CAST opcode 0 (stripNumberCasts target)
  | ARITH opcode _ lhs rhs =>
      ARITH opcode 0 (stripNumberCasts lhs) (stripNumberCasts rhs)
  | OTHER opcode _ inputs =>
      OTHER opcode 0
        ((fix stripAll (inputs : list (string * IntermediateInput)) :=
            match inputs with
            | [] => []
            | (inputKey, inputInput) :: rest =>
                (inputKey, stripNumberCasts inputInput) :: stripAll rest
            end) inputs)
  end.

(** The number of nodes of an input. *)
Fixpoint inputSize (input : IntermediateInput) : nat :=
  match input with
  | CONSTANT _ _ | VAR_GET _ _ => 1
  | CAST _ _ target => S (inputSize target)
  | ARITH _ _ lhs rhs => S (inputSize lhs + inputSize rhs)
  | OTHER _ _ inputs =>
      S ((fix sizeAll (inputs : list (string * IntermediateInput)) : nat :=
            match inputs with
            | [] => O
            | (_, inputInput) :: rest =>
                (inputSize inputInput + sizeAll rest)%nat
            end) inputs)
  end.

(** Every key of the state is a plain key: none of its variables is
    named like a property of [Object.prototype]. *)
Definition plainKeys (state : TypeState) : Prop :=
  forall key type, state !! key = Some type -> plainKey key = true.


Module MoreExamples.
Import Examples.




(** The script [x := number(y); y := 1], with no annotations yet. *)
Definition castThenSet : IntermediateStack :=
  Some [plain (VAR_SET (var "x")
                 (CAST CAST_NUMBER InputType.NUMBER
                    (VAR_GET InputType.ANY (var "y"))));
        plain (VAR_SET (var "y") (numberConstant 1))].

Definition castThenSetScript : JSGenerator.IntermediateScript :=
  JSGenerator.mkScript "top" castThenSet false EmptyString [] false true
    false.

Definition castThenSetIR : JSGenerator.IntermediateRepresentation :=
  JSGenerator.mkIR castThenSetScript ∅.

(** A script that may yield and does not run in warp mode. *)
Definition yieldingScript : JSGenerator.IntermediateScript :=
  JSGenerator.mkScript "top" None false EmptyString [] false true false.

(** [repeat 3 { if c { x := 1 } else {}; <compatibility block> }]: two
    levels of nested stacks, an empty stack, and a compatibility-layer
    call that is the last block of a loop. *)
Definition nestedBlock : IntermediateStackBlock :=
  plain (CONTROL_REPEAT (numberConstant 3)
           (Some [plain (CONTROL_IF_ELSE (VAR_GET InputType.ANY (var "c"))
                           (Some [setBlock]) (Some []));
                  plain (COMPATIBILITY_LAYER "motion_movesteps" [] [])])).

(** A generator in the middle of a stack: one frame is open and some
    text has been generated. *)
Definition busy : JSGenerator.Generator :=
  JSGenerator.pushFrame (JSGenerator.mkFrame false false)
    (JSGenerator.emit "runtime.stopAll();" JSGenerator.create).

End MoreExamples.

(** The source has only received text at its end. *)
Definition grownFrom (g g' : JSGenerator.Generator) : Prop :=
  exists text, JSGenerator.source g' = JSGenerator.source g +:+ text.

(** A step of the generator: the frames are as they were and the source
    has only grown. *)
Definition steady (g g' : JSGenerator.Generator) : Prop :=
  JSGenerator.frames g' = JSGenerator.frames g /\ grownFrom g g'.

(** The invariant of the older generator's variables: the input a
    VariableInput was set to is never itself a VariableInput. *)
Definition flat (input : OlderGenerator.Input) : bool :=
  match input with
  | OlderGenerator.VariableInput _ _
      (Some (OlderGenerator.VariableInput _ _ _)) => false
  | _ => true
  end.

(** The value of a hexadecimal digit. *)
Definition hexValue (c : ascii) : option Z :=
  let n := charCode c in
  if (48 <=? n) && (n <=? 57) then Some (n - 48)
  else if (97 <=? n) && (n <=? 102) then Some (n - 87)
  else if (65 <=? n) && (n <=? 70) then Some (n - 55)
  else None.

(** The string that the characters between the quotes of a
    double-quoted string literal of the host denote, for the escapes of
    [JSON.quoteUnit]; [None] when the text is not the inside of a
    literal: a bare quote, a bare line terminator, a dangling backslash
    or another escape. *)
Fixpoint unescape (s : string) : option string :=
  match s with
  | EmptyString => Some EmptyString
  | String c rest =>
      if Ascii.eqb c JSON.backslash then
        match rest with
        | String e after =>
            let single (n : nat) :=
              option_map (String (ascii_of_nat n)) (unescape after) in
            if Ascii.eqb e "b" then single 8%nat
            else if Ascii.eqb e "t" then single 9%nat
            else if Ascii.eqb e "n" then single 10%nat
            else if Ascii.eqb e "f" then single 12%nat
            else if Ascii.eqb e "r" then single 13%nat
            else if Ascii.eqb e JSON.quote then single 34%nat
            else if Ascii.eqb e JSON.backslash then single 92%nat
            else if Ascii.eqb e "u" then
              match after with
              | String h1 (String h2 (String h3 (String h4 more))) =>
                  match hexValue h1, hexValue h2, hexValue h3, hexValue h4
                  with
                  | Some 0, Some 0, Some d3, Some d4 =>
                      option_map
                        (String (ascii_of_nat (Z.to_nat (16 * d3 + d4))))
                        (unescape more)
                  | _, _, _, _ => None
                  end
              | _ => None
              end
            else None
        | EmptyString => None
        end
      else if Ascii.eqb c JSON.quote then None
      else if (charCode c =? 10) || (charCode c =? 13) then None
      else option_map (String c) (unescape rest)
  end.

(* ===================================================================== *)
(** * Properties of intermediate.js *)
(* ===================================================================== *)

Section IntermediateInputProperties.
Variable StringToNumber : string -> JS.number.
Variable NumberToString : JS.number -> string.

Lemma isAlwaysType_empty (this : IntermediateInput) (T : Z) :
  input_type this = 0 -> isAlwaysType this T = true.
Proof.
  intros H. unfold isAlwaysType. rewrite H, Z.land_0_l. reflexivity.
Qed.

Lemma isSometimesType_empty (this : IntermediateInput) (T : Z) :
  input_type this = 0 -> isSometimesType this T = false.
Proof.
  intros H. unfold isSometimesType. rewrite H, Z.land_0_l. reflexivity.
Qed.

Lemma toType_always (this : IntermediateInput) (T : Z) :
  castOpcodeFor T <> None ->
  isAlwaysType this T = true ->
  toType StringToNumber NumberToString this T = Ok this.
Proof.
  intros Hsupported Halways. unfold toType.
  destruct (castOpcodeFor T); [| congruence].
  rewrite Halways. reflexivity.
Qed.

(** The literal a constant holds after a compile-time numeric cast. *)
Lemma castConstant_number (castOpcode : CastOpcode) (value : JS.value) :
  castOpcode = CAST_NUMBER \/ castOpcode = CAST_NUMBER_OR_NAN ->
  castConstant StringToNumber NumberToString castOpcode value
  = CONSTANT InputType.NUMBER
      (JS.VNumber
         (if JS.isNaN (JS.ToNumber StringToNumber value) then JS.zero
          else JS.ToNumber StringToNumber value)).
Proof.
  intros [-> | ->]; unfold castConstant;
    destruct (JS.ToNumber StringToNumber value) as [[|]|[|]| |s m e];
    reflexivity.
Qed.

End IntermediateInputProperties.

(** C10.  An input whose type is the empty bitset is always of every type
    and sometimes of none, so being always of a type does not imply being
    sometimes of it; [toType] returns such an input unchanged for each of
    the four supported targets. *)
Theorem C10_empty_type
    (StringToNumber : string -> JS.number)
    (NumberToString : JS.number -> string)
    (this : IntermediateInput) :
  input_type this = 0 ->
  (forall T, isAlwaysType this T = true)
  /\ (forall T, isSometimesType this T = false)
  /\ (forall T,
        T = InputType.BOOLEAN \/ T = InputType.NUMBER
        \/ T = InputType.NUMBER_OR_NAN \/ T = InputType.STRING ->
        toType StringToNumber NumberToString this T = Ok this).
Proof.
  intros Hempty. split; [| split].
  - intros T. now apply isAlwaysType_empty.
  - intros T. now apply isSometimesType_empty.
  - intros T HT. apply toType_always.
    + destruct HT as [-> | [-> | [-> | ->]]]; discriminate.
    + now apply isAlwaysType_empty.
Qed.

Lemma C10_empty_type_witness :
  input_type (CONSTANT 0 (JS.VString EmptyString)) = 0
  /\ isAlwaysType (CONSTANT 0 (JS.VString EmptyString)) InputType.NUMBER = true
  /\ isSometimesType (CONSTANT 0 (JS.VString EmptyString)) InputType.NUMBER = false
  /\ toType Host.StringToNumber Host.NumberToString
       (CONSTANT 0 (JS.VString EmptyString)) InputType.NUMBER
     = Ok (CONSTANT 0 (JS.VString EmptyString)).
Proof.
  pose proof (C10_empty_type Host.StringToNumber Host.NumberToString
                (CONSTANT 0 (JS.VString EmptyString)) eq_refl) as [Ha [Hs Ht]].
  split; [reflexivity |].
  split; [apply Ha |].
  split; [apply Hs |].
  apply Ht. right. left. reflexivity.
Defined.

(** C3 fails as stated: the literal 1 is integral and positive, and
    [getNumberInputType] answers the whole positive group instead of
    POS_INT. *)
Lemma C3_counterexample :
  JS.isInteger (JS.of_Z 1) = true
  /\ number_type_spec (JS.of_Z 1) = InputType.NUMBER_POS_INT
  /\ getNumberInputType (JS.of_Z 1) = InputType.NUMBER_POS
  /\ getNumberInputType (JS.of_Z 1) <> number_type_spec (JS.of_Z 1).
Proof.
  repeat split; try reflexivity. vm_compute. discriminate.
Qed.

(** C3, amended.  [getNumberInputType] answers NAN for NaN, POS_INF and
    NEG_INF for the infinities, ZERO for +0, and for every other positive
    (negative) number the group NUMBER_POS (NUMBER_NEG), whether the
    number is integral or not.  Away from -0 the answer contains the atom
    the specification names. *)
Theorem C3_getNumberInputType :
  getNumberInputType JS.NaN = InputType.NUMBER_NAN
  /\ getNumberInputType JS.Infinity = InputType.NUMBER_POS_INF
  /\ getNumberInputType JS.NegInfinity = InputType.NUMBER_NEG_INF
  /\ getNumberInputType JS.zero = InputType.NUMBER_ZERO
  /\ (forall m e,
        getNumberInputType (S754_finite false m e) = InputType.NUMBER_POS)
  /\ (forall m e,
        getNumberInputType (S754_finite true m e) = InputType.NUMBER_NEG)
  /\ (forall n,
        n = JS.negzero
        \/ subsetOf (number_type_spec n) (getNumberInputType n) = true).
Proof.
  repeat split; try reflexivity.
  intros [[|]|[|]| |[|] m e]; try (right; reflexivity).
  - left. reflexivity.
  - right. unfold number_type_spec.
    destruct (JS.isInteger (S754_finite true m e)); reflexivity.
  - right. unfold number_type_spec.
    destruct (JS.isInteger (S754_finite false m e)); reflexivity.
Qed.

(** C1 fails as stated: the string constant "abc" coerces to NaN, and
    [toType] with target NUMBER_OR_NAN stores 0, not NaN. *)
Lemma C1_counterexample :
  JS.ToNumber Host.StringToNumber (JS.VString "abc") = JS.NaN
  /\ toType Host.StringToNumber Host.NumberToString
       (CONSTANT InputType.STRING (JS.VString "abc"))
       InputType.NUMBER_OR_NAN
     = Ok (CONSTANT InputType.NUMBER (JS.VNumber JS.zero))
  /\ JS.VNumber JS.zero <> JS.VNumber JS.NaN.
Proof.
  split; [reflexivity |]. split; [reflexivity | discriminate].
Qed.

(** C1, amended.  For a constant that is not already always of the target
    type, [toType] with target NUMBER and with target NUMBER_OR_NAN agree:
    the node becomes a NUMBER constant whose literal is the numeric
    coercion of the old one, except that NaN is replaced by 0.  Hence -0
    and every other number are preserved by both casts. *)
Theorem C1_toType_constant
    (StringToNumber : string -> JS.number)
    (NumberToString : JS.number -> string)
    (type : Z) (value : JS.value) (target : Z) :
  target = InputType.NUMBER \/ target = InputType.NUMBER_OR_NAN ->
  isAlwaysType (CONSTANT type value) target = false ->
  toType StringToNumber NumberToString (CONSTANT type value) target
  = Ok (CONSTANT InputType.NUMBER
          (JS.VNumber
             (if JS.isNaN (JS.ToNumber StringToNumber value) then JS.zero
              else JS.ToNumber StringToNumber value))).
Proof.
  intros Htarget Hnot. unfold toType.
  destruct Htarget as [-> | ->].
  - change (castOpcodeFor InputType.NUMBER) with (Some CAST_NUMBER).
    rewrite Hnot. f_equal. apply castConstant_number. now left.
  - change (castOpcodeFor InputType.NUMBER_OR_NAN)
      with (Some CAST_NUMBER_OR_NAN).
    rewrite Hnot. f_equal. apply castConstant_number. now right.
Qed.

Lemma C1_toType_constant_witness :
  toType Host.StringToNumber Host.NumberToString
    (CONSTANT InputType.STRING (JS.VString "-0")) InputType.NUMBER_OR_NAN
  = Ok (CONSTANT InputType.NUMBER (JS.VNumber JS.negzero)).
Proof.
  apply (C1_toType_constant Host.StringToNumber Host.NumberToString
           InputType.STRING (JS.VString "-0") InputType.NUMBER_OR_NAN).
  - right. reflexivity.
  - reflexivity.
Defined.

(* ===================================================================== *)
(** * Properties of the analysis of inputs *)
(* ===================================================================== *)

(** C2 fails as stated: for [1 / 0] the OP_DIVIDE case does report the
    NAN bit. *)
Lemma C2_counterexample :
  Z.land (analyzeInputBlock Examples.oneOverZero TypeState.create)
         InputType.NUMBER_NAN
  <> 0.
Proof. vm_compute. discriminate. Qed.

(** C2, amended.  With the dividend 1 and the divisor 0 typed by
    [getNumberInputType] (NUMBER_POS and NUMBER_ZERO), the OP_DIVIDE case
    returns exactly POS_INF together with NAN, in every state and
    whatever type the division node itself carries: POS_INF because the
    dividend's group NUMBER_POS contains the POS_INF bit, NAN because the
    rule for a finite dividend over ZERO adds it. *)
Theorem C2_divide_one_by_zero (state : TypeState) (annotation : Z) :
  input_type (Examples.numberConstant 1) = InputType.NUMBER_POS
  /\ input_type (Examples.numberConstant 0) = InputType.NUMBER_ZERO
  /\ analyzeInputBlock
       (ARITH OP_DIVIDE annotation (Examples.numberConstant 1)
              (Examples.numberConstant 0)) state
     = Z.lor InputType.NUMBER_POS_INF InputType.NUMBER_NAN.
Proof. repeat split. Qed.

(* ===================================================================== *)
(** * Properties of the EQ lowering *)
(* ===================================================================== *)

(** C8 fails as stated on the current generator: the constant "010",
    typed STRING_NUM, does not round-trip ("10" is not "010"), yet it is
    a safe input and the comparison with a variable is lowered by the
    safe-constant rule. *)
Lemma C8_counterexample :
  safeConstant_spec Host.StringToNumber Host.NumberToString
    (JS.VString "010") = false
  /\ isSafeInputForEqualsOptimization Host.StringToNumber
       (Examples.stringConstant InputType.STRING_NUM "010") = true
  /\ equalsLowering Host.StringToNumber Examples.NUMBER_INTERPRETABLE
       (Examples.stringConstant InputType.STRING_NUM "010")
       (VAR_GET InputType.ANY (Examples.var "x"))
     = EQ_SAFE_CONSTANT.
Proof. repeat split. Qed.

(** C8, amended.  The current generator calls an operand safe exactly
    when it is a CONSTANT whose type is always NUMBER or always
    STRING_NUM and whose numeric value is not 0; it makes no round-trip
    test.  The older generator calls a constant safe exactly when its
    numeric value is neither 0 nor NaN and the stringified numeric value
    equals the stringified literal. *)
Theorem C8_safe_constant
    (StringToNumber : string -> JS.number)
    (NumberToString : JS.number -> string) :
  (forall input,
      isSafeInputForEqualsOptimization StringToNumber input = true
      <-> exists type value,
            input = CONSTANT type value
            /\ (isAlwaysType input InputType.NUMBER = true
                \/ isAlwaysType input InputType.STRING_NUM = true)
            /\ JS.nonzero (JS.ToNumber StringToNumber value) = true)
  /\ (forall constantValue,
        isSafeConstantForEqualsOptimization StringToNumber NumberToString
          constantValue = true
        <-> JS.truthy (JS.ToNumber StringToNumber constantValue) = true
            /\ NumberToString (JS.ToNumber StringToNumber constantValue)
               = JS.ToString NumberToString constantValue).
Proof.
  split.
  - intros input. split.
    + destruct input as [type value| | | |]; simpl; try discriminate.
      intros H. exists type, value. split; [reflexivity |].
      destruct (isAlwaysType (CONSTANT type value) InputType.NUMBER) eqn:E1;
        destruct (isAlwaysType (CONSTANT type value) InputType.STRING_NUM)
          eqn:E2; simpl in H; try discriminate; auto.
    + intros (type & value & -> & Htype & Hnonzero). simpl.
      destruct Htype as [-> | ->]; rewrite ?orb_true_r; simpl; exact Hnonzero.
  - intros constantValue. unfold isSafeConstantForEqualsOptimization.
    destruct (JS.truthy (JS.ToNumber StringToNumber constantValue)); simpl.
    + rewrite String.eqb_eq. tauto.
    + split; [discriminate | intros [H _]; discriminate].
Qed.

(* ===================================================================== *)
(** * Properties of the yield discipline *)
(* ===================================================================== *)

(** C7, evaluated on scripts flagged as not yielding.  A procedure whose
    body is a stop-all block compiles without an error: [retire] appends
    a yield and never consults [yielded], so the body of a plain function
    contains a yield.  The same holds for a script that calls an addon
    block.  The yield helpers do consult [yielded]: a script that waits
    for a condition is refused. *)
Theorem C7_unchecked_yields
    (ir : JSGenerator.IntermediateRepresentation)
    (sanitize : string -> string)
    (descendInput : IntermediateInput -> result string)
    (descendOther :
       string -> list (string * IntermediateInput) -> result string) :
  JSGenerator.yields Examples.stopProcedure = false
  /\ JSGenerator.functionKeyword Examples.stopProcedure = "function "
  /\ JSGenerator.functionBody Examples.stopProcedure ir sanitize
       descendInput descendOther
     = Ok ("runtime.stopAll();" +:+ JSGenerator.nl
           +:+ "retire(); yield;" +:+ JSGenerator.nl)
  /\ JSGenerator.yields Examples.addonScript = false
  /\ (exists body,
        JSGenerator.functionBody Examples.addonScript ir sanitize
          descendInput descendOther = Ok body
        /\ JSGenerator.contains "yield* executeInCompatibilityLayer" body
           = true)
  /\ JSGenerator.yields Examples.waitScript = false
  /\ (exists message,
        JSGenerator.functionBody Examples.waitScript ir sanitize
          descendInput descendOther = Throw message).
Proof.
  repeat split.
  - eexists. split; reflexivity.
  - unfold JSGenerator.functionBody, JSGenerator.compileSource. simpl.
    destruct (descendInput _) as [text | message]; simpl; eexists;
      reflexivity.
Qed.

(* ===================================================================== *)
(** * Properties of TypeState *)
(* ===================================================================== *)

Lemma clone_id (s : TypeState) : TypeState.clone s = s.
Proof.
  unfold TypeState.clone.
  apply (map_fold_weak_ind (fun r m => r = m)); [reflexivity |].
  intros i x m r _ ->. reflexivity.
Qed.

Lemma clear_state (s : TypeState) : snd (TypeState.clear s) = ∅.
Proof. reflexivity. Qed.

(** Lookup after the first loop of [or]. *)
Lemma or_join_spec (this other : TypeState) :
  (forall k,
      snd (TypeState.or_join this other) !! k
      = match other !! k with
        | Some v => Some (Z.lor (default InputType.ANY (this !! k)) v)
        | None => this !! k
        end)
  /\ (fst (TypeState.or_join this other) = true ->
      exists k v,
        other !! k = Some v
        /\ default InputType.ANY (this !! k)
           <> Z.lor (default InputType.ANY (this !! k)) v).
Proof.
  unfold TypeState.or_join.
  apply (map_fold_weak_ind
           (fun (r : bool * TypeState) (m : TypeState) =>
              (forall k,
                  snd r !! k
                  = match m !! k with
                    | Some v =>
                        Some (Z.lor (default InputType.ANY (this !! k)) v)
                    | None => this !! k
                    end)
              /\ (fst r = true ->
                  exists k v,
                    m !! k = Some v
                    /\ default InputType.ANY (this !! k)
                       <> Z.lor (default InputType.ANY (this !! k)) v))).
  - split; [intros k; rewrite lookup_empty; reflexivity | discriminate].
  - intros i x m [modified vars] Hfresh [Hlook Hmod]. simpl in *.
    assert (Hcur : vars !! i = this !! i).
    { rewrite Hlook, Hfresh. reflexivity. }
    rewrite Hcur. split.
    + intros k. destruct (decide (i = k)) as [-> | Hne].
      * rewrite !lookup_insert_eq. reflexivity.
      * rewrite !lookup_insert_ne by assumption. apply Hlook.
    + intros H. apply orb_true_iff in H as [H | H].
      * destruct (Hmod H) as (k & v & Hk & Hv).
        exists k, v. split; [| assumption].
        rewrite lookup_insert_ne; [assumption |].
        intros ->. congruence.
      * exists i, x. split; [apply lookup_insert_eq |].
        apply negb_true_iff, Z.eqb_neq in H. exact H.
Qed.

(** Lookup after the second loop of [or]. *)
Lemma or_promote_spec (other : TypeState) (modified : bool)
    (vars : TypeState) :
  (forall k,
      snd (TypeState.or_promote other (modified, vars)) !! k
      = match vars !! k with
        | Some v =>
            if TypeState.falsy (other !! k) && negb (v =? InputType.ANY)
            then Some InputType.ANY else Some v
        | None => None
        end)
  /\ (fst (TypeState.or_promote other (modified, vars)) = true ->
      modified = true
      \/ exists k v,
           vars !! k = Some v
           /\ TypeState.falsy (other !! k) = true
           /\ v <> InputType.ANY).
Proof.
  unfold TypeState.or_promote. simpl.
  cut (forall m : TypeState,
          let r := map_fold
                     (fun (varId : string) (thisType : Z)
                          '(modified0, vars0) =>
                        if TypeState.falsy (other !! varId)
                        then if negb (thisType =? InputType.ANY)
                             then (true, <[varId:=InputType.ANY]> vars0)
                             else (modified0, vars0)
                        else (modified0, vars0))
                     (modified, vars) m in
          (forall k,
              snd r !! k
              = match m !! k with
                | Some v =>
                    if TypeState.falsy (other !! k)
                       && negb (v =? InputType.ANY)
                    then Some InputType.ANY else vars !! k
                | None => vars !! k
                end)
          /\ (fst r = true ->
              modified = true
              \/ exists k v,
                   m !! k = Some v
                   /\ TypeState.falsy (other !! k) = true
                   /\ v <> InputType.ANY)).
  { intros H. destruct (H vars) as [Hlook Hmod]. split.
    - intros k. rewrite Hlook. destruct (vars !! k); reflexivity.
    - exact Hmod. }
  intros m. cbv zeta.
  apply (map_fold_weak_ind
           (fun (r : bool * TypeState) (m : TypeState) =>
              (forall k,
                  snd r !! k
                  = match m !! k with
                    | Some v =>
                        if TypeState.falsy (other !! k)
                           && negb (v =? InputType.ANY)
                        then Some InputType.ANY else vars !! k
                    | None => vars !! k
                    end)
              /\ (fst r = true ->
                  modified = true
                  \/ exists k v,
                       m !! k = Some v
                       /\ TypeState.falsy (other !! k) = true
                       /\ v <> InputType.ANY))).
  - split; [intros k; rewrite lookup_empty; reflexivity | auto].
  - clear m. intros i x m [md vs] Hfresh [Hlook Hmod]. simpl in *.
    assert (Hweak :
              fst (md, vs) = true ->
              modified = true
              \/ exists k v,
                   <[i:=x]> m !! k = Some v
                   /\ TypeState.falsy (other !! k) = true
                   /\ v <> InputType.ANY).
    { intros H. destruct (Hmod H) as [? | (k & v & Hk & Hf & Hv)]; [auto |].
      right. exists k, v. split; [| auto].
      rewrite lookup_insert_ne; [assumption | intros ->; congruence]. }
    destruct (TypeState.falsy (other !! i)) eqn:Hfalsy;
      [destruct (negb (x =? InputType.ANY)) eqn:Hany |]; simpl.
    + split.
      * intros k. destruct (decide (i = k)) as [-> | Hne].
        -- rewrite !lookup_insert_eq, Hfalsy, Hany. reflexivity.
        -- rewrite !lookup_insert_ne by assumption. apply Hlook.
      * intros _. right. exists i, x.
        split; [apply lookup_insert_eq |]. split; [assumption |].
        apply negb_true_iff, Z.eqb_neq in Hany. exact Hany.
    + split; [| exact Hweak].
      intros k. destruct (decide (i = k)) as [-> | Hne].
      * rewrite lookup_insert_eq, Hfalsy, Hany. simpl.
        rewrite Hlook, Hfresh. reflexivity.
      * rewrite lookup_insert_ne by assumption. apply Hlook.
    + split; [| exact Hweak].
      intros k. destruct (decide (i = k)) as [-> | Hne].
      * rewrite lookup_insert_eq, Hfalsy. simpl.
        rewrite Hlook, Hfresh. reflexivity.
      * rewrite lookup_insert_ne by assumption. apply Hlook.
Qed.

(** * Bit facts *)

Lemma split_ldiff_land (a b : Z) : a = Z.ldiff a b + Z.land a b.
Proof.
  rewrite <- (Z.lor_ldiff_and a b) at 1.
  pose proof (Z.add_lor_land (Z.ldiff a b) (Z.land a b)) as H.
  replace (Z.land (Z.ldiff a b) (Z.land a b)) with 0 in H; [lia |].
  rewrite (Z.land_comm a b), Z.land_assoc, Z.land_ldiff, Z.land_0_l.
  reflexivity.
Qed.

Lemma lor_ge_l (a b : Z) : 0 <= b -> a <= Z.lor a b.
Proof.
  intros Hb.
  pose proof (Z.add_lor_land a b) as H.
  pose proof (split_ldiff_land b a) as Hs.
  assert (0 <= Z.ldiff b a) by (apply Z.ldiff_nonneg; auto).
  rewrite (Z.land_comm b a) in Hs. lia.
Qed.

Lemma isLattice_range (v : Z) :
  isLattice v = true -> 0 <= v <= InputType.ANY.
Proof.
  unfold isLattice, subsetOf. intros H. apply Z.eqb_eq in H.
  assert (HANY : 0 <= InputType.ANY) by (vm_compute; discriminate).
  split.
  - rewrite <- H. apply Z.land_nonneg. auto.
  - pose proof (split_ldiff_land InputType.ANY v) as Hs.
    assert (0 <= Z.ldiff InputType.ANY v) by (apply Z.ldiff_nonneg; auto).
    rewrite (Z.land_comm InputType.ANY v), H in Hs. lia.
Qed.

Lemma isLattice_lor (a b : Z) :
  isLattice a = true -> isLattice b = true -> isLattice (Z.lor a b) = true.
Proof.
  unfold isLattice, subsetOf. rewrite !Z.eqb_eq. intros Ha Hb.
  rewrite Z.land_lor_distr_l, Ha, Hb. reflexivity.
Qed.

Lemma isLattice_ANY : isLattice InputType.ANY = true.
Proof. reflexivity. Qed.

Lemma lor_ANY_l (v : Z) :
  isLattice v = true -> Z.lor InputType.ANY v = InputType.ANY.
Proof.
  unfold isLattice, subsetOf. rewrite Z.eqb_eq. intros H.
  pose proof (Z.add_lor_land InputType.ANY v) as Hadd.
  rewrite (Z.land_comm InputType.ANY v), H in Hadd. lia.
Qed.

(** * The measure *)

Lemma deficit_empty : deficit ∅ = 0.
Proof. reflexivity. Qed.

Lemma deficit_insert (s : TypeState) (i : string) (x : Z) :
  s !! i = None ->
  deficit (<[i:=x]> s) = deficit s + (InputType.ANY - x).
Proof.
  intros H. unfold deficit.
  rewrite map_fold_insert_L; [reflexivity | | assumption].
  intros. lia.
Qed.

Lemma deficit_delete (s : TypeState) (i : string) (x : Z) :
  s !! i = Some x ->
  deficit s = deficit (delete i s) + (InputType.ANY - x).
Proof.
  intros H. rewrite <- (insert_delete_id s i x H) at 1.
  apply deficit_insert. apply lookup_delete_eq.
Qed.

Lemma deficit_all_ANY (s : TypeState) :
  (forall k v, s !! k = Some v -> v = InputType.ANY) -> deficit s = 0.
Proof.
  unfold deficit.
  apply (map_fold_weak_ind
           (fun (r : Z) (m : TypeState) =>
              (forall k v, m !! k = Some v -> v = InputType.ANY) -> r = 0)).
  - reflexivity.
  - intros i x m r Hfresh IH Hall.
    rewrite IH.
    + rewrite (Hall i x (lookup_insert_eq m i x)). lia.
    + intros k v Hk. apply (Hall k v).
      rewrite lookup_insert_ne; [assumption | intros ->; congruence].
Qed.

Lemma grows_delete (s s' : TypeState) (i : string) :
  grows s s' -> grows (delete i s) (delete i s').
Proof.
  intros [Hold Hnew]. split.
  - intros k a Hk. destruct (decide (i = k)) as [-> | Hne].
    + rewrite lookup_delete_eq in Hk. discriminate.
    + rewrite lookup_delete_ne in Hk by assumption.
      rewrite lookup_delete_ne by assumption. now apply Hold.
  - intros k Hk. destruct (decide (i = k)) as [-> | Hne].
    + left. apply lookup_delete_eq.
    + rewrite lookup_delete_ne in Hk by assumption.
      rewrite lookup_delete_ne by assumption. now apply Hnew.
Qed.

Lemma deficit_grows (s : TypeState) :
  forall s', grows s s' -> deficit s' <= deficit s.
Proof.
  induction s as [| i a m Hfresh IH] using map_ind; intros s' Hg.
  - rewrite deficit_empty, deficit_all_ANY; [lia |].
    intros k v Hk. destruct Hg as [_ Hnew].
    destruct (Hnew k (lookup_empty k)) as [H | H]; congruence.
  - destruct Hg as [Hold Hnew].
    destruct (Hold i a (lookup_insert_eq m i a)) as (a' & Ha' & Hle).
    rewrite (deficit_delete s' i a' Ha'), (deficit_insert m i a Hfresh).
    assert (Hrest : deficit (delete i s') <= deficit m).
    { apply IH.
      assert (Hm : m = delete i (<[i:=a]> m)).
      { rewrite delete_insert_eq. symmetry. now apply delete_id. }
      rewrite Hm. apply grows_delete. split; assumption. }
    lia.
Qed.

Lemma deficit_grows_strict (s s' : TypeState) (k : string) (a a' : Z) :
  grows s s' -> s !! k = Some a -> s' !! k = Some a' -> a < a' ->
  deficit s' < deficit s.
Proof.
  intros Hg Hk Hk' Hlt.
  rewrite (deficit_delete s k a Hk), (deficit_delete s' k a' Hk').
  pose proof (deficit_grows _ _ (grows_delete s s' k Hg)). lia.
Qed.

Lemma deficit_nonneg (s : TypeState) : state_wf s -> 0 <= deficit s.
Proof.
  unfold deficit.
  apply (map_fold_weak_ind
           (fun (r : Z) (m : TypeState) => state_wf m -> 0 <= r)).
  - intros _. lia.
  - intros i x m r Hfresh IH Hwf.
    assert (0 <= r).
    { apply IH. intros k v Hk. apply (Hwf k v).
      rewrite lookup_insert_ne; [assumption | intros ->; congruence]. }
    pose proof (isLattice_range x (Hwf i x (lookup_insert_eq m i x))). lia.
Qed.

Lemma or_lookup (this other : TypeState) (k : string) :
  snd (TypeState.or this other) !! k
  = match other !! k, this !! k with
    | Some v, cur =>
        let joined := Z.lor (default InputType.ANY cur) v in
        if (v =? 0) && negb (joined =? InputType.ANY)
        then Some InputType.ANY else Some joined
    | None, Some a =>
        if negb (a =? InputType.ANY) then Some InputType.ANY else Some a
    | None, None => None
    end.
Proof.
  unfold TypeState.or.
  destruct (TypeState.or_join this other) as [md vars] eqn:Hjoin.
  destruct (or_promote_spec other md vars) as [Hlook _].
  rewrite Hlook.
  destruct (or_join_spec this other) as [Hj _].
  rewrite Hjoin in Hj. simpl in Hj. rewrite Hj.
  destruct (other !! k) as [v |]; simpl; [reflexivity |].
  destruct (this !! k); reflexivity.
Qed.

Lemma or_grows (this other : TypeState) :
  state_wf this -> state_wf other ->
  grows this (snd (TypeState.or this other))
  /\ state_wf (snd (TypeState.or this other))
  /\ (fst (TypeState.or this other) = true ->
      deficit (snd (TypeState.or this other)) < deficit this).
Proof.
  intros Hthis Hother.
  assert (Hgrows : grows this (snd (TypeState.or this other))).
  { split.
    - intros k a Hk. rewrite or_lookup, Hk.
      pose proof (isLattice_range a (Hthis k a Hk)) as Ha.
      destruct (other !! k) as [v |] eqn:Hv; simpl.
      + pose proof (Hother k v Hv) as Hlv.
        pose proof (isLattice_range v Hlv) as Hvr.
        pose proof (isLattice_range _ (isLattice_lor a v (Hthis k a Hk) Hlv)).
        pose proof (lor_ge_l a v ltac:(lia)).
        destruct ((v =? 0) && negb (Z.lor a v =? InputType.ANY));
          eexists; (split; [reflexivity | lia]).
      + destruct (negb (a =? InputType.ANY));
          eexists; (split; [reflexivity | lia]).
    - intros k Hk. rewrite or_lookup, Hk.
      destruct (other !! k) as [v |] eqn:Hv; simpl; [| now left].
      right. rewrite (lor_ANY_l v (Hother k v Hv)), Z.eqb_refl.
      rewrite andb_false_r. reflexivity. }
  split; [exact Hgrows |]. split.
  - intros k v Hk. destruct (this !! k) as [a |] eqn:Ha.
    + rewrite or_lookup, Ha in Hk.
      destruct (other !! k) as [w |] eqn:Hw; simpl in Hk.
      * destruct ((w =? 0) && negb (Z.lor a w =? InputType.ANY));
          injection Hk as <-; [reflexivity |].
        apply isLattice_lor; [apply (Hthis k a Ha) | apply (Hother k w Hw)].
      * destruct (negb (a =? InputType.ANY)); injection Hk as <-;
          [reflexivity | apply (Hthis k a Ha)].
    + destruct Hgrows as [_ Hnew].
      destruct (Hnew k Ha) as [H | H]; rewrite H in Hk; [discriminate |].
      injection Hk as <-. reflexivity.
  - intros Hmod.
    assert (Hstrict :
              exists k a a',
                this !! k = Some a
                /\ snd (TypeState.or this other) !! k = Some a'
                /\ a < a').
    { unfold TypeState.or in Hmod.
      destruct (TypeState.or_join this other) as [md vars] eqn:Hjoin.
      destruct (or_promote_spec other md vars) as [_ Hpm].
      destruct (or_join_spec this other) as [Hj Hjm].
      rewrite Hjoin in Hj, Hjm. simpl in Hj, Hjm.
      destruct (Hpm Hmod) as [-> | (k & v & Hk & Hfalsy & Hv)].
      - destruct (Hjm eq_refl) as (k & v & Hk & Hne).
        pose proof (Hother k v Hk) as Hlv.
        destruct (this !! k) as [a |] eqn:Ha; simpl in Hne.
        + exists k, a, (Z.lor a v). split; [assumption |].
          pose proof (isLattice_range v Hlv).
          pose proof (lor_ge_l a v ltac:(lia)).
          split; [| lia].
          rewrite or_lookup, Hk, Ha. simpl.
          destruct (v =? 0) eqn:Hz; [| reflexivity].
          apply Z.eqb_eq in Hz. subst v. rewrite Z.lor_0_r in Hne.
          congruence.
        + rewrite (lor_ANY_l v Hlv) in Hne. congruence.
      - rewrite Hj in Hk.
        destruct (other !! k) as [w |] eqn:Hw; simpl in Hfalsy.
        + apply Z.eqb_eq in Hfalsy. subst w.
          rewrite Z.lor_0_r in Hk. injection Hk as Hk.
          destruct (this !! k) as [a |] eqn:Ha; simpl in Hk;
            [| congruence].
          subst v. exists k, a, InputType.ANY. split; [assumption |].
          pose proof (isLattice_range a (Hthis k a Ha)).
          split; [| lia].
          rewrite or_lookup, Hw, Ha. simpl. rewrite Z.lor_0_r.
          destruct (a =? InputType.ANY) eqn:E; [| reflexivity].
          apply Z.eqb_eq in E. congruence.
        + exists k, v, InputType.ANY. split; [assumption |].
          pose proof (isLattice_range v (Hthis k v Hk)).
          split; [| lia].
          rewrite or_lookup, Hw, Hk.
          destruct (v =? InputType.ANY) eqn:E; [| reflexivity].
          apply Z.eqb_eq in E. congruence. }
    destruct Hstrict as (k & a & a' & Hk & Hk' & Hlt).
    exact (deficit_grows_strict _ _ k a a' Hgrows Hk Hk' Hlt).
Qed.

(** * Analysis of inputs stays in the lattice *)

Lemma orWhen_lattice (c : bool) (bits acc : Z) :
  isLattice bits = true -> isLattice acc = true ->
  isLattice (orWhen c bits acc) = true.
Proof.
  intros Hb Ha. unfold orWhen. destruct c; [| assumption].
  now apply isLattice_lor.
Qed.

Lemma posBits_lattice (l r : Z) : isLattice (posBits l r) = true.
Proof. unfold posBits. apply orWhen_lattice; reflexivity. Qed.

Lemma negBits_lattice (l r : Z) : isLattice (negBits l r) = true.
Proof. unfold negBits. apply orWhen_lattice; reflexivity. Qed.

Lemma analyzeArith_lattice (opcode : ArithOpcode) (l r : Z) :
  isLattice (analyzeArith l r opcode) = true.
Proof.
  destruct opcode; cbv [analyzeArith analyzeAdd analyzeSubtract
                        analyzeMultiply analyzeDivide];
    repeat (apply orWhen_lattice;
            [first [reflexivity | apply posBits_lattice
                   | apply negBits_lattice] |]);
    reflexivity.
Qed.

Lemma getVariableType_lattice (state : TypeState) (variable : VariableRef) :
  state_wf state ->
  isLattice (TypeState.getVariableType state variable) = true.
Proof.
  intros Hwf. unfold TypeState.getVariableType.
  destruct (state !! name variable) as [v |] eqn:Hv; simpl.
  - exact (Hwf _ _ Hv).
  - reflexivity.
Qed.

Lemma analyzeInputBlock_lattice (input : IntermediateInput)
    (state : TypeState) :
  input_wf input = true -> state_wf state ->
  isLattice (analyzeInputBlock input state) = true.
Proof.
  intros Hwf Hstate.
  induction input as [type value | type variable | opcode type target IH
                     | opcode type lhs IHl rhs IHr | opcode type inputs].
  - simpl in *. now apply andb_true_iff in Hwf as [Hwf _].
  - simpl. now apply getVariableType_lattice.
  - simpl in Hwf. apply andb_true_iff in Hwf as [Htype Htarget].
    specialize (IH Htarget).
    destruct opcode; simpl; try exact Htype.
    + destruct (has _ _); [exact IH | reflexivity].
    + destruct (has _ _); [exact IH | reflexivity].
  - simpl. apply analyzeArith_lattice.
  - simpl in *. now apply andb_true_iff in Hwf as [Hwf _].
Qed.

Lemma setVariableType_wf (state : TypeState) (variable : VariableRef)
    (type : Z) :
  state_wf state -> isLattice type = true ->
  state_wf (snd (TypeState.setVariableType state variable type)).
Proof.
  intros Hwf Htype. unfold TypeState.setVariableType.
  destruct (_ =? _); simpl; [exact Hwf |].
  intros k v Hk. destruct (decide (name variable = k)) as [<- | Hne].
  - rewrite lookup_insert_eq in Hk. injection Hk as <-. exact Htype.
  - rewrite lookup_insert_ne in Hk by assumption. exact (Hwf k v Hk).
Qed.

Lemma state_wf_empty : state_wf ∅.
Proof. intros k v Hk. rewrite lookup_empty in Hk. discriminate. Qed.

(** * The analysis keeps the shape of the IR and the lattice *)

Lemma sameShape_annotations (b : IntermediateStackBlock)
    (entryState exitState : option (gmap string Z)) :
  sameShape b (Block (block_node b) (block_yields b) entryState exitState).
Proof. destruct b. repeat split. Qed.

Lemma sameShape_trans (a b c : IntermediateStackBlock) :
  sameShape a b -> sameShape b c -> sameShape a c.
Proof.
  intros (H1 & H2 & H3) (H4 & H5 & H6). repeat split; congruence.
Qed.

Lemma recordExit_shape (stateChanged : bool) (b : IntermediateStackBlock)
    (state : TypeState) :
  sameShape b (snd (fst (recordExit stateChanged b state)))
  /\ (state_wf state -> state_wf (snd (recordExit stateChanged b state))).
Proof.
  destruct b as [node yields entryState exitState].
  unfold recordExit. simpl.
  destruct yields, stateChanged; simpl.
  all: try (destruct (map_fold _ false state); simpl).
  all: split; [repeat split |].
  all: try (intros _; apply state_wf_empty).
  all: auto.
Qed.

Section Preservation.
Variable f :
  IntermediateStackBlock -> TypeState ->
  option (bool * IntermediateStackBlock * TypeState).

Hypothesis f_shape :
  forall b s m b' s', f b s = Some (m, b', s') -> sameShape b b'.
Hypothesis f_state :
  forall b s m b' s',
    f b s = Some (m, b', s') -> block_wf b = true -> state_wf s ->
    state_wf s'.

Lemma analyzeBlocks_preserves (blocks : list IntermediateStackBlock) :
  forall s m m' blocks' s',
    analyzeBlocks f blocks s m = Some (m', blocks', s') ->
    sameShapeStack (Some blocks) (Some blocks')
    /\ (forallb block_wf blocks = true -> state_wf s -> state_wf s').
Proof.
  induction blocks as [| b rest IH]; intros s m m' blocks' s' H; simpl in H.
  - injection H as <- <- <-. split; [split; reflexivity | auto].
  - destruct (f b s) as [[[c b1] s1] |] eqn:Hf; simpl in H; [| discriminate].
    destruct (recordExit c b1 s1) as [[c2 b2] s2] eqn:Hrec.
    destruct (analyzeBlocks f rest s2 (m || c2)) as [[[m3 rest3] s3] |]
      eqn:Hrest; simpl in H; [| discriminate].
    injection H as <- <- <-.
    destruct (IH _ _ _ _ _ Hrest) as [[Hsize Hwf] Hstate].
    pose proof (f_shape _ _ _ _ _ Hf) as (Hs1 & Hw1 & _).
    pose proof (recordExit_shape c b1 s1) as [(Hs2 & Hw2 & _) Hst2].
    rewrite Hrec in Hs2, Hw2, Hst2. simpl in Hs2, Hw2, Hst2.
    unfold sameShapeStack, stack_size, stack_wf in *. simpl in *.
    split; [split |].
    + congruence.
    + congruence.
    + intros Hall Hs. apply andb_true_iff in Hall as [Hb Hall].
      apply Hstate; [assumption |].
      apply Hst2. exact (f_state _ _ _ _ _ Hf Hb Hs).
Qed.

Lemma analyzeStack_preserves (stack : IntermediateStack) :
  forall s m stack' s',
    analyzeStack f stack s = Some (m, stack', s') ->
    sameShapeStack stack stack'
    /\ (stack_wf stack = true -> state_wf s -> state_wf s').
Proof.
  intros s m stack' s' H. destruct stack as [blocks |]; simpl in H.
  - destruct (analyzeBlocks f blocks s false) as [[[m1 blocks1] s1] |]
      eqn:Hb; simpl in H; [| discriminate].
    injection H as <- <- <-.
    exact (analyzeBlocks_preserves _ _ _ _ _ _ Hb).
  - injection H as <- <- <-. split; [split; reflexivity | auto].
Qed.

Lemma iterateLoop_preserves (n : nat) :
  forall stack s m stack' s',
    iterateLoop f n stack s = Some (m, stack', s') ->
    sameShapeStack stack stack'
    /\ (stack_wf stack = true -> state_wf s -> state_wf s').
Proof.
  induction n as [| n IH]; intros stack s m stack' s' H; simpl in H;
    [discriminate |].
  rewrite clone_id in H.
  destruct (analyzeStack f stack s) as [[[m1 stack1] s1] |] eqn:Hbody;
    simpl in H; [| discriminate].
  destruct (analyzeStack_preserves _ _ _ _ _ Hbody) as [[Hsz Hwf] Hst].
  destruct (TypeState.or s s1) as [keep s2] eqn:Hor.
  assert (Hs2 : stack_wf stack = true -> state_wf s -> state_wf s2).
  { intros Hw Hs.
    pose proof (or_grows s s1 Hs (Hst Hw Hs)) as (_ & Hwf2 & _).
    rewrite Hor in Hwf2. exact Hwf2. }
  destruct keep.
  - destruct (IH _ _ _ _ _ H) as [[Hsz' Hwf'] Hst'].
    split; [split; congruence |].
    intros Hw Hs. apply Hst'; [congruence | auto].
  - injection H as <- <- <-. split; [split; assumption | assumption].
Qed.
End Preservation.

Lemma analyzeStackBlock_preserves (fuel : nat) :
  forall b s m b' s',
    analyzeStackBlock fuel b s = Some (m, b', s') ->
    sameShape b b'
    /\ (block_wf b = true -> state_wf s -> state_wf s').
Proof.
  induction fuel as [| fuel IH]; intros b s m b' s' H; [discriminate |].
  assert (IHshape :
            forall b s m b' s',
              analyzeStackBlock fuel b s = Some (m, b', s') ->
              sameShape b b')
    by (intros; eapply IH; eassumption).
  assert (IHstate :
            forall b s m b' s',
              analyzeStackBlock fuel b s = Some (m, b', s') ->
              block_wf b = true -> state_wf s -> state_wf s')
    by (intros ? ? ? ? ? H0; eapply IH; eassumption).
  pose proof (analyzeStack_preserves _ IHshape IHstate) as Hstack.
  pose proof (iterateLoop_preserves _ IHshape IHstate) as Hloop.
  assert (Hlooped :
            forall do_ node yields entryState exitState,
              (forall stack,
                  block_size (Block (withDo node stack) yields None None)
                  = S (stack_size stack)
                  /\ block_wf (Block (withDo node stack) yields None None)
                     = stack_wf stack) ->
              withDo node do_ = node ->
              analyzeLoopedStack (analyzeStackBlock fuel) fuel do_ s
                (Block node yields entryState exitState)
              = Some (m, b', s') ->
              sameShape (Block node yields entryState exitState) b'
              /\ (stack_wf do_ = true -> state_wf s -> state_wf s')).
  { clear H. intros do_ node yields entryState exitState Hnode Hdo H.
    assert (Hsame :
              forall stack e x e' x',
                sameShapeStack do_ stack ->
                sameShape (Block node yields e x)
                          (Block (withDo node stack) yields e' x')).
    { intros stack e x e' x' [Hsz Hwf].
      destruct (Hnode stack) as [H1 H2]. destruct (Hnode do_) as [H3 H4].
      rewrite Hdo in H3, H4.
      repeat split; simpl in *; congruence. }
    unfold analyzeLoopedStack in H. simpl in H. destruct yields.
    - destruct (analyzeStack (analyzeStackBlock fuel) do_ ∅)
        as [[[bm stack1] s1] |] eqn:Hbody; simpl in H; [| discriminate].
      injection H as <- <- <-.
      destruct (Hstack _ _ _ _ _ Hbody) as [Hsh Hst].
      split; [now apply Hsame |].
      intros Hw _. apply Hst; [assumption | apply state_wf_empty].
    - destruct (iterateLoop (analyzeStackBlock fuel) fuel do_ s)
        as [[[bm stack1] s1] |] eqn:Hbody; simpl in H; [| discriminate].
      injection H as <- <- <-.
      destruct (Hloop _ _ _ _ _ _ Hbody) as [Hsh Hst].
      split; [now apply Hsame | assumption]. }
  destruct b as [node yields entryState exitState].
  simpl in H. destruct node; simpl in H.
  - (* VAR_SET *)
    destruct (TypeState.setVariableType s variable
                (analyzeInputBlock value s)) as [md s1] eqn:Hset.
    injection H as <- <- <-.
    split; [repeat split |].
    intros Hw Hs.
    pose proof (setVariableType_wf s variable _ Hs
                  (analyzeInputBlock_lattice value s Hw Hs)) as Hwf.
    rewrite Hset in Hwf. exact Hwf.
  - (* CONTROL_WHILE *)
    apply (Hlooped do_ (CONTROL_WHILE condition do_ warpTimer));
      [intros; split; reflexivity | reflexivity | exact H].
  - (* CONTROL_FOR *)
    apply (Hlooped do_ (CONTROL_FOR variable count do_));
      [intros; split; reflexivity | reflexivity | exact H].
  - (* CONTROL_REPEAT *)
    apply (Hlooped do_ (CONTROL_REPEAT times do_));
      [intros; split; reflexivity | reflexivity | exact H].
  - (* CONTROL_IF_ELSE *)
    rewrite clone_id in H.
    destruct (analyzeStack (analyzeStackBlock fuel) whenTrue s)
      as [[[mt stackT] sT] |] eqn:HT; simpl in H; [| discriminate].
    destruct (analyzeStack (analyzeStackBlock fuel) whenFalse s)
      as [[[mf stackF] sF] |] eqn:HF; simpl in H; [| discriminate].
    destruct (Hstack _ _ _ _ _ HT) as [[HszT HwfT] HstT].
    destruct (Hstack _ _ _ _ _ HF) as [[HszF HwfF] HstF].
    assert (Hshape :
              sameShape
                (Block (CONTROL_IF_ELSE condition whenTrue whenFalse)
                       yields entryState exitState)
                (Block (CONTROL_IF_ELSE condition stackT stackF)
                       yields entryState exitState)).
    { unfold stack_size, stack_wf in *.
      repeat split; simpl; congruence. }
    destruct mf.
    + injection H as <- <- <-. split; [exact Hshape |].
      simpl. intros Hw Hs. apply andb_true_iff in Hw as [HwT HwF]. auto.
    + destruct (TypeState.or sF sT) as [md s2] eqn:Hor.
      injection H as <- <- <-. split; [exact Hshape |].
      simpl. intros Hw Hs. apply andb_true_iff in Hw as [HwT HwF].
      pose proof (or_grows sF sT (HstF HwF Hs) (HstT HwT Hs)) as (_ & Hwf & _).
      rewrite Hor in Hwf. exact Hwf.
  - (* PROCEDURE_CALL *)
    injection H as <- <- <-.
    split; [repeat split | intros; apply state_wf_empty].
  - injection H as <- <- <-. split; [repeat split | auto].
  - injection H as <- <- <-. split; [repeat split | auto].
  - injection H as <- <- <-. split; [repeat split | auto].
  - injection H as <- <- <-. split; [repeat split | auto].
  - injection H as <- <- <-. split; [repeat split | auto].
  - injection H as <- <- <-. split; [repeat split | auto].
  - injection H as <- <- <-. split; [repeat split | auto].
  - injection H as <- <- <-. split; [repeat split | auto].
  - injection H as <- <- <-. split; [repeat split | auto].
  - injection H as <- <- <-. split; [repeat split | auto].
  - injection H as <- <- <-. split; [repeat split | auto].
Qed.

(** * More fuel never changes a result *)

Section Monotone.
Variables f f' :
  IntermediateStackBlock -> TypeState ->
  option (bool * IntermediateStackBlock * TypeState).
Hypothesis f_le : extends f f'.

Lemma analyzeBlocks_mono (blocks : list IntermediateStackBlock) :
  forall s m r,
    analyzeBlocks f blocks s m = Some r ->
    analyzeBlocks f' blocks s m = Some r.
Proof.
  induction blocks as [| b rest IH]; intros s m r H; simpl in *;
    [assumption |].
  destruct (f b s) as [[[c b1] s1] |] eqn:Hf; simpl in H; [| discriminate].
  rewrite (f_le _ _ _ Hf). simpl.
  destruct (recordExit c b1 s1) as [[c2 b2] s2].
  destruct (analyzeBlocks f rest s2 (m || c2)) as [r3 |] eqn:Hrest;
    simpl in H; [| discriminate].
  rewrite (IH _ _ _ Hrest). exact H.
Qed.

Lemma analyzeStack_mono (stack : IntermediateStack) (s : TypeState) r :
  analyzeStack f stack s = Some r -> analyzeStack f' stack s = Some r.
Proof.
  destruct stack as [blocks |]; simpl; [| auto].
  destruct (analyzeBlocks f blocks s false) as [r1 |] eqn:Hb; simpl;
    [| discriminate].
  rewrite (analyzeBlocks_mono _ _ _ _ Hb). auto.
Qed.

Lemma iterateLoop_mono (n : nat) :
  forall n' stack s r,
    (n <= n')%nat ->
    iterateLoop f n stack s = Some r ->
    iterateLoop f' n' stack s = Some r.
Proof.
  induction n as [| n IH]; intros n' stack s r Hle H; simpl in H;
    [discriminate |].
  destruct n' as [| n']; [lia |]. simpl.
  destruct (analyzeStack f stack (TypeState.clone s))
    as [[[m1 stack1] s1] |] eqn:Hbody; simpl in H; [| discriminate].
  rewrite (analyzeStack_mono _ _ _ Hbody). simpl.
  destruct (TypeState.or s s1) as [keep s2].
  destruct keep; [| exact H].
  apply IH; [lia | exact H].
Qed.

Lemma analyzeLoopedStack_mono (n n' : nat) (stack : IntermediateStack)
    (s : TypeState) (b : IntermediateStackBlock) r :
  (n <= n')%nat ->
  analyzeLoopedStack f n stack s b = Some r ->
  analyzeLoopedStack f' n' stack s b = Some r.
Proof.
  intros Hle. unfold analyzeLoopedStack.
  destruct (block_yields b).
  - destruct (TypeState.clear s) as [md s0].
    destruct (analyzeStack f stack s0) as [r1 |] eqn:Hbody; simpl;
      [| discriminate].
    rewrite (analyzeStack_mono _ _ _ Hbody). auto.
  - destruct (iterateLoop f n stack s) as [r1 |] eqn:Hbody; simpl;
      [| discriminate].
    rewrite (iterateLoop_mono _ _ _ _ _ Hle Hbody). auto.
Qed.
End Monotone.

Lemma analyzeStackBlock_mono (fuel : nat) :
  forall fuel', (fuel <= fuel')%nat ->
                extends (analyzeStackBlock fuel) (analyzeStackBlock fuel').
Proof.
  induction fuel as [| fuel IH]; intros fuel' Hle b s r H; [discriminate |].
  destruct fuel' as [| fuel']; [lia |].
  assert (Hext : extends (analyzeStackBlock fuel) (analyzeStackBlock fuel'))
    by (apply IH; lia).
  assert (Hle' : (fuel <= fuel')%nat) by lia.
  destruct b as [node yields entryState exitState].
  simpl in *. destruct node; try exact H.
  - exact (analyzeLoopedStack_mono _ _ Hext _ _ _ _ _ _ Hle' H).
  - exact (analyzeLoopedStack_mono _ _ Hext _ _ _ _ _ _ Hle' H).
  - exact (analyzeLoopedStack_mono _ _ Hext _ _ _ _ _ _ Hle' H).
  - destruct (analyzeStack (analyzeStackBlock fuel) whenTrue
                (TypeState.clone s)) as [[[mt stackT] sT] |] eqn:HT;
      simpl in H; [| discriminate].
    rewrite (analyzeStack_mono _ _ Hext _ _ _ HT). simpl.
    destruct (analyzeStack (analyzeStackBlock fuel) whenFalse s)
      as [[[mf stackF] sF] |] eqn:HF; simpl in H; [| discriminate].
    rewrite (analyzeStack_mono _ _ Hext _ _ _ HF). simpl. exact H.
Qed.

Lemma analyze_mono (fuel fuel' : nat) (stack : IntermediateStack)
    (s : TypeState) r :
  (fuel <= fuel')%nat ->
  analyze fuel stack s = Some r -> analyze fuel' stack s = Some r.
Proof.
  intros Hle. unfold analyze.
  apply analyzeStack_mono. now apply analyzeStackBlock_mono.
Qed.

(** * Termination *)

Lemma iterateLoop_step f (n : nat) (stack : IntermediateStack)
    (s : TypeState) m1 stack1 s1 :
  analyzeStack f stack s = Some (m1, stack1, s1) ->
  iterateLoop f (S n) stack s
  = if fst (TypeState.or s s1)
    then iterateLoop f n stack1 (snd (TypeState.or s s1))
    else Some (false, stack1, snd (TypeState.or s s1)).
Proof.
  intros H. simpl. rewrite clone_id, H. simpl.
  destruct (TypeState.or s s1) as [[|] s2]; reflexivity.
Qed.

Section Termination.
Variable bound : nat.

(** Blocks of size at most [bound] are analyzed in finitely many steps. *)
Hypothesis blocks_terminate :
  forall b,
    (block_size b <= bound)%nat -> block_wf b = true ->
    forall s, state_wf s ->
              exists fuel r, analyzeStackBlock fuel b s = Some r.

Lemma analyzeBlocks_terminates (blocks : list IntermediateStackBlock) :
  (list_sum (List.map block_size blocks) <= bound)%nat ->
  forallb block_wf blocks = true ->
  forall s m,
    state_wf s ->
    exists fuel r, analyzeBlocks (analyzeStackBlock fuel) blocks s m = Some r.
Proof.
  induction blocks as [| b rest IH]; intros Hsize Hwf s m Hs.
  - exists O. eexists. reflexivity.
  - simpl in Hsize, Hwf. apply andb_true_iff in Hwf as [Hb Hrest].
    destruct (blocks_terminate b ltac:(lia) Hb s Hs)
      as (f1 & [[c b1] s1] & Hf1).
    destruct (analyzeStackBlock_preserves _ _ _ _ _ _ Hf1) as [_ Hs1].
    specialize (Hs1 Hb Hs).
    destruct (recordExit c b1 s1) as [[c2 b2] s2] eqn:Hrec.
    assert (Hs2 : state_wf s2).
    { pose proof (recordExit_shape c b1 s1) as [_ H].
      rewrite Hrec in H. auto. }
    destruct (IH ltac:(lia) Hrest s2 (m || c2) Hs2)
      as (f2 & [[m3 rest3] s3] & Hf2).
    exists (Nat.max f1 f2). eexists. simpl.
    rewrite (analyzeStackBlock_mono f1 (Nat.max f1 f2) ltac:(lia) _ _ _ Hf1).
    simpl. rewrite Hrec.
    rewrite (analyzeBlocks_mono _ _
               (analyzeStackBlock_mono f2 (Nat.max f1 f2) ltac:(lia))
               _ _ _ _ Hf2).
    reflexivity.
Qed.

Lemma analyzeStack_terminates (stack : IntermediateStack) :
  (stack_size stack <= bound)%nat ->
  stack_wf stack = true ->
  forall s,
    state_wf s ->
    exists fuel r, analyzeStack (analyzeStackBlock fuel) stack s = Some r.
Proof.
  intros Hsize Hwf s Hs. destruct stack as [blocks |].
  - destruct (analyzeBlocks_terminates blocks Hsize Hwf s false Hs)
      as (fuel & [[m blocks'] s'] & H).
    exists fuel. eexists. simpl. rewrite H. reflexivity.
  - exists O. eexists. reflexivity.
Qed.

Lemma iterateLoop_terminates (d : nat) :
  forall stack s,
    (stack_size stack <= bound)%nat ->
    stack_wf stack = true ->
    state_wf s ->
    (Z.to_nat (deficit s) <= d)%nat ->
    exists fuel r,
      iterateLoop (analyzeStackBlock fuel) fuel stack s = Some r.
Proof.
  induction d as [| d IH]; intros stack s Hsize Hwf Hs Hd.
  all: destruct (analyzeStack_terminates stack Hsize Hwf s Hs)
         as (fb & [[m1 stack1] s1] & Hbody).
  all: destruct (analyzeStack_preserves _
                   (fun b s m b' s' H =>
                      proj1 (analyzeStackBlock_preserves fb b s m b' s' H))
                   (fun b s m b' s' H =>
                      proj2 (analyzeStackBlock_preserves fb b s m b' s' H))
                   _ _ _ _ _ Hbody) as [[Hsz1 Hwf1] Hs1].
  all: specialize (Hs1 Hwf Hs).
  all: pose proof (or_grows s s1 Hs Hs1) as (_ & Hs2 & Hlt).
  all: pose proof (deficit_nonneg s Hs) as Hnn.
  all: destruct (TypeState.or s s1) as [keep s2] eqn:Hor; simpl in Hs2, Hlt.
  all: pose proof (deficit_nonneg s2 Hs2) as Hnn2.
  all: destruct keep.
  - specialize (Hlt eq_refl). lia.
  - exists (S fb). eexists.
    rewrite (iterateLoop_step _ fb _ _ _ _ _
               (analyzeStack_mono _ _
                  (analyzeStackBlock_mono fb (S fb) ltac:(lia)) _ _ _ Hbody)).
    rewrite Hor. reflexivity.
  - specialize (Hlt eq_refl).
    destruct (IH stack1 s2 ltac:(lia) ltac:(congruence) Hs2 ltac:(lia))
      as (f2 & r & Hrest).
    exists (S (Nat.max fb f2)). exists r.
    rewrite (iterateLoop_step _ (Nat.max fb f2) _ _ _ _ _
               (analyzeStack_mono _ _
                  (analyzeStackBlock_mono fb (S (Nat.max fb f2)) ltac:(lia))
                  _ _ _ Hbody)).
    rewrite Hor. simpl fst. simpl snd. cbv iota.
    apply (iterateLoop_mono _ _
             (analyzeStackBlock_mono f2 (S (Nat.max fb f2)) ltac:(lia))
             f2 (Nat.max fb f2) _ _ _ ltac:(lia) Hrest).
  - exists (S fb). eexists.
    rewrite (iterateLoop_step _ fb _ _ _ _ _
               (analyzeStack_mono _ _
                  (analyzeStackBlock_mono fb (S fb) ltac:(lia)) _ _ _ Hbody)).
    rewrite Hor. reflexivity.
Qed.

Lemma analyzeLoopedStack_terminates (stack : IntermediateStack)
    (block : IntermediateStackBlock) :
  (stack_size stack <= bound)%nat ->
  stack_wf stack = true ->
  forall s,
    state_wf s ->
    exists fuel r,
      analyzeLoopedStack (analyzeStackBlock fuel) fuel stack s block = Some r.
Proof.
  intros Hsize Hwf s Hs. unfold analyzeLoopedStack.
  destruct (block_yields block).
  - simpl.
    destruct (analyzeStack_terminates stack Hsize Hwf ∅ state_wf_empty)
      as (fuel & [[m1 stack1] s1] & H).
    exists fuel. eexists. rewrite H. reflexivity.
  - destruct (iterateLoop_terminates (Z.to_nat (deficit s)) stack s
                Hsize Hwf Hs ltac:(lia)) as (fuel & [[m1 stack1] s1] & H).
    exists fuel. eexists. rewrite H. reflexivity.
Qed.
End Termination.

Lemma analyzeStackBlock_terminates (bound : nat) :
  forall b,
    (block_size b <= bound)%nat -> block_wf b = true ->
    forall s, state_wf s ->
              exists fuel r, analyzeStackBlock fuel b s = Some r.
Proof.
  induction bound as [| bound IH]; intros b Hsize Hwf s Hs.
  { destruct b. simpl in Hsize. lia. }
  destruct b as [node yields entryState exitState].
  destruct node; simpl in Hsize, Hwf.
  all: try (exists 1%nat; eexists; reflexivity).
  - exists 1%nat. simpl.
    destruct (TypeState.setVariableType _ _ _). eexists. reflexivity.
  - destruct (analyzeLoopedStack_terminates bound IH do_
                (Block (CONTROL_WHILE condition do_ warpTimer) yields
                       entryState exitState) ltac:(unfold stack_size; lia)
                Hwf s Hs) as (fuel & r & H).
    exists (S fuel), r. exact H.
  - destruct (analyzeLoopedStack_terminates bound IH do_
                (Block (CONTROL_FOR variable count do_) yields
                       entryState exitState) ltac:(unfold stack_size; lia)
                Hwf s Hs) as (fuel & r & H).
    exists (S fuel), r. exact H.
  - destruct (analyzeLoopedStack_terminates bound IH do_
                (Block (CONTROL_REPEAT times do_) yields
                       entryState exitState) ltac:(unfold stack_size; lia)
                Hwf s Hs) as (fuel & r & H).
    exists (S fuel), r. exact H.
  - apply andb_true_iff in Hwf as [HwT HwF].
    destruct (analyzeStack_terminates bound IH whenTrue
                ltac:(unfold stack_size; lia) HwT s Hs)
      as (fT & [[mt stackT] sT] & HT).
    destruct (analyzeStack_terminates bound IH whenFalse
                ltac:(unfold stack_size; lia) HwF s Hs)
      as (fF & [[mf stackF] sF] & HF).
    exists (S (Nat.max fT fF)). simpl. rewrite clone_id.
    rewrite (analyzeStack_mono _ _
               (analyzeStackBlock_mono fT (Nat.max fT fF) ltac:(lia))
               _ _ _ HT).
    simpl.
    rewrite (analyzeStack_mono _ _
               (analyzeStackBlock_mono fF (Nat.max fT fF) ltac:(lia))
               _ _ _ HF).
    simpl. destruct mf; [| destruct (TypeState.or sF sT)];
      eexists; reflexivity.
Qed.

Theorem analyze_terminates (stack : IntermediateStack) (state : TypeState) :
  stack_wf stack = true -> state_wf state ->
  exists fuel0,
    forall fuel, (fuel0 <= fuel)%nat ->
                 exists r, analyze fuel stack state = Some r.
Proof.
  intros Hwf Hs.
  destruct (analyzeStack_terminates (stack_size stack)
              (analyzeStackBlock_terminates (stack_size stack))
              stack ltac:(lia) Hwf state Hs) as (fuel0 & r & H).
  exists fuel0. intros fuel Hle. exists r.
  exact (analyze_mono fuel0 fuel stack state r Hle H).
Qed.

(* ===================================================================== *)
(** * Properties of the analysis of stacks *)
(* ===================================================================== *)

(** C4, evaluated on a branch whose false arm assigns.  Entered with x
    known positive, the true branch leaves x a STRING and the false
    branch assigns y.  Because the false branch changed the state, the
    short-circuit assignment never calls [or]: the state after the block
    is the exit state of the false branch alone, where x is still
    NUMBER_POS, whereas the join of both exits has x possibly a STRING. *)
Theorem C4_if_else_join_skipped :
  analyze 1 (Some [Examples.plain
                     (VAR_SET (Examples.var "x")
                        (Examples.stringConstant InputType.STRING "hello"))])
          Examples.branchEntry
  = Some (true,
          Some [Block (VAR_SET (Examples.var "x")
                         (Examples.stringConstant InputType.STRING "hello"))
                      false None (Some Examples.branchTrueExit)],
          Examples.branchTrueExit)
  /\ match analyzeStackBlock 2 Examples.branchBlock Examples.branchEntry with
     | Some (modified, _, state) =>
         modified = true
         /\ state = Examples.branchFalseExit
         /\ TypeState.getVariableType state (Examples.var "x")
            = InputType.NUMBER_POS
     | None => False
     end
  /\ TypeState.getVariableType Examples.branchJoin (Examples.var "x")
     = Z.lor InputType.NUMBER_POS InputType.STRING
  /\ TypeState.getVariableType Examples.branchJoin (Examples.var "y")
     = InputType.ANY.
Proof.
  split; [vm_compute; reflexivity |].
  split; [vm_compute; repeat split |].
  split; vm_compute; reflexivity.
Qed.

Lemma analyzeStackBlock_exitState (fuel : nat) :
  forall b s m b' s',
    analyzeStackBlock fuel b s = Some (m, b', s') ->
    block_exitState b'
    = if isLoopNode (block_node b) && block_yields b then Some ∅
      else block_exitState b.
Proof.
  destruct fuel as [| fuel]; intros b s m b' s' H; [discriminate |].
  destruct b as [node yields entryState exitState].
  simpl in H. destruct node; simpl in H |- *.
  all: try (injection H as <- <- <-; reflexivity).
  - destruct (TypeState.setVariableType _ _ _).
    injection H as <- <- <-. reflexivity.
  - unfold analyzeLoopedStack in H. simpl in H. destruct yields.
    + destruct (analyzeStack _ do_ ∅) as [[[? ?] ?] |]; simpl in H;
        [| discriminate].
      injection H as <- <- <-. reflexivity.
    + destruct (iterateLoop _ fuel do_ s) as [[[? ?] ?] |]; simpl in H;
        [| discriminate].
      injection H as <- <- <-. reflexivity.
  - unfold analyzeLoopedStack in H. simpl in H. destruct yields.
    + destruct (analyzeStack _ do_ ∅) as [[[? ?] ?] |]; simpl in H;
        [| discriminate].
      injection H as <- <- <-. reflexivity.
    + destruct (iterateLoop _ fuel do_ s) as [[[? ?] ?] |]; simpl in H;
        [| discriminate].
      injection H as <- <- <-. reflexivity.
  - unfold analyzeLoopedStack in H. simpl in H. destruct yields.
    + destruct (analyzeStack _ do_ ∅) as [[[? ?] ?] |]; simpl in H;
        [| discriminate].
      injection H as <- <- <-. reflexivity.
    + destruct (iterateLoop _ fuel do_ s) as [[[? ?] ?] |]; simpl in H;
        [| discriminate].
      injection H as <- <- <-. reflexivity.
  - destruct (analyzeStack _ whenTrue _) as [[[? ?] ?] |]; simpl in H;
      [| discriminate].
    destruct (analyzeStack _ whenFalse _) as [[[[|] ?] ?] |]; simpl in H;
      [| | discriminate].
    + injection H as <- <- <-. reflexivity.
    + destruct (TypeState.or _ _). injection H as <- <- <-. reflexivity.
Qed.

(** C9 fails as stated: a block that leaves the variables alone is
    visited and gets no exit state. *)
Lemma C9_counterexample :
  analyze 1 (Some [Examples.showBlock]) TypeState.create
  = Some (false, Some [Examples.showBlock], TypeState.create)
  /\ block_exitState Examples.showBlock = None.
Proof. split; reflexivity. Qed.

(** C9, amended.  [analyzeStack] writes the exit state of a block exactly
    when a change is reported for it: the block's own analysis reported
    one, or the block yields and clearing the state changed it.  The
    annotation then becomes the state after the block, joined by [or]
    into the annotation the block already had, if any; for a yielding
    loop the annotation it already had is the cleared state that
    [analyzeLoopedStack] has just stored.  When no change is reported the
    block is left as its own analysis returned it. *)
Theorem C9_exit_state_recorded
    (fuel : nat) (stackBlock : IntermediateStackBlock)
    (rest : list IntermediateStackBlock) (state : TypeState)
    (modified : bool)
    (changed : bool) (analyzed : IntermediateStackBlock)
    (after : TypeState)
    (modified' : bool) (blocks' : list IntermediateStackBlock)
    (final : TypeState) :
  analyzeStackBlock fuel stackBlock state = Some (changed, analyzed, after) ->
  analyzeBlocks (analyzeStackBlock fuel) (stackBlock :: rest) state modified
  = Some (modified', blocks', final) ->
  let cleared := block_yields stackBlock && negb changed in
  let reported := changed || (cleared && fst (TypeState.clear after)) in
  let exit := if cleared then ∅ else after in
  let previous :=
    if isLoopNode (block_node stackBlock) && block_yields stackBlock
    then Some ∅ else block_exitState stackBlock in
  exists recorded rest',
    blocks' = recorded :: rest'
    /\ (reported = true ->
        modified' = true
        /\ block_exitState recorded
           = Some match previous with
                  | Some old => snd (TypeState.or old exit)
                  | None => exit
                  end)
    /\ (reported = false -> recorded = analyzed).
Proof.
  intros Hblock Hstack. simpl in Hstack. rewrite Hblock in Hstack.
  simpl in Hstack.
  pose proof (analyzeStackBlock_exitState _ _ _ _ _ _ Hblock) as Hexit.
  destruct (analyzeStackBlock_preserves _ _ _ _ _ _ Hblock)
    as [(_ & _ & Hyields) _].
  destruct (recordExit changed analyzed after) as [[c2 b2] s2] eqn:Hrec.
  destruct (analyzeBlocks (analyzeStackBlock fuel) rest s2 (modified || c2))
    as [[[m3 rest3] s3] |] eqn:Hrest; simpl in Hstack; [| discriminate].
  injection Hstack as <- <- <-.
  exists b2, rest3. split; [reflexivity |].
  assert (Hmod : c2 = true -> m3 = true).
  { intros ->. rewrite orb_true_r in Hrest. clear - Hrest.
    revert s2 m3 rest3 s3 Hrest.
    induction rest as [| b rest IH]; intros s2 m3 rest3 s3 H; simpl in H.
    - now injection H as <- _ _.
    - destruct (analyzeStackBlock fuel b s2) as [[[c b1] s1] |];
        simpl in H; [| discriminate].
      destruct (recordExit c b1 s1) as [[c' b'] s'].
      destruct (analyzeBlocks _ rest s' true) as [[[m r] s] |] eqn:E;
        simpl in H; [| discriminate].
      injection H as <- _ _. exact (IH _ _ _ _ E). }
  unfold recordExit in Hrec. rewrite Hyields, Hexit in Hrec.
  cbv zeta.
  destruct (block_yields stackBlock), changed; simpl in Hrec |- *.
  - injection Hrec as <- <- <-. split; [| discriminate].
    intros _. split; [auto |]. simpl.
    destruct (isLoopNode _ && true), (block_exitState stackBlock);
      simpl; rewrite ?clone_id; reflexivity.
  - destruct (map_fold _ false after) eqn:Hclear; simpl in Hrec;
      injection Hrec as <- <- <-.
    + split; [| discriminate]. intros _. split; [auto |]. simpl.
      destruct (isLoopNode _ && true), (block_exitState stackBlock);
        simpl; rewrite ?clone_id; reflexivity.
    + split; [discriminate | reflexivity].
  - injection Hrec as <- <- <-. split; [| discriminate].
    intros _. split; [auto |]. simpl. rewrite andb_false_r.
    destruct (block_exitState stackBlock); simpl; rewrite ?clone_id;
      reflexivity.
  - injection Hrec as <- <- <-. split; [discriminate | reflexivity].
Qed.

(** The hypothesis on the annotations matters: with a type outside the
    lattice the state of the loop below alternates between two values
    and [or] reports a change in every round, so no amount of fuel
    suffices. *)
Lemma oscillating_loop_never_stops (n : nat) :
  forall fuel exitState state,
    state = ∅
    \/ state = {[ "x" := Examples.outsideType ]}
    \/ state = {[ "x" := InputType.ANY ]} ->
    iterateLoop (analyzeStackBlock fuel) n
      (Examples.oscillatingBody exitState) state
    = None.
Proof.
  induction n as [| n IH]; intros fuel exitState state Hstate;
    [reflexivity |].
  destruct fuel as [| fuel]; [reflexivity |].
  assert (Hnext :
            forall exitState' next,
              next = {[ "x" := Examples.outsideType ]}
              \/ next = {[ "x" := InputType.ANY ]} ->
              iterateLoop (analyzeStackBlock (S fuel)) n
                (Examples.oscillatingBody exitState') next
              = None)
    by (intros; apply IH; auto).
  destruct Hstate as [-> | [-> | ->]].
  - destruct exitState as [previous |];
      [ change (iterateLoop (analyzeStackBlock (S fuel)) n
                  (Examples.oscillatingBody
                     (Some (snd (TypeState.or previous
                                   {[ "x" := Examples.outsideType ]}))))
                  {[ "x" := Examples.outsideType ]} = None)
      | change (iterateLoop (analyzeStackBlock (S fuel)) n
                  (Examples.oscillatingBody
                     (Some (TypeState.clone
                              {[ "x" := Examples.outsideType ]})))
                  {[ "x" := Examples.outsideType ]} = None) ];
      apply Hnext; auto.
  - destruct exitState as [previous |];
      [ change (iterateLoop (analyzeStackBlock (S fuel)) n
                  (Examples.oscillatingBody
                     (Some (snd (TypeState.or previous ∅))))
                  {[ "x" := InputType.ANY ]} = None)
      | change (iterateLoop (analyzeStackBlock (S fuel)) n
                  (Examples.oscillatingBody (Some (TypeState.clone ∅)))
                  {[ "x" := InputType.ANY ]} = None) ];
      apply Hnext; auto.
  - destruct exitState as [previous |];
      [ change (iterateLoop (analyzeStackBlock (S fuel)) n
                  (Examples.oscillatingBody
                     (Some (snd (TypeState.or previous
                                   {[ "x" := Examples.outsideType ]}))))
                  {[ "x" := Examples.outsideType ]} = None)
      | change (iterateLoop (analyzeStackBlock (S fuel)) n
                  (Examples.oscillatingBody
                     (Some (TypeState.clone
                              {[ "x" := Examples.outsideType ]})))
                  {[ "x" := Examples.outsideType ]} = None) ];
      apply Hnext; auto.
Qed.

Lemma analyzeStack_head_None f (b : IntermediateStackBlock)
    (rest : list IntermediateStackBlock) (s : TypeState) :
  f b s = None -> analyzeStack f (Some (b :: rest)) s = None.
Proof. intros H. simpl. rewrite H. reflexivity. Qed.

Lemma oscillating_loop_diverges (fuel : nat) :
  block_wf Examples.oscillatingBlock = false
  /\ analyze fuel (Some [Examples.oscillatingBlock]) TypeState.create = None.
Proof.
  split; [reflexivity |].
  apply analyzeStack_head_None.
  destruct fuel as [| fuel]; [reflexivity |].
  change (analyzeLoopedStack (analyzeStackBlock fuel) fuel
            (Examples.oscillatingBody None) ∅ Examples.oscillatingBlock
          = None).
  unfold analyzeLoopedStack.
  change (block_yields Examples.oscillatingBlock) with false. cbv iota.
  rewrite (oscillating_loop_never_stops fuel fuel None ∅); auto.
Qed.

(** A yielding loop is analyzed by one pass over its body from the
    cleared state. *)
Lemma analyzeLoopedStack_yields (fuel : nat) (node : StackNode)
    (do_ : IntermediateStack) (state : TypeState)
    (entryState exitState : option (gmap string Z)) :
  analyzeLoopedStack (analyzeStackBlock fuel) fuel do_ state
    (Block node true entryState exitState)
  = yieldingLoopAnalysis fuel node do_ state.
Proof.
  unfold analyzeLoopedStack, yieldingLoopAnalysis. simpl.
  rewrite clone_id.
  destruct (analyzeStack (analyzeStackBlock fuel) do_ ∅)
    as [[[bodyModified body] after] |]; reflexivity.
Qed.

(** C6.  On an IR whose type annotations are lattice elements, and from a
    state whose entries are lattice elements, the analysis of a stack
    returns a result once the fuel is large enough, so every fixed-point
    loop stops after finitely many rounds.  The reason is the one the
    specification gives: [or] only makes the entries of the state grow, and a
    round in which [or] reports a change strictly lowers the number of
    bits the entries still lack, which is never negative.  A loop block
    whose yields flag is set is not iterated: the state is cleared, the
    cleared state is recorded as the entry state, and the body is
    analyzed once from it. *)
Theorem C6_fixed_point_terminates
    (stack : IntermediateStack) (state other : TypeState) :
  stack_wf stack = true ->
  state_wf state ->
  state_wf other ->
  (exists fuel0,
      forall fuel, (fuel0 <= fuel)%nat ->
                   exists r, analyze fuel stack state = Some r)
  /\ (grows state (snd (TypeState.or state other))
      /\ state_wf (snd (TypeState.or state other))
      /\ 0 <= deficit (snd (TypeState.or state other))
      /\ (fst (TypeState.or state other) = true ->
          deficit (snd (TypeState.or state other)) < deficit state))
  /\ (forall fuel condition do_ warpTimer entryState exitState,
         analyzeStackBlock (S fuel)
           (Block (CONTROL_WHILE condition do_ warpTimer) true
                  entryState exitState) state
         = yieldingLoopAnalysis fuel
             (CONTROL_WHILE condition do_ warpTimer) do_ state)
  /\ (forall fuel variable count do_ entryState exitState,
         analyzeStackBlock (S fuel)
           (Block (CONTROL_FOR variable count do_) true
                  entryState exitState) state
         = yieldingLoopAnalysis fuel
             (CONTROL_FOR variable count do_) do_ state)
  /\ (forall fuel times do_ entryState exitState,
         analyzeStackBlock (S fuel)
           (Block (CONTROL_REPEAT times do_) true entryState exitState) state
         = yieldingLoopAnalysis fuel (CONTROL_REPEAT times do_) do_ state).
Proof.
  intros Hwf Hstate Hother.
  split; [now apply analyze_terminates |].
  split.
  { destruct (or_grows state other Hstate Hother) as (Hg & Hs & Hlt).
    repeat split; try assumption; try apply Hg.
    now apply deficit_nonneg. }
  repeat split; intros; apply analyzeLoopedStack_yields.
Qed.

Lemma C6_fixed_point_terminates_witness :
  exists fuel0,
    forall fuel, (fuel0 <= fuel)%nat ->
                 exists r,
                   analyze fuel (Some [Examples.countBlock])
                           Examples.countEntry = Some r.
Proof.
  refine (proj1 (C6_fixed_point_terminates (Some [Examples.countBlock])
                   Examples.countEntry TypeState.create _ _ _)).
  - reflexivity.
  - intros k v H. unfold Examples.countEntry in H.
    apply lookup_singleton_Some in H as [_ <-]. reflexivity.
  - apply state_wf_empty.
Defined.

Lemma C9_exit_state_recorded_witness :
  exists recorded rest',
    [Block (VAR_SET (Examples.var "x") (Examples.numberConstant 1))
           false None (Some {[ "x" := InputType.NUMBER_POS ]})]
    = recorded :: rest'
    /\ (true = true ->
        true = true
        /\ block_exitState recorded
           = Some {[ "x" := InputType.NUMBER_POS ]})
    /\ (true = false -> recorded = Examples.setBlock).
Proof.
  refine (C9_exit_state_recorded 1 Examples.setBlock [] TypeState.create
            false true Examples.setBlock {[ "x" := InputType.NUMBER_POS ]}
            true _ {[ "x" := InputType.NUMBER_POS ]} _ _).
  - vm_compute. reflexivity.
  - vm_compute. reflexivity.
Defined.

(* ===================================================================== *)
(** * Properties of the rewriter *)
(* ===================================================================== *)

(** Induction over inputs that reaches the entries of [inputs]. *)
Lemma IntermediateInput_induction (P : IntermediateInput -> Prop) :
  (forall type value, P (CONSTANT type value)) ->
  (forall type variable, P (VAR_GET type variable)) ->
  (forall opcode type target, P target -> P (CAST opcode type target)) ->
  (forall opcode type lhs rhs,
      P lhs -> P rhs -> P (ARITH opcode type lhs rhs)) ->
  (forall opcode type inputs,
      Forall (fun entry => P (snd entry)) inputs ->
      P (OTHER opcode type inputs)) ->
  forall input, P input.
Proof.
  intros Hconstant Hvar Hcast Harith Hother.
  fix IH 1. intros [type value | type variable | opcode type target
                   | opcode type lhs rhs | opcode type inputs].
  - apply Hconstant.
  - apply Hvar.
  - apply Hcast, IH.
  - apply Harith; apply IH.
  - apply Hother.
    refine ((fix all (l : list (string * IntermediateInput))
               : Forall (fun entry => P (snd entry)) l :=
               match l with
               | [] => @List.Forall_nil _ _
               | entry :: rest =>
                   @List.Forall_cons _ _ entry rest (IH (snd entry))
                     (all rest)
               end) inputs).
Qed.

Lemma optimizeInput_OTHER (opcode : string) (type : Z)
    (inputs : list (string * IntermediateInput)) (state : TypeState) :
  optimizeInput (OTHER opcode type inputs) state
  = OTHER opcode type
      (List.map (fun entry => (fst entry, optimizeInput (snd entry) state))
                inputs).
Proof.
  simpl. f_equal.
  induction inputs as [| [key input] rest IH]; simpl; [reflexivity |].
  now rewrite IH.
Qed.

Lemma optimizeInput_idempotent (state : TypeState) :
  forall input,
    optimizeInput (optimizeInput input state) state
    = optimizeInput input state.
Proof.
  induction input as [type value | type variable | opcode type target IH
                     | opcode type lhs rhs IHl IHr | opcode type inputs IH]
    using IntermediateInput_induction.
  - reflexivity.
  - reflexivity.
  - destruct opcode; simpl.
    + rewrite IH. reflexivity.
    + destruct (Z.land _ _ =? _) eqn:Hsub; [exact IH |].
      simpl. rewrite IH, Hsub. reflexivity.
    + destruct (Z.land _ _ =? _) eqn:Hsub; [exact IH |].
      simpl. rewrite IH, Hsub. reflexivity.
    + rewrite IH. reflexivity.
  - simpl. rewrite IHl, IHr. reflexivity.
  - rewrite !optimizeInput_OTHER. f_equal.
    rewrite List.map_map. simpl.
    induction IH as [| entry rest Hentry _ IHrest]; simpl; [reflexivity |].
    now rewrite Hentry, IHrest.
Qed.

Lemma stripNumberCasts_OTHER (opcode : string) (type : Z)
    (inputs : list (string * IntermediateInput)) :
  stripNumberCasts (OTHER opcode type inputs)
  = OTHER opcode 0
      (List.map (fun entry => (fst entry, stripNumberCasts (snd entry)))
                inputs).
Proof.
  simpl. f_equal.
  induction inputs as [| [key input] rest IH]; simpl; [reflexivity |].
  now rewrite IH.
Qed.







(* ===================================================================== *)
(** * Further properties of TypeState *)
(* ===================================================================== *)

(** The flag of the first loop of [or] is set exactly when some entry of
    [other] adds a bit to what [this] holds for that name. *)
Lemma or_join_flag (this other : TypeState) :
  fst (TypeState.or_join this other) = true
  <-> exists k v,
        other !! k = Some v
        /\ default InputType.ANY (this !! k)
           <> Z.lor (default InputType.ANY (this !! k)) v.
Proof.
  split; [apply or_join_spec |].
  unfold TypeState.or_join.
  apply (map_fold_weak_ind
           (fun (r : bool * TypeState) (m : TypeState) =>
              (forall k, m !! k = None -> snd r !! k = this !! k)
              /\ ((exists k v,
                      m !! k = Some v
                      /\ default InputType.ANY (this !! k)
                         <> Z.lor (default InputType.ANY (this !! k)) v) ->
                  fst r = true))).
  - split; [reflexivity |]. intros (k & v & Hk & _).
    rewrite lookup_empty in Hk. discriminate.
  - intros i x m [modified vars] Hfresh [Hlook Hmod]. simpl in *. split.
    + intros k Hk. apply lookup_insert_None in Hk as [Hk Hne].
      rewrite lookup_insert_ne by assumption. auto.
    + intros (k & v & Hk & Hv). apply orb_true_iff.
      destruct (decide (i = k)) as [-> | Hne].
      * right. rewrite lookup_insert_eq in Hk. injection Hk as ->.
        rewrite (Hlook k Hfresh).
        apply negb_true_iff, Z.eqb_neq. exact Hv.
      * left. apply Hmod. exists k, v.
        rewrite lookup_insert_ne in Hk by assumption. auto.
Qed.

(** The flag of the second loop of [or]: the incoming flag, or some entry
    that [other] does not know and that is not ANY yet. *)
Lemma or_promote_flag (other : TypeState) (modified : bool)
    (vars : TypeState) :
  fst (TypeState.or_promote other (modified, vars)) = true
  <-> modified = true
      \/ exists k v,
           vars !! k = Some v
           /\ TypeState.falsy (other !! k) = true
           /\ v <> InputType.ANY.
Proof.
  split; [apply or_promote_spec |].
  unfold TypeState.or_promote. simpl.
  apply (map_fold_weak_ind
           (fun (r : bool * TypeState) (m : TypeState) =>
              (modified = true
               \/ exists k v,
                    m !! k = Some v
                    /\ TypeState.falsy (other !! k) = true
                    /\ v <> InputType.ANY) ->
              fst r = true)).
  - intros [H | (k & v & Hk & _)]; [exact H |].
    rewrite lookup_empty in Hk. discriminate.
  - intros i x m [md vs] Hfresh IH H. simpl in *.
    destruct (TypeState.falsy (other !! i)) eqn:Hf;
      [destruct (negb (x =? InputType.ANY)) eqn:Hx |]; simpl;
      try reflexivity; apply IH;
      (destruct H as [H | (k & v & Hk & Hfk & Hv)]; [left; exact H | right]);
      exists k, v;
      (destruct (decide (i = k)) as [-> | Hne];
       [rewrite lookup_insert_eq in Hk; injection Hk as ->
       | rewrite lookup_insert_ne in Hk by assumption; auto]).
    + apply negb_false_iff, Z.eqb_eq in Hx. contradiction.
    + congruence.
Qed.

(** What a variable reads after [or]. *)
Lemma or_getVariableType (this other : TypeState) (x : VariableRef) :
  TypeState.getVariableType (snd (TypeState.or this other)) x
  = if TypeState.falsy (other !! name x) then InputType.ANY
    else Z.lor (TypeState.getVariableType this x)
               (TypeState.getVariableType other x).
Proof.
  unfold TypeState.getVariableType. rewrite or_lookup.
  destruct (other !! name x) as [v |] eqn:Ho; simpl.
  - destruct (v =? 0) eqn:Hv; simpl.
    + apply Z.eqb_eq in Hv. subst v. rewrite Z.lor_0_r.
      destruct (default InputType.ANY (this !! name x) =? InputType.ANY)
        eqn:Ha; simpl; [apply Z.eqb_eq in Ha; exact Ha | reflexivity].
    + reflexivity.
  - destruct (this !! name x) as [a |]; simpl; [| reflexivity].
    destruct (a =? InputType.ANY) eqn:Ha; simpl;
      [apply Z.eqb_eq in Ha; exact Ha | reflexivity].
Qed.

(** The flag of [clear]. *)
Lemma clear_flag (this : TypeState) :
  fst (TypeState.clear this) = true
  <-> exists k v, this !! k = Some v /\ v <> InputType.ANY.
Proof.
  unfold TypeState.clear. simpl.
  apply (map_fold_weak_ind
           (fun (r : bool) (m : TypeState) =>
              r = true
              <-> exists k v, m !! k = Some v /\ v <> InputType.ANY)).
  - split; [discriminate |]. intros (k & v & Hk & _).
    rewrite lookup_empty in Hk. discriminate.
  - intros i x m r Hfresh IH. rewrite orb_true_iff, IH. split.
    + intros [(k & v & Hk & Hv) | H].
      * exists k, v. split; [| exact Hv].
        rewrite lookup_insert_ne; [exact Hk | congruence].
      * exists i, x. split; [apply lookup_insert_eq |].
        apply negb_true_iff, Z.eqb_neq in H. exact H.
    + intros (k & v & Hk & Hv).
      destruct (decide (i = k)) as [-> | Hne].
      * right. rewrite lookup_insert_eq in Hk. injection Hk as ->.
        apply negb_true_iff, Z.eqb_neq. exact Hv.
      * left. exists k, v.
        rewrite lookup_insert_ne in Hk by assumption. auto.
Qed.

(** The flag of [or] is set exactly when some variable reads differently
    afterwards. *)
Lemma or_flag (this other : TypeState) :
  fst (TypeState.or this other) = true
  <-> exists x,
        TypeState.getVariableType (snd (TypeState.or this other)) x
        <> TypeState.getVariableType this x.
Proof.
  unfold TypeState.or at 1.
  destruct (TypeState.or_join this other) as [m1 v1] eqn:Hjoin.
  rewrite or_promote_flag.
  pose proof (or_join_flag this other) as Hflag.
  pose proof (proj1 (or_join_spec this other)) as Hlook.
  rewrite Hjoin in Hflag, Hlook. simpl in Hflag, Hlook.
  split.
  - intros [Hm | (k & v & Hk & Hf & Hv)].
    + apply Hflag in Hm as (k & v & Hk & Hne).
      exists (mkVariable k k EmptyString false).
      rewrite or_getVariableType. unfold TypeState.getVariableType. simpl.
      rewrite Hk. simpl.
      destruct (v =? 0) eqn:Hv; [| congruence].
      apply Z.eqb_eq in Hv. subst v. rewrite Z.lor_0_r in Hne. congruence.
    + exists (mkVariable k k EmptyString false).
      rewrite or_getVariableType. unfold TypeState.getVariableType. simpl.
      rewrite Hf. rewrite Hlook in Hk.
      destruct (other !! k) as [o |] eqn:Ho; simpl in *.
      * apply Z.eqb_eq in Hf. subst o. rewrite Z.lor_0_r in Hk.
        injection Hk as <-. congruence.
      * rewrite Hk. simpl. congruence.
  - intros [x Hx]. rewrite or_getVariableType in Hx.
    unfold TypeState.getVariableType in Hx.
    destruct (TypeState.falsy (other !! name x)) eqn:Hf.
    + right. destruct (this !! name x) as [a |] eqn:Ha; simpl in Hx;
        [| congruence].
      exists (name x), a. repeat split; [| exact Hf | congruence].
      rewrite Hlook, Ha.
      destruct (other !! name x) as [o |]; simpl in *; [| reflexivity].
      apply Z.eqb_eq in Hf. subst o. rewrite Z.lor_0_r. reflexivity.
    + left. apply Hflag.
      destruct (other !! name x) as [o |] eqn:Ho; simpl in *;
        [| discriminate].
      exists (name x), o. split; [exact Ho | congruence].
Qed.

(** A second [or] with the same state leaves the entries as they are. *)
Lemma or_again (this other : TypeState) :
  snd (TypeState.or (snd (TypeState.or this other)) other)
  = snd (TypeState.or this other).
Proof.
  apply map_eq. intros k. rewrite or_lookup. rewrite or_lookup.
  destruct (other !! k) as [v |] eqn:Ho; simpl.
  - destruct (v =? 0) eqn:Hv; simpl.
    + apply Z.eqb_eq in Hv. subst v. rewrite !Z.lor_0_r.
      destruct (default InputType.ANY (this !! k) =? InputType.ANY) eqn:Ha;
        simpl; rewrite ?Ha; reflexivity.
    + rewrite <- Z.lor_assoc, Z.lor_diag. reflexivity.
  - destruct (this !! k) as [a |]; simpl; [| reflexivity].
    destruct (a =? InputType.ANY) eqn:Ha; simpl; rewrite ?Ha; reflexivity.
Qed.

(** X1.  [setVariableType] followed by [getVariableType], for variables
    that are not named like a property of [Object.prototype]: the
    variable reads the type that was set, and so does every variable of
    the same name, whatever its id, because the state is keyed by name;
    variables of other names read what they read before.  The flag is
    false exactly when the variable already read that type. *)
Theorem X1_setVariableType_then_get
    (state : TypeState) (variable other : VariableRef) (type : Z) :
  plainKey (name variable) = true ->
  plainKey (name other) = true ->
  fst (TypeState.setVariableType state variable type)
  = negb (TypeState.getVariableType state variable =? type)
  /\ TypeState.getVariableType
       (snd (TypeState.setVariableType state variable type)) other
     = if String.eqb (name other) (name variable) then type
       else TypeState.getVariableType state other.
Proof.
  intros _ _. unfold TypeState.setVariableType.
  destruct (TypeState.getVariableType state variable =? type) eqn:Hsame;
    simpl; (split; [reflexivity |]).
  - apply Z.eqb_eq in Hsame.
    destruct (String.eqb_spec (name other) (name variable)) as [He | He];
      [| reflexivity].
    unfold TypeState.getVariableType in *. rewrite He. exact Hsame.
  - unfold TypeState.getVariableType.
    destruct (String.eqb_spec (name other) (name variable)) as [He | He].
    + rewrite He, lookup_insert_eq. reflexivity.
    + rewrite lookup_insert_ne by congruence. reflexivity.
Qed.

Lemma X1_setVariableType_then_get_witness :
  let state : TypeState := {[ "y" := InputType.STRING ]} in
  let x := mkVariable "id1" "x" "target" false in
  let x' := mkVariable "id2" "x" "stage" false in
  let y := Examples.var "y" in
  fst (TypeState.setVariableType state x InputType.NUMBER_POS) = true
  /\ TypeState.getVariableType
       (snd (TypeState.setVariableType state x InputType.NUMBER_POS)) x'
     = InputType.NUMBER_POS
  /\ TypeState.getVariableType
       (snd (TypeState.setVariableType state x InputType.NUMBER_POS)) y
     = InputType.STRING.
Proof.
  intros state x x' y.
  destruct (X1_setVariableType_then_get state x x' InputType.NUMBER_POS
              eq_refl eq_refl) as [Hflag Hsame].
  destruct (X1_setVariableType_then_get state x y InputType.NUMBER_POS
              eq_refl eq_refl) as [_ Hother].
  split; [rewrite Hflag; reflexivity |].
  split; [rewrite Hsame | rewrite Hother]; reflexivity.
Defined.

(** X2.  What a variable that is not named like a property of
    [Object.prototype] reads after [this.or(other)]: ANY when [other]
    has no entry for its name or has the entry 0, and otherwise the
    bitwise OR of what the two states read. *)
Theorem X2_or_reads (this other : TypeState) (x : VariableRef) :
  plainKey (name x) = true ->
  TypeState.getVariableType (snd (TypeState.or this other)) x
  = if TypeState.falsy (other !! name x) then InputType.ANY
    else Z.lor (TypeState.getVariableType this x)
               (TypeState.getVariableType other x).
Proof. intros _. apply or_getVariableType. Qed.

Lemma X2_or_reads_witness :
  let this : TypeState :=
    {[ "x" := InputType.NUMBER_POS; "y" := InputType.NUMBER_ZERO ]} in
  let other : TypeState := {[ "x" := InputType.STRING ]} in
  TypeState.getVariableType (snd (TypeState.or this other))
    (Examples.var "x")
  = Z.lor InputType.NUMBER_POS InputType.STRING
  /\ TypeState.getVariableType (snd (TypeState.or this other))
       (Examples.var "y")
     = InputType.ANY.
Proof.
  intros this other.
  rewrite (X2_or_reads this other (Examples.var "x") eq_refl).
  rewrite (X2_or_reads this other (Examples.var "y") eq_refl).
  split; reflexivity.
Defined.

(** X3.  For states none of whose variables is named like a property of
    [Object.prototype], [or] returns true exactly when some such
    variable reads a different type afterwards. *)
Theorem X3_or_flag_exact (this other : TypeState) :
  plainKeys this -> plainKeys other ->
  (fst (TypeState.or this other) = true
   <-> exists x,
         plainKey (name x) = true
         /\ TypeState.getVariableType (snd (TypeState.or this other)) x
            <> TypeState.getVariableType this x).
Proof.
  intros Hthis Hother. rewrite or_flag. split.
  - intros [x Hx]. exists x. split; [| exact Hx].
    rewrite or_getVariableType in Hx.
    unfold TypeState.getVariableType in Hx.
    destruct (this !! name x) as [a |] eqn:Ha; [exact (Hthis _ _ Ha) |].
    destruct (other !! name x) as [o |] eqn:Ho; [exact (Hother _ _ Ho) |].
    simpl in Hx. congruence.
  - intros (x & _ & Hx). exists x. exact Hx.
Qed.

Lemma X3_or_flag_exact_witness :
  let this : TypeState := {[ "x" := InputType.NUMBER_POS ]} in
  let other : TypeState := {[ "x" := InputType.STRING ]} in
  fst (TypeState.or this other) = true
  <-> exists x,
        plainKey (name x) = true
        /\ TypeState.getVariableType (snd (TypeState.or this other)) x
           <> TypeState.getVariableType this x.
Proof.
  intros this other. apply (X3_or_flag_exact this other).
  - intros key type H. apply lookup_singleton_Some in H as [<- _].
    reflexivity.
  - intros key type H. apply lookup_singleton_Some in H as [<- _].
    reflexivity.
Defined.

(** X4.  [or] is idempotent: joining the same state a second time
    returns false and leaves every entry as it is. *)
Theorem X4_or_idempotent (this other : TypeState) :
  TypeState.or (snd (TypeState.or this other)) other
  = (false, snd (TypeState.or this other)).
Proof.
  apply injective_projections; simpl; [| apply or_again].
  destruct (fst (TypeState.or (snd (TypeState.or this other)) other))
    eqn:Hflag; [| reflexivity].
  apply or_flag in Hflag as [x Hx]. rewrite or_again in Hx. congruence.
Qed.

(** X5.  For a state none of whose variables is named like a property
    of [Object.prototype], [clear] returns true exactly when some such
    variable did not read ANY; afterwards every such variable reads
    ANY. *)
Theorem X5_clear_flag_exact (this : TypeState) :
  plainKeys this ->
  (fst (TypeState.clear this) = true
   <-> exists x,
         plainKey (name x) = true
         /\ TypeState.getVariableType this x <> InputType.ANY)
  /\ (forall x,
        plainKey (name x) = true ->
        TypeState.getVariableType (snd (TypeState.clear this)) x
        = InputType.ANY).
Proof.
  intros Hthis. split; [| reflexivity].
  rewrite clear_flag. unfold TypeState.getVariableType. split.
  - intros (k & v & Hk & Hv).
    exists (mkVariable k k EmptyString false). simpl.
    split; [exact (Hthis _ _ Hk) | rewrite Hk; exact Hv].
  - intros (x & _ & Hx).
    destruct (this !! name x) as [v |] eqn:Hk; simpl in Hx;
      [| congruence].
    exists (name x), v. auto.
Qed.

Lemma X5_clear_flag_exact_witness :
  let this : TypeState := {[ "x" := InputType.NUMBER_POS ]} in
  fst (TypeState.clear this) = true
  /\ TypeState.getVariableType (snd (TypeState.clear this))
       (Examples.var "x")
     = InputType.ANY.
Proof.
  intros this.
  assert (Hplain : plainKeys this).
  { intros key type H. apply lookup_singleton_Some in H as [<- _].
    reflexivity. }
  destruct (X5_clear_flag_exact this Hplain) as [Hflag Hreads].
  split; [| apply Hreads; reflexivity].
  apply Hflag. exists (Examples.var "x").
  split; [reflexivity | discriminate].
Defined.

(* ===================================================================== *)
(** * Further properties of the transfer functions *)
(* ===================================================================== *)

(** The subset test, bit by bit. *)
Lemma subsetOf_spec (a b : Z) :
  subsetOf a b = true
  <-> forall n, 0 <= n -> Z.testbit a n = true -> Z.testbit b n = true.
Proof.
  unfold subsetOf. rewrite Z.eqb_eq. split.
  - intros H n Hn Ha. rewrite <- H, Z.land_spec in Ha.
    apply andb_true_iff in Ha. tauto.
  - intros H. apply Z.bits_inj'. intros n Hn. rewrite Z.land_spec.
    destruct (Z.testbit a n) eqn:Ha; [| reflexivity].
    rewrite (H n Hn Ha). reflexivity.
Qed.

Lemma subsetOf_refl (a : Z) : subsetOf a a = true.
Proof. apply subsetOf_spec. auto. Qed.

Lemma subsetOf_lor_mono (a a' b b' : Z) :
  subsetOf a a' = true -> subsetOf b b' = true ->
  subsetOf (Z.lor a b) (Z.lor a' b') = true.
Proof.
  rewrite !subsetOf_spec. intros Ha Hb n Hn. rewrite !Z.lor_spec.
  rewrite !orb_true_iff. intros [H | H]; [left | right]; auto.
Qed.

Lemma subsetOf_lor_l (a b T : Z) :
  subsetOf a T = true -> subsetOf b T = true ->
  subsetOf (Z.lor a b) T = true.
Proof.
  rewrite !subsetOf_spec. intros Ha Hb n Hn. rewrite Z.lor_spec.
  rewrite orb_true_iff. intros [H | H]; auto.
Qed.

Lemma subsetOf_lor_r (a b c : Z) :
  subsetOf a b = true -> subsetOf a (Z.lor b c) = true.
Proof.
  rewrite !subsetOf_spec. intros Ha n Hn H. rewrite Z.lor_spec.
  rewrite (Ha n Hn H). reflexivity.
Qed.

Lemma orWhen_subsetOf (c : bool) (bits acc T : Z) :
  subsetOf bits T = true -> subsetOf acc T = true ->
  subsetOf (orWhen c bits acc) T = true.
Proof.
  intros Hb Ha. unfold orWhen. destruct c; [| exact Ha].
  now apply subsetOf_lor_l.
Qed.

Lemma orWhen_mono (c c' : bool) (bits bits' acc acc' : Z) :
  implb c c' = true -> subsetOf bits bits' = true ->
  subsetOf acc acc' = true ->
  subsetOf (orWhen c bits acc) (orWhen c' bits' acc') = true.
Proof.
  intros Hc Hb Ha. unfold orWhen. destruct c, c'; try discriminate.
  - now apply subsetOf_lor_mono.
  - now apply subsetOf_lor_r.
  - exact Ha.
Qed.

(** [has] grows with the type and with the mask. *)
Lemma has_mono (type type' mask : Z) :
  subsetOf type type' = true ->
  implb (has type mask) (has type' mask) = true.
Proof.
  intros H. unfold has.
  destruct (Z.land type mask =? 0) eqn:E; [reflexivity |]. simpl.
  destruct (Z.land type' mask =? 0) eqn:E'; [| reflexivity].
  apply Z.eqb_neq in E. apply Z.eqb_eq in E'. exfalso. apply E.
  unfold subsetOf in H. apply Z.eqb_eq in H.
  rewrite <- H, <- Z.land_assoc, E'. apply Z.land_0_r.
Qed.

Lemma has_mask (type mask mask' : Z) :
  subsetOf mask mask' = true -> has type mask' = false ->
  has type mask = false.
Proof.
  unfold has, subsetOf. rewrite !negb_false_iff, !Z.eqb_eq.
  intros H E. rewrite <- H, Z.land_assoc, (Z.land_comm type mask).
  rewrite <- Z.land_assoc, E. apply Z.land_0_r.
Qed.

Lemma implb_andb (a a' b b' : bool) :
  implb a a' = true -> implb b b' = true ->
  implb (a && b) (a' && b') = true.
Proof. destruct a, a', b, b'; auto. Qed.

Lemma implb_orb (a a' b b' : bool) :
  implb a a' = true -> implb b b' = true ->
  implb (a || b) (a' || b') = true.
Proof. destruct a, a', b, b'; auto. Qed.

Section TransferMonotone.
Variables l l' r r' : Z.
Hypothesis Hl : subsetOf l l' = true.
Hypothesis Hr : subsetOf r r' = true.

Lemma canBeFractional_mono :
  implb (canBeFractional l r) (canBeFractional l' r') = true.
Proof. apply implb_orb; now apply has_mono. Qed.

Lemma posBits_mono : subsetOf (posBits l r) (posBits l' r') = true.
Proof.
  apply orWhen_mono;
    [apply canBeFractional_mono | apply subsetOf_refl ..].
Qed.

Lemma negBits_mono : subsetOf (negBits l r) (negBits l' r') = true.
Proof.
  apply orWhen_mono;
    [apply canBeFractional_mono | apply subsetOf_refl ..].
Qed.

Lemma analyzeArith_mono (opcode : ArithOpcode) :
  subsetOf (analyzeArith l r opcode) (analyzeArith l' r' opcode) = true.
Proof.
  destruct opcode; cbv [analyzeArith analyzeAdd analyzeSubtract
                        analyzeMultiply analyzeDivide];
    repeat (apply orWhen_mono;
            [repeat first [apply implb_orb | apply implb_andb];
             now apply has_mono
            | first [apply posBits_mono | apply negBits_mono
                    | apply subsetOf_refl]
            |]);
    apply subsetOf_refl.
Qed.
End TransferMonotone.

(** X6.  Whatever the operand types, the type the analyzer gives an ADD,
    SUBTRACT, MULTIPLY or DIVIDE is a set of number refinements: it has no
    STRING, STRING_NUM or BOOLEAN bit and no bit outside the lattice. *)
Theorem X6_analyzeArith_is_numeric
    (opcode : ArithOpcode) (leftType rightType : Z) :
  subsetOf (analyzeArith leftType rightType opcode) InputType.NUMBER_OR_NAN
  = true.
Proof.
  destruct opcode; cbv [analyzeArith analyzeAdd analyzeSubtract
                        analyzeMultiply analyzeDivide posBits negBits];
    repeat (apply orWhen_subsetOf;
            [first [reflexivity | apply orWhen_subsetOf; reflexivity] |]);
    reflexivity.
Qed.

(** X7.  The four transfer functions are monotone: larger operand types
    give a larger result type. *)
Theorem X7_analyzeArith_monotone
    (opcode : ArithOpcode) (l l' r r' : Z) :
  subsetOf l l' = true -> subsetOf r r' = true ->
  subsetOf (analyzeArith l r opcode) (analyzeArith l' r' opcode) = true.
Proof. intros Hl Hr. now apply analyzeArith_mono. Qed.

Lemma X7_analyzeArith_monotone_witness :
  subsetOf InputType.NUMBER_POS_INT InputType.NUMBER_POS = true
  /\ subsetOf InputType.NUMBER_ZERO InputType.NUMBER_ANY_ZERO = true
  /\ subsetOf
       (analyzeArith InputType.NUMBER_POS_INT InputType.NUMBER_ZERO OP_DIVIDE)
       (analyzeArith InputType.NUMBER_POS InputType.NUMBER_ANY_ZERO OP_DIVIDE)
     = true.
Proof.
  split; [reflexivity |]. split; [reflexivity |].
  apply (X7_analyzeArith_monotone OP_DIVIDE); reflexivity.
Defined.

Ltac has_cases :=
  repeat match goal with
         | |- context [has ?type ?mask] => destruct (has type mask)
         end;
  reflexivity.

(** X8.  The analyses of ADD and of MULTIPLY do not depend on the order
    of the operands. *)
Theorem X8_add_multiply_symmetric (leftType rightType : Z) :
  analyzeArith leftType rightType OP_ADD
  = analyzeArith rightType leftType OP_ADD
  /\ analyzeArith leftType rightType OP_MULTIPLY
     = analyzeArith rightType leftType OP_MULTIPLY.
Proof.
  assert (Hpos : posBits leftType rightType = posBits rightType leftType).
  { unfold posBits, canBeFractional. has_cases. }
  assert (Hneg : negBits leftType rightType = negBits rightType leftType).
  { unfold negBits, canBeFractional. has_cases. }
  split; cbv [analyzeArith analyzeAdd analyzeMultiply];
    rewrite Hpos, Hneg;
    repeat (f_equal; [has_cases |]); f_equal; has_cases.
Qed.

(** X9.  When neither operand type has a number or NaN bit, as for two
    operands typed STRING, the analyzer gives the arithmetic node the
    empty type 0. *)
Theorem X9_analyzeArith_no_numbers
    (opcode : ArithOpcode) (leftType rightType : Z) :
  has leftType InputType.NUMBER_OR_NAN = false ->
  has rightType InputType.NUMBER_OR_NAN = false ->
  analyzeArith leftType rightType opcode = 0.
Proof.
  intros Hl Hr.
  assert (L : forall mask,
             subsetOf mask InputType.NUMBER_OR_NAN = true ->
             has leftType mask = false).
  { intros mask Hm. exact (has_mask _ _ _ Hm Hl). }
  assert (R : forall mask,
             subsetOf mask InputType.NUMBER_OR_NAN = true ->
             has rightType mask = false).
  { intros mask Hm. exact (has_mask _ _ _ Hm Hr). }
  destruct opcode; cbv [analyzeArith analyzeAdd analyzeSubtract
                        analyzeMultiply analyzeDivide posBits negBits
                        canBeFractional];
    rewrite ?L, ?R by reflexivity; reflexivity.
Qed.

Lemma X9_analyzeArith_no_numbers_witness :
  has InputType.STRING InputType.NUMBER_OR_NAN = false
  /\ has InputType.BOOLEAN InputType.NUMBER_OR_NAN = false
  /\ analyzeArith InputType.STRING InputType.BOOLEAN OP_ADD = 0.
Proof.
  split; [reflexivity |]. split; [reflexivity |].
  apply (X9_analyzeArith_no_numbers OP_ADD); reflexivity.
Defined.

(* ===================================================================== *)
(** * Further properties of the analysis of stacks *)
(* ===================================================================== *)

Lemma recordExit_erase (stateChanged : bool) (b : IntermediateStackBlock)
    (state : TypeState) :
  eraseBlock (snd (fst (recordExit stateChanged b state))) = eraseBlock b.
Proof.
  destruct b as [node yields entryState exitState].
  unfold recordExit. simpl.
  destruct yields, stateChanged; simpl; try reflexivity.
  destruct (map_fold _ false state); reflexivity.
Qed.

Section Erasure.
Variable f :
  IntermediateStackBlock -> TypeState ->
  option (bool * IntermediateStackBlock * TypeState).

Hypothesis f_erase :
  forall b s m b' s',
    f b s = Some (m, b', s') -> eraseBlock b' = eraseBlock b.

Lemma analyzeBlocks_erase (blocks : list IntermediateStackBlock) :
  forall s m m' blocks' s',
    analyzeBlocks f blocks s m = Some (m', blocks', s') ->
    List.map eraseBlock blocks' = List.map eraseBlock blocks.
Proof.
  induction blocks as [| b rest IH]; intros s m m' blocks' s' H; simpl in H.
  - injection H as <- <- <-. reflexivity.
  - destruct (f b s) as [[[c b1] s1] |] eqn:Hf; simpl in H; [| discriminate].
    pose proof (recordExit_erase c b1 s1) as Hrec.
    destruct (recordExit c b1 s1) as [[c2 b2] s2].
    destruct (analyzeBlocks f rest s2 (m || c2)) as [[[m3 rest3] s3] |]
      eqn:Hrest; simpl in H; [| discriminate].
    injection H as <- <- <-. simpl in *.
    rewrite Hrec, (f_erase _ _ _ _ _ Hf), (IH _ _ _ _ _ Hrest).
    reflexivity.
Qed.

Lemma analyzeStack_erase (stack : IntermediateStack) :
  forall s m stack' s',
    analyzeStack f stack s = Some (m, stack', s') ->
    eraseStack stack' = eraseStack stack.
Proof.
  intros s m stack' s' H. destruct stack as [blocks |]; simpl in H.
  - destruct (analyzeBlocks f blocks s false) as [[[m1 blocks1] s1] |]
      eqn:Hb; simpl in H; [| discriminate].
    injection H as <- <- <-. simpl.
    rewrite (analyzeBlocks_erase _ _ _ _ _ _ Hb). reflexivity.
  - injection H as <- <- <-. reflexivity.
Qed.

Lemma iterateLoop_erase (n : nat) :
  forall stack s m stack' s',
    iterateLoop f n stack s = Some (m, stack', s') ->
    eraseStack stack' = eraseStack stack /\ m = false.
Proof.
  induction n as [| n IH]; intros stack s m stack' s' H; simpl in H;
    [discriminate |].
  destruct (analyzeStack f stack (TypeState.clone s))
    as [[[m1 stack1] s1] |] eqn:Hbody; simpl in H; [| discriminate].
  pose proof (analyzeStack_erase _ _ _ _ _ Hbody) as Hbody'.
  destruct (TypeState.or s s1) as [keep s2].
  destruct keep.
  - destruct (IH _ _ _ _ _ H) as [He Hm]. split; congruence.
  - injection H as <- <- <-. auto.
Qed.
End Erasure.

Lemma analyzeStackBlock_erase (fuel : nat) :
  forall b s m b' s',
    analyzeStackBlock fuel b s = Some (m, b', s') ->
    eraseBlock b' = eraseBlock b.
Proof.
  induction fuel as [| fuel IH]; intros b s m b' s' H; [discriminate |].
  pose proof (analyzeStack_erase _ IH) as Hstack.
  pose proof (iterateLoop_erase _ IH) as Hloop.
  assert (Hlooped :
            forall do_ node yields entryState exitState,
              (forall stack stack' y e x e' x',
                  eraseStack stack' = eraseStack stack ->
                  eraseBlock (Block (withDo node stack') y e' x')
                  = eraseBlock (Block (withDo node stack) y e x)) ->
              withDo node do_ = node ->
              analyzeLoopedStack (analyzeStackBlock fuel) fuel do_ s
                (Block node yields entryState exitState)
              = Some (m, b', s') ->
              eraseBlock b'
              = eraseBlock (Block node yields entryState exitState)).
  { clear H. intros do_ node yields entryState exitState Hnode Hdo H.
    rewrite <- Hdo.
    unfold analyzeLoopedStack in H. simpl in H. destruct yields.
    - destruct (analyzeStack (analyzeStackBlock fuel) do_ _)
        as [[[bm stack1] s1] |] eqn:Hbody; simpl in H; [| discriminate].
      injection H as <- <- <-. apply Hnode. exact (Hstack _ _ _ _ _ Hbody).
    - destruct (iterateLoop (analyzeStackBlock fuel) fuel do_ s)
        as [[[bm stack1] s1] |] eqn:Hbody; simpl in H; [| discriminate].
      injection H as <- <- <-. apply Hnode.
      exact (proj1 (Hloop _ _ _ _ _ _ Hbody)). }
  destruct b as [node yields entryState exitState].
  simpl in H. destruct node; simpl in H;
    try (injection H as <- <- <-; reflexivity).
  - (* VAR_SET *)
    destruct (TypeState.setVariableType s variable _).
    injection H as <- <- <-. reflexivity.
  - (* CONTROL_WHILE *)
    apply (Hlooped do_ (CONTROL_WHILE condition do_ warpTimer));
      [| reflexivity | exact H].
    intros stack stack' y e x e' x' He.
    destruct stack, stack'; simpl in *; congruence.
  - (* CONTROL_FOR *)
    apply (Hlooped do_ (CONTROL_FOR variable count do_));
      [| reflexivity | exact H].
    intros stack stack' y e x e' x' He.
    destruct stack, stack'; simpl in *; congruence.
  - (* CONTROL_REPEAT *)
    apply (Hlooped do_ (CONTROL_REPEAT times do_));
      [| reflexivity | exact H].
    intros stack stack' y e x e' x' He.
    destruct stack, stack'; simpl in *; congruence.
  - (* CONTROL_IF_ELSE *)
    destruct (analyzeStack (analyzeStackBlock fuel) whenTrue _)
      as [[[mt stackT] sT] |] eqn:HT; simpl in H; [| discriminate].
    destruct (analyzeStack (analyzeStackBlock fuel) whenFalse s)
      as [[[mf stackF] sF] |] eqn:HF; simpl in H; [| discriminate].
    pose proof (Hstack _ _ _ _ _ HT) as HeT.
    pose proof (Hstack _ _ _ _ _ HF) as HeF.
    assert (He :
              eraseBlock (Block (CONTROL_IF_ELSE condition stackT stackF)
                                yields entryState exitState)
              = eraseBlock (Block (CONTROL_IF_ELSE condition whenTrue
                                                   whenFalse)
                                  yields entryState exitState)).
    { destruct stackT, whenTrue, stackF, whenFalse; simpl in *; congruence. }
    destruct mf.
    + injection H as <- <- <-. exact He.
    + destruct (TypeState.or sF sT). injection H as <- <- <-. exact He.
Qed.

(** X10.  The analysis only annotates: whatever the fuel, the stack it
    returns is the stack it was given up to the entry and exit states
    attached to the blocks.  Opcodes, inputs, yield flags and nesting are
    untouched. *)
Theorem X10_analysis_only_annotates
    (fuel : nat) (stack : IntermediateStack) (state : TypeState)
    (modified : bool) (stack' : IntermediateStack) (state' : TypeState) :
  analyze fuel stack state = Some (modified, stack', state') ->
  eraseStack stack' = eraseStack stack.
Proof.
  apply analyzeStack_erase. apply analyzeStackBlock_erase.
Qed.

Lemma X10_analysis_only_annotates_witness :
  eraseStack
    (Some [Block (VAR_SET (Examples.var "x")
                    (Examples.stringConstant InputType.STRING "hello"))
                 false None (Some Examples.branchTrueExit)])
  = eraseStack
      (Some [Examples.plain
               (VAR_SET (Examples.var "x")
                  (Examples.stringConstant InputType.STRING "hello"))]).
Proof.
  apply (X10_analysis_only_annotates 1 _ Examples.branchEntry true _
           Examples.branchTrueExit).
  vm_compute. reflexivity.
Defined.

(** The entry state a loop block carries after its analysis. *)
Lemma analyzeLoopedStack_entryState f (fuel : nat)
    (stack : IntermediateStack) (s : TypeState)
    (block : IntermediateStackBlock) m b' s' :
  block_yields block = false ->
  analyzeLoopedStack f fuel stack s block = Some (m, b', s') ->
  block_entryState b' = Some s'
  /\ block_exitState b' = block_exitState block.
Proof.
  intros Hy H. unfold analyzeLoopedStack in H. rewrite Hy in H.
  destruct (iterateLoop f fuel stack s) as [[[bm stack1] s1] |];
    simpl in H; [| discriminate].
  injection H as <- <- <-. simpl. rewrite clone_id. auto.
Qed.

(** X11.  The analysis of a loop block that does not yield always
    returns false, whether or not the loop changed the state: the loop
    ends when [or] returns false, and that last flag is what is returned.
    The block leaves with the final state as its entry state and with the
    exit state it had. *)
Theorem X11_non_yielding_loop_returns_false
    (fuel : nat) (block : IntermediateStackBlock) (state : TypeState)
    (modified : bool) (block' : IntermediateStackBlock)
    (state' : TypeState) :
  isLoopNode (block_node block) = true ->
  block_yields block = false ->
  analyzeStackBlock fuel block state = Some (modified, block', state') ->
  modified = false
  /\ block_entryState block' = Some state'
  /\ block_exitState block' = block_exitState block.
Proof.
  intros Hloop Hy H. destruct fuel as [| fuel]; [discriminate |].
  assert (Hfalse :
            forall do_,
              analyzeLoopedStack (analyzeStackBlock fuel) fuel do_ state
                block
              = Some (modified, block', state') ->
              modified = false).
  { intros do_ Hl. unfold analyzeLoopedStack in Hl. rewrite Hy in Hl.
    destruct (iterateLoop (analyzeStackBlock fuel) fuel do_ state)
      as [[[bm stack1] s1] |] eqn:Hbody; simpl in Hl; [| discriminate].
    injection Hl as <- <- <-.
    assert (Hany :
              forall n f stack s m stack' s',
                iterateLoop f n stack s = Some (m, stack', s') ->
                m = false).
    { clear. induction n as [| n IH]; intros f stack s m stack' s' H;
        simpl in H; [discriminate |].
      destruct (analyzeStack f stack (TypeState.clone s))
        as [[[m1 stack1] s1] |]; simpl in H; [| discriminate].
      destruct (TypeState.or s s1) as [keep s2]. destruct keep.
      - exact (IH _ _ _ _ _ _ H).
      - injection H as <- <- <-. reflexivity. }
    exact (Hany _ _ _ _ _ _ _ Hbody). }
  simpl in H. destruct block as [node yields entryState exitState].
  simpl in *. destruct node; try discriminate.
  all: split; [exact (Hfalse _ H) |].
  all: exact (analyzeLoopedStack_entryState
                _ _ _ _ (Block _ yields entryState exitState) _ _ _ Hy H).
Qed.

Lemma X11_non_yielding_loop_returns_false_witness :
  match analyzeStackBlock 4 Examples.countBlock Examples.countEntry with
  | Some (modified, block', state') =>
      modified = false
      /\ block_entryState block' = Some state'
      /\ block_exitState block' = block_exitState Examples.countBlock
      /\ state' <> Examples.countEntry
  | None => False
  end.
Proof.
  destruct (analyzeStackBlock 4 Examples.countBlock Examples.countEntry)
    as [[[modified block'] state'] |] eqn:H.
  - pose proof (X11_non_yielding_loop_returns_false
                  4 Examples.countBlock Examples.countEntry
                  modified block' state' eq_refl eq_refl H)
      as (H1 & H2 & H3).
    repeat split; try assumption.
    vm_compute in H. injection H as _ _ <-. discriminate.
  - vm_compute in H. discriminate.
Defined.

(* ===================================================================== *)
(** * Further properties of the rewriter *)
(* ===================================================================== *)

Lemma inputSize_OTHER (opcode : string) (type : Z)
    (inputs : list (string * IntermediateInput)) :
  inputSize (OTHER opcode type inputs)
  = S (list_sum (List.map (fun entry => inputSize (snd entry)) inputs)).
Proof.
  simpl. f_equal.
  induction inputs as [| [key input] rest IH]; simpl; [reflexivity |].
  now rewrite IH.
Qed.

(** X12.  [optimizeInput] only removes number casts and updates type
    fields: up to those, its result is its argument.  Constants keep
    their literals, variable reads their variables, operators their
    opcodes and the order of their operands, and the result never has
    more nodes than the argument. *)
Theorem X12_optimizeInput_keeps_expression (state : TypeState) :
  forall input,
    stripNumberCasts (optimizeInput input state) = stripNumberCasts input
    /\ (inputSize (optimizeInput input state) <= inputSize input)%nat.
Proof.
  induction input as [type value | type variable | opcode type target IH
                     | opcode type lhs rhs IHl IHr | opcode type inputs IH]
    using IntermediateInput_induction.
  - split; reflexivity.
  - split; reflexivity.
  - destruct IH as [IHs IHn].
    destruct opcode; simpl;
      try (destruct (Z.land _ _ =? _)); simpl;
      (split; [congruence | lia]).
  - destruct IHl as [IHls IHln], IHr as [IHrs IHrn]. simpl.
    split; [congruence | lia].
  - rewrite optimizeInput_OTHER, !stripNumberCasts_OTHER, !inputSize_OTHER.
    rewrite !List.map_map. simpl.
    induction IH as [| entry rest [Hs Hn] _ [IHs IHn]]; simpl;
      [split; reflexivity |].
    injection IHs as IHs. split; [congruence | lia].
Qed.

Lemma optimizeStackBlock_annotations (b : IntermediateStackBlock)
    (state : TypeState) :
  block_entryState (optimizeStackBlock b state) = block_entryState b
  /\ block_exitState (optimizeStackBlock b state) = block_exitState b.
Proof. destruct b. split; reflexivity. Qed.

Lemma stateAfter_optimizeStackBlock (b : IntermediateStackBlock)
    (state state' : TypeState) :
  stateAfter (optimizeStackBlock b state) state' = stateAfter b state'.
Proof.
  unfold stateAfter, stateInside.
  destruct (optimizeStackBlock_annotations b state) as [-> ->].
  reflexivity.
Qed.

Lemma optimizeInputs_idempotent (inputs : list (string * IntermediateInput))
    (state : TypeState) :
  optimizeInputs (optimizeInputs inputs state) state
  = optimizeInputs inputs state.
Proof.
  unfold optimizeInputs. rewrite List.map_map. simpl.
  induction inputs as [| entry rest IH]; simpl; [reflexivity |].
  now rewrite optimizeInput_idempotent, IH.
Qed.

Lemma optimizeBlocks_idempotent (blocks : list IntermediateStackBlock) :
  Forall (fun b =>
            forall state,
              optimizeStackBlock (optimizeStackBlock b state) state
              = optimizeStackBlock b state) blocks ->
  forall state,
    optimizeBlocks optimizeStackBlock
      (optimizeBlocks optimizeStackBlock blocks state) state
    = optimizeBlocks optimizeStackBlock blocks state.
Proof.
  induction 1 as [| b rest Hb _ IH]; intros state; simpl; [reflexivity |].
  now rewrite Hb, stateAfter_optimizeStackBlock, IH.
Qed.

Lemma block_size_in (b : IntermediateStackBlock)
    (blocks : list IntermediateStackBlock) :
  In b blocks ->
  (block_size b <= list_sum (List.map block_size blocks))%nat.
Proof.
  induction blocks as [| b' rest IH]; simpl; [tauto |].
  intros [-> | H]; [lia |]. specialize (IH H). lia.
Qed.

Lemma optimizeStackBlock_idempotent (bound : nat) :
  forall b,
    (block_size b <= bound)%nat ->
    forall state,
      optimizeStackBlock (optimizeStackBlock b state) state
      = optimizeStackBlock b state.
Proof.
  induction bound as [| bound IH]; intros [node yields entryState exitState];
    simpl; [lia |].
  intros Hsize state.
  assert (Hstack :
            forall stack s,
              (stack_size stack <= bound)%nat ->
              optimizeStack optimizeStackBlock
                (optimizeStack optimizeStackBlock stack s) s
              = optimizeStack optimizeStackBlock stack s).
  { intros [blocks |] s Hs; simpl; [| reflexivity]. f_equal.
    apply optimizeBlocks_idempotent. apply List.Forall_forall.
    intros b Hin. apply IH.
    pose proof (block_size_in b blocks Hin). simpl in Hs. lia. }
  destruct entryState, node; simpl in *; try reflexivity;
    do 2 f_equal;
    first [apply optimizeInput_idempotent | apply optimizeInputs_idempotent
          | apply Hstack; unfold stack_size; lia].
Qed.

(** X13.  [optimizeStack] is idempotent: rewriting an already rewritten
    stack under the same state changes nothing. *)
Theorem X13_optimizeStack_idempotent
    (stack : IntermediateStack) (state : TypeState) :
  optimizeStack optimizeStackBlock
    (optimizeStack optimizeStackBlock stack state) state
  = optimizeStack optimizeStackBlock stack state.
Proof.
  destruct stack as [blocks |]; simpl; [| reflexivity]. f_equal.
  apply optimizeBlocks_idempotent. apply List.Forall_forall.
  intros b _. exact (optimizeStackBlock_idempotent (block_size b) b
                       (Nat.le_refl _)).
Qed.

(** X14.  [optimize] hands [optimizeStack] the state object that
    [analyzeStack] has just updated, so a leading VAR_SET block, which
    carries no entry state, has its value rewritten under the state
    reached at the end of the script, not under the state the script
    starts in. *)
Theorem X14_optimize_rewrites_head_under_final_state
    (fuel : nat) (ir ir' : JSGenerator.IntermediateRepresentation)
    (dependedProcedures : list string) (final : TypeState)
    (variable : VariableRef) (value : IntermediateInput) (yields : bool)
    (exitState : option (gmap string Z))
    (rest : list IntermediateStackBlock) :
  JSGenerator.stack (JSGenerator.entry ir)
  = Some (Block (VAR_SET variable value) yields None exitState :: rest) ->
  optimize fuel ir dependedProcedures = Some (Ok (ir', final)) ->
  exists exitState' rest',
    JSGenerator.stack (JSGenerator.entry ir')
    = Some (Block (VAR_SET variable (optimizeInput value final)) yields None
                  exitState' :: rest').
Proof.
  intros Hstack H. unfold optimize in H.
  destruct (optimizeProcedures fuel dependedProcedures _ _)
    as [[[procedures state] | message] |]; simpl in H; try discriminate.
  rewrite Hstack in H.
  destruct (analyze fuel _ state) as [[[m stack'] s'] |] eqn:Ha;
    simpl in H; [| discriminate].
  injection H as <- <-. simpl.
  unfold analyze in Ha. simpl in Ha.
  destruct (analyzeStackBlock fuel _ state) as [[[c b1] s1] |] eqn:Hb;
    simpl in Ha; [| discriminate].
  destruct fuel as [| fuel]; [discriminate |]. simpl in Hb.
  destruct (TypeState.setVariableType state variable _) as [md sv].
  injection Hb as <- <- <-.
  destruct (recordExit md _ sv) as [[c2 b2] s2] eqn:Hrec.
  destruct (analyzeBlocks _ rest s2 _) as [[[m3 rest3] s3] |];
    simpl in Ha; [| discriminate].
  injection Ha as <- <- <-. simpl.
  unfold recordExit in Hrec. simpl in Hrec.
  destruct (if yields then _ else _) as [changed st] in Hrec.
  destruct changed; injection Hrec as <- <- <-; simpl; eauto.
Qed.

Lemma X14_optimize_rewrites_head_under_final_state_witness :
  TypeState.getVariableType TypeState.create (Examples.var "y")
  = InputType.ANY
  /\ match optimize 1 MoreExamples.castThenSetIR [] with
     | Some (Ok (ir', final)) =>
         TypeState.getVariableType final (Examples.var "y")
         = InputType.NUMBER_POS
         /\ exists exitState' rest',
              JSGenerator.stack (JSGenerator.entry ir')
              = Some (Block (VAR_SET (Examples.var "x")
                               (VAR_GET InputType.NUMBER_POS
                                        (Examples.var "y")))
                            false None exitState' :: rest')
     | _ => False
     end.
Proof.
  split; [reflexivity |].
  destruct (optimize 1 MoreExamples.castThenSetIR [])
    as [[[ir' final] | message] |] eqn:H.
  - pose proof (X14_optimize_rewrites_head_under_final_state
                  1 MoreExamples.castThenSetIR ir' [] final
                  _ _ _ _ _ eq_refl H) as (exitState' & rest' & Hhead).
    vm_compute in H. injection H as <- <-.
    split; [reflexivity |].
    exists exitState', rest'. rewrite Hhead. reflexivity.
  - vm_compute in H. discriminate.
  - vm_compute in H. discriminate.
Defined.

(* ===================================================================== *)
(** * Further properties of intermediate.js *)
(* ===================================================================== *)

Lemma castOpcodeFor_cases (T : Z) (castOpcode : CastOpcode) :
  castOpcodeFor T = Some castOpcode ->
  (T = InputType.BOOLEAN /\ castOpcode = CAST_BOOLEAN)
  \/ (T = InputType.NUMBER /\ castOpcode = CAST_NUMBER)
  \/ (T = InputType.NUMBER_OR_NAN /\ castOpcode = CAST_NUMBER_OR_NAN)
  \/ (T = InputType.STRING /\ castOpcode = CAST_STRING).
Proof.
  unfold castOpcodeFor.
  destruct (T =? InputType.BOOLEAN) eqn:H1;
    [apply Z.eqb_eq in H1; intros [= <-]; auto |].
  destruct (T =? InputType.NUMBER) eqn:H2;
    [apply Z.eqb_eq in H2; intros [= <-]; auto |].
  destruct (T =? InputType.NUMBER_OR_NAN) eqn:H3;
    [apply Z.eqb_eq in H3; intros [= <-]; auto |].
  destruct (T =? InputType.STRING) eqn:H4;
    [apply Z.eqb_eq in H4; intros [= <-]; auto 6 | discriminate].
Qed.

(** X15.  When [toType] returns, the input it returns is always of the
    target type, and converting that input to the same target again
    returns it as it is. *)
Theorem X15_toType_reaches_target
    (StringToNumber : string -> JS.number)
    (NumberToString : JS.number -> string)
    (this : IntermediateInput) (targetType : Z)
    (converted : IntermediateInput) :
  toType StringToNumber NumberToString this targetType = Ok converted ->
  isAlwaysType converted targetType = true
  /\ toType StringToNumber NumberToString converted targetType
     = Ok converted.
Proof.
  intros H.
  assert (Hsupported : castOpcodeFor targetType <> None).
  { unfold toType in H. destruct (castOpcodeFor targetType); congruence. }
  assert (Halways : isAlwaysType converted targetType = true).
  { unfold toType in H.
    destruct (castOpcodeFor targetType) as [castOpcode |] eqn:Hop;
      [| discriminate].
    destruct (isAlwaysType this targetType) eqn:Ha;
      [injection H as <-; exact Ha |].
    apply castOpcodeFor_cases in Hop.
    destruct this; injection H as <-;
      try (unfold isAlwaysType; simpl; rewrite Z.land_diag;
           apply Z.eqb_refl).
    destruct Hop as [[-> ->] | [[-> ->] | [[-> ->] | [-> ->]]]];
      reflexivity. }
  split; [exact Halways |].
  now apply toType_always.
Qed.

Lemma X15_toType_reaches_target_witness :
  isAlwaysType
    (CAST CAST_NUMBER InputType.NUMBER
          (VAR_GET InputType.ANY (Examples.var "x")))
    InputType.NUMBER = true
  /\ toType Host.StringToNumber Host.NumberToString
       (CAST CAST_NUMBER InputType.NUMBER
             (VAR_GET InputType.ANY (Examples.var "x")))
       InputType.NUMBER
     = Ok (CAST CAST_NUMBER InputType.NUMBER
                (VAR_GET InputType.ANY (Examples.var "x"))).
Proof.
  apply (X15_toType_reaches_target Host.StringToNumber Host.NumberToString
           (VAR_GET InputType.ANY (Examples.var "x")) InputType.NUMBER).
  reflexivity.
Defined.

Lemma strict_eq_zero_nonzero (n : JS.number) :
  JS.nonzero n = true -> JS.strict_eq JS.zero n = false.
Proof. destruct n as [[|] | [|] | | [|] m e]; simpl; auto. Qed.

Lemma strict_eq_nan (n : JS.number) : JS.strict_eq JS.NaN n = false.
Proof. destruct n as [[|] | [|] | | [|] m e]; reflexivity. Qed.

Lemma isConstant_number (StringToNumber : string -> JS.number)
    (type : Z) (value : JS.value) (n : JS.number) :
  isConstant StringToNumber (CONSTANT type value) (JS.VNumber n)
  = JS.strict_eq (JS.ToNumber StringToNumber value) n.
Proof.
  unfold isConstant. destruct value as [a | s | b]; simpl;
    try reflexivity.
  destruct (JS.strict_eq a n); reflexivity.
Qed.

(** X16.  Converting a constant to NUMBER or NUMBER_OR_NAN at compile time
    does not change which nonzero numbers [isConstant] finds it equal
    to.  (For 0 it can: a literal that coerces to NaN is stored as 0.) *)
Theorem X16_isConstant_after_number_cast
    (StringToNumber : string -> JS.number)
    (NumberToString : JS.number -> string)
    (type : Z) (value : JS.value) (targetType : Z)
    (converted : IntermediateInput) (n : JS.number) :
  targetType = InputType.NUMBER \/ targetType = InputType.NUMBER_OR_NAN ->
  toType StringToNumber NumberToString (CONSTANT type value) targetType
  = Ok converted ->
  JS.nonzero n = true ->
  isConstant StringToNumber converted (JS.VNumber n)
  = isConstant StringToNumber (CONSTANT type value) (JS.VNumber n).
Proof.
  intros Htarget H Hn. unfold toType in H.
  assert (Hop : exists castOpcode,
             castOpcodeFor targetType = Some castOpcode
             /\ (castOpcode = CAST_NUMBER
                 \/ castOpcode = CAST_NUMBER_OR_NAN)).
  { destruct Htarget as [-> | ->]; eexists; split;
      [reflexivity | auto | reflexivity | auto]. }
  destruct Hop as (castOpcode & Hop & Hcast). rewrite Hop in H.
  destruct (isAlwaysType (CONSTANT type value) targetType);
    injection H as <-; [reflexivity |].
  rewrite (castConstant_number _ _ _ _ Hcast), !isConstant_number. simpl.
  destruct (JS.ToNumber StringToNumber value) as [[|] | [|] | | [|] m e];
    simpl; try reflexivity.
  rewrite strict_eq_nan. now apply strict_eq_zero_nonzero.
Qed.

Lemma X16_isConstant_after_number_cast_witness :
  isConstant Host.StringToNumber
    (CONSTANT InputType.NUMBER (JS.VNumber (JS.of_Z 1)))
    (JS.VNumber (JS.of_Z 1))
  = isConstant Host.StringToNumber
      (CONSTANT InputType.STRING (JS.VString "1")) (JS.VNumber (JS.of_Z 1))
  /\ isConstant Host.StringToNumber
       (CONSTANT InputType.STRING (JS.VString "1")) (JS.VNumber (JS.of_Z 1))
     = true
  /\ isConstant Host.StringToNumber
       (CONSTANT InputType.STRING (JS.VString "abc")) (JS.VNumber JS.zero)
     = false
  /\ (exists converted,
        toType Host.StringToNumber Host.NumberToString
          (CONSTANT InputType.STRING (JS.VString "abc")) InputType.NUMBER
        = Ok converted
        /\ isConstant Host.StringToNumber converted (JS.VNumber JS.zero)
           = true).
Proof.
  split; [| split; [| split]].
  - apply (X16_isConstant_after_number_cast
             Host.StringToNumber Host.NumberToString
             InputType.STRING (JS.VString "1") InputType.NUMBER);
      [left; reflexivity | vm_compute; reflexivity | reflexivity].
  - vm_compute. reflexivity.
  - vm_compute. reflexivity.
  - exists (CONSTANT InputType.NUMBER (JS.VNumber JS.zero)).
    split; vm_compute; reflexivity.
Defined.

(** X17.  A constant that [toType] has converted at compile time never
    makes the CONSTANT case of [descendInput] throw: the kind of literal
    it stores is the kind that case expects for its type.  A constant of
    the empty type 0 that holds a string does make it throw, since 0 is
    always NUMBER. *)
Theorem X17_converted_constant_compiles
    (StringToNumber : string -> JS.number)
    (NumberToString : JS.number -> string)
    (sanitize : string -> string)
    (type : Z) (value : JS.value) (targetType : Z)
    (converted : IntermediateInput) :
  isAlwaysType (CONSTANT type value) targetType = false ->
  toType StringToNumber NumberToString (CONSTANT type value) targetType
  = Ok converted ->
  (exists type' value' text,
      converted = CONSTANT type' value'
      /\ descendConstant NumberToString sanitize type' value' = Ok text)
  /\ (forall s,
        exists message,
          descendConstant NumberToString sanitize 0 (JS.VString s)
          = Throw message).
Proof.
  intros Ha H. split; [| intros s; eexists; reflexivity].
  assert (Hnumber :
            forall n, exists text,
              descendConstant NumberToString sanitize InputType.NUMBER
                (JS.VNumber n) = Ok text).
  { intros n. unfold descendConstant.
    replace (isAlwaysType _ InputType.NUMBER) with true by reflexivity.
    destruct (JS.is_negzero n); eexists; reflexivity. }
  unfold toType in H.
  destruct (castOpcodeFor targetType) as [castOpcode |]; [| discriminate].
  rewrite Ha in H. injection H as <-.
  destruct castOpcode; unfold castConstant.
  - do 3 eexists. split; reflexivity.
  - destruct (Hnumber (if JS.truthy (JS.ToNumber StringToNumber value)
                       then JS.ToNumber StringToNumber value
                       else if JS.is_negzero
                                 (JS.ToNumber StringToNumber value)
                            then JS.negzero else JS.zero)) as [text Ht].
    do 3 eexists. split; [reflexivity | exact Ht].
  - destruct (Hnumber (if JS.truthy (JS.ToNumber StringToNumber value)
                       then JS.ToNumber StringToNumber value
                       else if JS.is_negzero
                                 (JS.ToNumber StringToNumber value)
                            then JS.negzero else JS.zero)) as [text Ht].
    do 3 eexists. split; [reflexivity | exact Ht].
  - do 3 eexists. split; reflexivity.
Qed.

Lemma X17_converted_constant_compiles_witness :
  (exists type' value' text,
      CONSTANT InputType.NUMBER (JS.VNumber JS.negzero)
      = CONSTANT type' value'
      /\ descendConstant Host.NumberToString (fun s => s) type' value'
         = Ok text)
  /\ (forall s,
        exists message,
          descendConstant Host.NumberToString (fun s => s) 0 (JS.VString s)
          = Throw message).
Proof.
  apply (X17_converted_constant_compiles
           Host.StringToNumber Host.NumberToString (fun s => s)
           InputType.STRING (JS.VString "-0") InputType.NUMBER).
  - reflexivity.
  - vm_compute. reflexivity.
Defined.

(* ===================================================================== *)
(** * Further properties of the generator *)
(* ===================================================================== *)

Lemma assoc_app (key : string) (entries more : list (string * string)) :
  JSGenerator.assoc key (entries ++ more)
  = match JSGenerator.assoc key entries with
    | Some variable => Some variable
    | None => JSGenerator.assoc key more
    end.
Proof.
  induction entries as [| [k v] rest IH]; simpl; [reflexivity |].
  destruct (String.eqb k key); [reflexivity | exact IH].
Qed.

(** X18.  [evaluateOnce] is a memo table.  A second call with the same
    text returns the same variable and changes nothing, and a call never
    changes the variable of a text that already had one. *)
Theorem X18_evaluateOnce_memo (text : string) (g : JSGenerator.Generator) :
  let after := snd (JSGenerator.evaluateOnce text g) in
  JSGenerator.evaluateOnce text after
  = (fst (JSGenerator.evaluateOnce text g), after)
  /\ (forall other variable,
        JSGenerator.assoc other (JSGenerator.setupVariables g)
        = Some variable ->
        JSGenerator.evaluateOnce other after = (variable, after)).
Proof.
  intros after. subst after. unfold JSGenerator.evaluateOnce.
  destruct (JSGenerator.assoc text (JSGenerator.setupVariables g))
    as [known |] eqn:Htext; simpl.
  - rewrite Htext. split; [reflexivity |].
    intros other variable ->. reflexivity.
  - rewrite !assoc_app, Htext. simpl. rewrite String.eqb_refl.
    split; [reflexivity |].
    intros other variable Hother. rewrite assoc_app, Hother. reflexivity.
Qed.

Lemma X18_evaluateOnce_memo_witness :
  let g := snd (JSGenerator.evaluateOnce "stage" JSGenerator.create) in
  let after := snd (JSGenerator.evaluateOnce "target" g) in
  JSGenerator.evaluateOnce "target" after
  = (fst (JSGenerator.evaluateOnce "target" g), after)
  /\ JSGenerator.evaluateOnce "stage" after = ("b0"%string, after).
Proof.
  destruct (X18_evaluateOnce_memo
              "target"
              (snd (JSGenerator.evaluateOnce "stage" JSGenerator.create)))
    as [Hsame Hother].
  split; [exact Hsame |]. apply Hother. vm_compute. reflexivity.
Defined.

Lemma append_cons (x : ascii) (a b : string) :
  String x a +:+ b = String x (a +:+ b).
Proof. reflexivity. Qed.

Lemma append_assoc (a b c : string) : (a +:+ b) +:+ c = a +:+ (b +:+ c).
Proof.
  induction a as [| x a IH]; [reflexivity |].
  now rewrite !append_cons, IH.
Qed.

Lemma append_empty (a : string) : a +:+ EmptyString = a.
Proof.
  induction a as [| x a IH]; [reflexivity |].
  now rewrite append_cons, IH.
Qed.

Lemma grownFrom_refl (g : JSGenerator.Generator) : grownFrom g g.
Proof. exists EmptyString. now rewrite append_empty. Qed.

Lemma grownFrom_trans (a b c : JSGenerator.Generator) :
  grownFrom a b -> grownFrom b c -> grownFrom a c.
Proof.
  intros [t1 H1] [t2 H2]. exists (t1 +:+ t2).
  now rewrite H2, H1, append_assoc.
Qed.

Lemma emit_grown (text : string) (g : JSGenerator.Generator) :
  JSGenerator.frames (JSGenerator.emit text g) = JSGenerator.frames g
  /\ grownFrom g (JSGenerator.emit text g).
Proof. split; [reflexivity | now exists text]. Qed.

Lemma nextLocal_grown (g : JSGenerator.Generator) :
  JSGenerator.frames (snd (JSGenerator.nextLocal g)) = JSGenerator.frames g
  /\ grownFrom g (snd (JSGenerator.nextLocal g)).
Proof.
  split; [reflexivity |]. exists EmptyString. simpl.
  now rewrite append_empty.
Qed.

Lemma evaluateOnce_grown (text : string) (g : JSGenerator.Generator) :
  JSGenerator.frames (snd (JSGenerator.evaluateOnce text g))
  = JSGenerator.frames g
  /\ grownFrom g (snd (JSGenerator.evaluateOnce text g)).
Proof.
  unfold JSGenerator.evaluateOnce.
  destruct (JSGenerator.assoc text _); simpl;
    (split; [reflexivity |]; exists EmptyString; simpl;
     now rewrite append_empty).
Qed.

Section GeneratorInvariant.
Variable script : JSGenerator.IntermediateScript.
Variable ir : JSGenerator.IntermediateRepresentation.
Variable sanitize : string -> string.
Variable descendInput : IntermediateInput -> result string.
Variable descendOther :
  string -> list (string * IntermediateInput) -> result string.

Lemma steady_refl g : steady g g.
Proof. split; [reflexivity | apply grownFrom_refl]. Qed.

Lemma steady_trans a b c : steady a b -> steady b c -> steady a c.
Proof.
  intros [H1 H2] [H3 H4]. split; [congruence |].
  eapply grownFrom_trans; eassumption.
Qed.

Lemma steady_emit text g g' :
  steady g g' -> steady g (JSGenerator.emit text g').
Proof. intros H. eapply steady_trans; [exact H | apply emit_grown]. Qed.

Lemma steady_referenceVariable variable g g' :
  steady g g' ->
  steady g (snd (JSGenerator.referenceVariable sanitize variable g')).
Proof.
  intros H. eapply steady_trans; [exact H |].
  unfold JSGenerator.referenceVariable.
  destruct (String.eqb _ _); apply evaluateOnce_grown.
Qed.

Lemma steady_retire g g' :
  steady g g' -> steady g (JSGenerator.retire script g').
Proof.
  intros H. unfold JSGenerator.retire.
  destruct (JSGenerator.isProcedure script); now apply steady_emit.
Qed.

Lemma steady_yielded g g' g'' :
  steady g g' -> JSGenerator.yielded script g' = Ok g'' -> steady g g''.
Proof.
  unfold JSGenerator.yielded. destruct (JSGenerator.yields script);
    [intros H [= <-]; exact H | discriminate].
Qed.

Lemma steady_yieldNotWarp g g' g'' :
  steady g g' -> JSGenerator.yieldNotWarp script g' = Ok g'' ->
  steady g g''.
Proof.
  unfold JSGenerator.yieldNotWarp. destruct (JSGenerator.isWarp script).
  - intros H [= <-]. exact H.
  - intros H. apply steady_yielded. now apply steady_emit.
Qed.

Lemma steady_yieldStuckOrNotWarp g g' g'' :
  steady g g' -> JSGenerator.yieldStuckOrNotWarp script g' = Ok g'' ->
  steady g g''.
Proof.
  unfold JSGenerator.yieldStuckOrNotWarp. intros H.
  apply steady_yielded.
  destruct (JSGenerator.isWarp script); now apply steady_emit.
Qed.

Lemma steady_yieldLoop g g' g'' :
  steady g g' -> JSGenerator.yieldLoop script g' = Ok g'' -> steady g g''.
Proof.
  unfold JSGenerator.yieldLoop. destruct (JSGenerator.warpTimer script);
    [apply steady_yieldStuckOrNotWarp | apply steady_yieldNotWarp].
Qed.

Lemma steady_compatibilityLayerCall opcode inputs fields setFlags
    g g' call g'' :
  steady g g' ->
  JSGenerator.generateCompatibilityLayerCall script sanitize descendInput
    opcode inputs fields setFlags g' = Ok (call, g'') ->
  steady g g''.
Proof.
  intros H. unfold JSGenerator.generateCompatibilityLayerCall.
  destruct (JSGenerator.descendEntries sanitize descendInput inputs);
    simpl; [| discriminate].
  pose proof (evaluateOnce_grown
                ("runtime.getOpcodeFunction("
                 +:+ JSGenerator.quoted (sanitize opcode) +:+ ")") g') as He.
  destruct (JSGenerator.evaluateOnce _ g') as [opcodeFunction g1].
  intros [= _ <-]. eapply steady_trans; [exact H | exact He].
Qed.

Section Stacks.
Variable f :
  IntermediateStackBlock -> JSGenerator.Generator ->
  result JSGenerator.Generator.

Lemma descendBlocks_steady (blocks : list IntermediateStackBlock) :
  Forall (fun b => forall g g', f b g = Ok g' -> steady g g') blocks ->
  forall g g',
    JSGenerator.descendBlocks f blocks g = Ok g' ->
    tail (JSGenerator.frames g') = tail (JSGenerator.frames g)
    /\ grownFrom g g'.
Proof.
  induction 1 as [| b rest Hb _ IH]; intros g g' H; simpl in H.
  - injection H as <-. split; [reflexivity | apply grownFrom_refl].
  - destruct (f b _) as [g1 |] eqn:Hf; simpl in H; [| discriminate].
    destruct (Hb _ _ Hf) as [Hframes Hgrown].
    destruct (IH _ _ H) as [Htail Hrest].
    assert (Hset :
              forall last,
                tail (JSGenerator.frames (JSGenerator.setLastBlock last g))
                = tail (JSGenerator.frames g)
                /\ grownFrom g (JSGenerator.setLastBlock last g)).
    { intros last. unfold JSGenerator.setLastBlock.
      destruct (JSGenerator.frames g) eqn:Hfr; simpl;
        [rewrite Hfr; split; [reflexivity | apply grownFrom_refl] |].
      split; [reflexivity |]. exists EmptyString. simpl.
      now rewrite append_empty. }
    destruct (Hset match rest with [] => true | _ => false end)
      as [Hs1 Hs2].
    split; [congruence |].
    eapply grownFrom_trans; [exact Hs2 |].
    eapply grownFrom_trans; eassumption.
Qed.

Lemma descendStack_steady (stack : IntermediateStack)
    (frame : JSGenerator.Frame) :
  (forall blocks,
      stack = Some blocks ->
      Forall (fun b => forall g g', f b g = Ok g' -> steady g g') blocks) ->
  forall g0 g g',
    steady g0 g ->
    JSGenerator.descendStack f stack frame g = Ok g' -> steady g0 g'.
Proof.
  intros Hall g0 g g' H0 H. unfold JSGenerator.descendStack in H.
  destruct stack as [blocks |]; [| discriminate].
  destruct (JSGenerator.descendBlocks f blocks _) as [g1 |] eqn:Hb;
    simpl in H; [| discriminate].
  injection H as <-.
  destruct (descendBlocks_steady blocks (Hall _ eq_refl) _ _ Hb)
    as [Htail Hsrc].
  eapply steady_trans; [exact H0 |].
  split; [exact Htail | exact Hsrc].
Qed.
End Stacks.
End GeneratorInvariant.

Section GeneratorBlocks.
Variable script : JSGenerator.IntermediateScript.
Variable ir : JSGenerator.IntermediateRepresentation.
Variable sanitize : string -> string.
Variable descendInput : IntermediateInput -> result string.
Variable descendOther :
  string -> list (string * IntermediateInput) -> result string.

Lemma steady_nextLocal g g' x g'' :
  steady g g' -> JSGenerator.nextLocal g' = (x, g'') -> steady g g''.
Proof.
  intros H E. eapply steady_trans; [exact H |].
  pose proof (nextLocal_grown g') as Hn. rewrite E in Hn. exact Hn.
Qed.

Lemma steady_reference variable g g' x g'' :
  steady g g' ->
  JSGenerator.referenceVariable sanitize variable g' = (x, g'') ->
  steady g g''.
Proof.
  intros H E.
  pose proof (steady_referenceVariable sanitize variable g g' H) as Hr.
  rewrite E in Hr. exact Hr.
Qed.

(** Exposes, one after the other, the calls a block makes. *)
Ltac unbind H :=
  cbn [JSGenerator.descendStackedBlock] in H;
  cbv beta iota zeta delta [mbind result_bind] in H;
  repeat (match type of H with
          | match (if ?c then _ else _) with Ok _ => _ | Throw _ => _ end
            = _ => destruct c eqn:?
          | match (match ?e with [] => _ | _ :: _ => _ end)
            with Ok _ => _ | Throw _ => _ end = _ => destruct e eqn:?
          | match (match ?e with Some _ => _ | None => _ end)
            with Ok _ => _ | Throw _ => _ end = _ => destruct e eqn:?
          | match (match ?e with Ok _ => _ | Throw _ => _ end)
            with Ok _ => _ | Throw _ => _ end = _ =>
              destruct e eqn:?; [| discriminate H]
          | match ?e with Ok _ => _ | Throw _ => _ end = _ =>
              destruct e eqn:?; [| discriminate H]
          | (let '(_, _) := ?e in _) = _ => destruct e eqn:?
          | match ?e with Some _ => _ | None => _ end = _ =>
              destruct e eqn:?
          | (if ?c then _ else _) = _ => destruct c eqn:?
          | match ?e with [] => _ | _ :: _ => _ end = _ => destruct e eqn:?
          | Throw _ = Ok _ => discriminate H
          end; cbv beta iota zeta delta [mbind result_bind] in H).

(** Follows the calls back to the generator the block started from. *)
Ltac chain Hnested :=
  repeat first
    [ apply steady_refl
    | apply steady_emit
    | apply steady_retire
    | match goal with
      | |- steady _ (if ?c then _ else _) => destruct c
      | |- steady _ (JSGenerator.mkGenerator
                       _ _ (JSGenerator.localVariables ?x + 1) _ _) =>
          eapply steady_trans; [| exact (nextLocal_grown x)]
      | E : Ok ?y = Ok ?x |- steady _ ?x => injection E as <-
      | E : JSGenerator.nextLocal _ = (_, ?x) |- steady _ ?x =>
          eapply steady_nextLocal; [| exact E]
      | E : JSGenerator.referenceVariable _ _ _ = (_, ?x) |- steady _ ?x =>
          eapply steady_reference; [| exact E]
      | E : JSGenerator.yielded _ _ = Ok ?x |- steady _ ?x =>
          eapply steady_yielded; [| exact E]
      | E : JSGenerator.yieldNotWarp _ _ = Ok ?x |- steady _ ?x =>
          eapply steady_yieldNotWarp; [| exact E]
      | E : JSGenerator.yieldStuckOrNotWarp _ _ = Ok ?x |- steady _ ?x =>
          eapply steady_yieldStuckOrNotWarp; [| exact E]
      | E : JSGenerator.yieldLoop _ _ = Ok ?x |- steady _ ?x =>
          eapply steady_yieldLoop; [| exact E]
      | E : JSGenerator.generateCompatibilityLayerCall
              _ _ _ _ _ _ _ _ = Ok (_, ?x) |- steady _ ?x =>
          eapply steady_compatibilityLayerCall; [| exact E]
      | E : JSGenerator.descendStack _ _ _ _ = Ok ?x |- steady _ ?x =>
          refine (descendStack_steady _ _ _ _ _ _ _ _ E);
          [intros ? ?; eapply Hnested; [| eassumption];
           unfold stack_size; simpl in *; lia
          |]
      end ].

Lemma descendStackedBlock_steady (bound : nat) :
  forall b,
    (block_size b <= bound)%nat ->
    forall g g',
      JSGenerator.descendStackedBlock script ir sanitize descendInput
        descendOther b g = Ok g' ->
      steady g g'.
Proof.
  induction bound as [| bound IH]; intros [node yields entryState exitState];
    simpl; [lia |].
  intros Hsize g g' H.
  assert (Hnested :
            forall stack blocks,
              (stack_size stack <= bound)%nat ->
              stack = Some blocks ->
              Forall (fun b =>
                        forall g g',
                          JSGenerator.descendStackedBlock script ir sanitize
                            descendInput descendOther b g = Ok g' ->
                          steady g g') blocks).
  { intros stack blocks Hs ->. apply List.Forall_forall. intros b Hin.
    apply IH. pose proof (block_size_in b blocks Hin). simpl in Hs. lia. }
  destruct node.
  all: unbind H.
  all: try (injection H as <-).
  all: chain Hnested.
Qed.
End GeneratorBlocks.

(** X19.  Compiling a stacked block, nested stacks included, leaves the
    frame stack exactly as it found it and only appends to the source:
    every frame pushed for a nested stack has been popped again, and no
    text generated before is changed. *)
Theorem X19_descendStackedBlock_steady
    (script : JSGenerator.IntermediateScript)
    (ir : JSGenerator.IntermediateRepresentation)
    (sanitize : string -> string)
    (descendInput : IntermediateInput -> result string)
    (descendOther :
       string -> list (string * IntermediateInput) -> result string)
    (block : IntermediateStackBlock) (g g' : JSGenerator.Generator) :
  JSGenerator.descendStackedBlock script ir sanitize descendInput
    descendOther block g = Ok g' ->
  JSGenerator.frames g' = JSGenerator.frames g
  /\ exists text, JSGenerator.source g' = JSGenerator.source g +:+ text.
Proof.
  intros H.
  exact (descendStackedBlock_steady script ir sanitize descendInput
           descendOther (block_size block) block (Nat.le_refl _) g g' H).
Qed.

Lemma X19_descendStackedBlock_steady_witness :
  exists g',
    JSGenerator.descendStackedBlock MoreExamples.yieldingScript
      (JSGenerator.mkIR MoreExamples.yieldingScript ∅) (fun s => s)
      (fun _ => Ok "x"%string) (fun _ _ => Ok EmptyString)
      MoreExamples.nestedBlock MoreExamples.busy = Ok g'
    /\ JSGenerator.frames g' = [JSGenerator.mkFrame false false]
    /\ JSGenerator.contains "continue;" (JSGenerator.source g') = true
    /\ exists text,
         JSGenerator.source g' = "runtime.stopAll();" +:+ text.
Proof.
  destruct (JSGenerator.descendStackedBlock MoreExamples.yieldingScript
              (JSGenerator.mkIR MoreExamples.yieldingScript ∅) (fun s => s)
              (fun _ => Ok "x"%string) (fun _ _ => Ok EmptyString)
              MoreExamples.nestedBlock MoreExamples.busy)
    as [g' | message] eqn:H.
  - exists g'. split; [reflexivity |].
    destruct (X19_descendStackedBlock_steady _ _ _ _ _ _ _ _ H)
      as [Hframes Hsource].
    split; [exact Hframes |]. split; [| exact Hsource].
    vm_compute in H. injection H as <-. reflexivity.
  - vm_compute in H. discriminate.
Defined.

Lemma substring_prefix_length (m : nat) :
  forall s, (String.length (substring 0 m s) <= m)%nat.
Proof.
  induction m as [| m IH]; intros [| c s]; simpl; try lia.
  specialize (IH s). lia.
Qed.

Lemma substring_prefix_forallb (P : ascii -> bool) (m : nat) :
  forall s,
    forallb P (list_ascii_of_string s) = true ->
    forallb P (list_ascii_of_string (substring 0 m s)) = true.
Proof.
  induction m as [| m IH]; intros [| c s]; simpl; auto.
  intros H. apply andb_true_iff in H as [Hc Hs].
  rewrite Hc. simpl. now apply IH.
Qed.

Lemma replaceUnsafe_words (s : string) :
  forallb isWord (list_ascii_of_string (replaceUnsafe s)) = true.
Proof.
  induction s as [| c s IH]; simpl; [reflexivity |].
  rewrite IH, andb_true_r. unfold isWord.
  destruct (isAlphanumeric c) eqn:Hc; [rewrite Hc |]; reflexivity.
Qed.

(** X20.  The name [getScriptName] gives a procedure is a pool name, an
    underscore and a part derived from the procedure code; that part has
    at most 20 characters, each of them a letter, a digit or an
    underscore, whatever the procedure code is.  A script that is not a
    procedure gets the pool name alone. *)
Theorem X20_getScriptName_is_safe
    (script : JSGenerator.IntermediateScript) (yields : bool)
    (pools : NamePools) :
  let code := simplifiedProcedureCode (JSGenerator.procedureCode script) in
  let poolName :=
    if yields
    then JSGenerator.poolName "gen" (generatorNameVariablePool pools)
    else JSGenerator.poolName "fun" (functionNameVariablePool pools) in
  fst (getScriptName script yields pools)
  = (if JSGenerator.isProcedure script then poolName +:+ "_" +:+ code
     else poolName)
  /\ (String.length code <= 20)%nat
  /\ forallb isWord (list_ascii_of_string code) = true.
Proof.
  intros code poolName. subst code poolName. split.
  - unfold getScriptName. destruct yields; reflexivity.
  - unfold simplifiedProcedureCode. split.
    + apply substring_prefix_length.
    + apply substring_prefix_forallb, replaceUnsafe_words.
Qed.

(* ===================================================================== *)
(** * Properties of the older generator's inputs *)
(* ===================================================================== *)

Section OlderInputs.
Import OlderGenerator.

Lemma Input_induction (P : Input -> Prop) :
  (forall source type, P (TypedInput source type)) ->
  (forall constantValue safe, P (ConstantInput constantValue safe)) ->
  (forall source type, P (VariableInput source type None)) ->
  (forall source type value,
      P value -> P (VariableInput source type (Some value))) ->
  forall input, P input.
Proof.
  intros Htyped Hconstant Hunset Hset.
  fix IH 1. intros [source type | constantValue safe | source type [value |]].
  - apply Htyped.
  - apply Hconstant.
  - apply Hset, IH.
  - apply Hunset.
Qed.

End OlderInputs.

(** X21.  In the older generator a constant that is safe for the ===
    lowering is always a number and never not a number, so the
    [isAlwaysNumber] test that guards the lowering cannot fail for it;
    its [asNumber] text is the stringified number that the safety test
    compared with the literal. *)
Theorem X21_safe_constant_is_always_number
    (StringToNumber : string -> JS.number)
    (NumberToString : JS.number -> string)
    (trim : string -> string)
    (constantValue : JS.value) (safe : bool) :
  isSafeConstantForEqualsOptimization StringToNumber NumberToString
    constantValue = true ->
  let input := OlderGenerator.ConstantInput constantValue safe in
  OlderGenerator.isAlwaysNumber StringToNumber NumberToString trim input
  = true
  /\ OlderGenerator.isNeverNumber StringToNumber input = false
  /\ OlderGenerator.asNumber StringToNumber NumberToString input
     = JS.ToString NumberToString constantValue.
Proof.
  unfold isSafeConstantForEqualsOptimization. simpl.
  unfold OlderGenerator.constantAsNumber.
  destruct (JS.ToNumber StringToNumber constantValue)
    as [[|] | [|] | | [|] m e] eqn:Hn; simpl; try discriminate;
    intros H; apply String.eqb_eq in H; auto.
Qed.

Lemma X21_safe_constant_is_always_number_witness :
  let input := OlderGenerator.ConstantInput (JS.VString "10") true in
  OlderGenerator.isAlwaysNumber Host.StringToNumber Host.NumberToString
    Host.trim input = true
  /\ OlderGenerator.isNeverNumber Host.StringToNumber input = false
  /\ OlderGenerator.asNumber Host.StringToNumber Host.NumberToString input
     = JS.ToString Host.NumberToString (JS.VString "10").
Proof.
  apply (X21_safe_constant_is_always_number
           Host.StringToNumber Host.NumberToString Host.trim
           (JS.VString "10") true).
  vm_compute. reflexivity.
Defined.

(** X22.  For every input of the older generator, constant, typed or
    variable: an input that is always a number is also always a number or
    NaN, and is not one that is never a number. *)
Theorem X22_always_number_excludes_never
    (StringToNumber : string -> JS.number)
    (NumberToString : JS.number -> string)
    (trim : string -> string) (input : OlderGenerator.Input) :
  OlderGenerator.isAlwaysNumber StringToNumber NumberToString trim input
  = true ->
  OlderGenerator.isAlwaysNumberOrNaN StringToNumber NumberToString trim
    input = true
  /\ OlderGenerator.isNeverNumber StringToNumber input = false.
Proof.
  induction input as [source type | constantValue safe | source type
                     | source type value IH] using Input_induction;
    simpl; intros H.
  - rewrite H. auto.
  - split; [exact H |].
    destruct (JS.isNaN _); [discriminate | reflexivity].
  - discriminate.
  - auto.
Qed.

Lemma X22_always_number_excludes_never_witness :
  let input :=
    OlderGenerator.VariableInput "b0.value" OlderGenerator.ValueType.UNKNOWN
      (Some (OlderGenerator.ConstantInput (JS.VString "10") true)) in
  OlderGenerator.isAlwaysNumberOrNaN Host.StringToNumber
    Host.NumberToString Host.trim input = true
  /\ OlderGenerator.isNeverNumber Host.StringToNumber input = false.
Proof.
  apply (X22_always_number_excludes_never
           Host.StringToNumber Host.NumberToString Host.trim).
  vm_compute. reflexivity.
Defined.

(** X23.  [setInput] makes a variable answer the three analysis
    questions as the input it is set to does; when that input is another
    variable, what is stored is that variable's own value, so a stored
    value is never a VariableInput as long as this held of the inputs
    passed in, and the questions of a variable are settled by one
    delegation. *)
Theorem X23_setInput_stores_resolved_value
    (StringToNumber : string -> JS.number)
    (NumberToString : JS.number -> string)
    (trim : string -> string)
    (source : string) (input : OlderGenerator.Input) :
  let variable := OlderGenerator.setInput source input in
  OlderGenerator.isAlwaysNumber StringToNumber NumberToString trim variable
  = OlderGenerator.isAlwaysNumber StringToNumber NumberToString trim input
  /\ OlderGenerator.isAlwaysNumberOrNaN StringToNumber NumberToString trim
       variable
     = OlderGenerator.isAlwaysNumberOrNaN StringToNumber NumberToString
         trim input
  /\ OlderGenerator.isNeverNumber StringToNumber variable
     = OlderGenerator.isNeverNumber StringToNumber input
  /\ (flat input = true -> flat variable = true).
Proof.
  destruct input as [s t | c safe | s t [value |]]; simpl;
    repeat split; auto.
Qed.

Lemma X23_setInput_stores_resolved_value_witness :
  let typed :=
    OlderGenerator.TypedInput "(1 + 2)" OlderGenerator.ValueType.NUMBER in
  let first := OlderGenerator.setInput "b0.value" typed in
  let second := OlderGenerator.setInput "b1.value" first in
  second
  = OlderGenerator.VariableInput "b1.value" OlderGenerator.ValueType.NUMBER
      (Some typed)
  /\ flat second = true.
Proof.
  split; [reflexivity |].
  apply (X23_setInput_stores_resolved_value
           Host.StringToNumber Host.NumberToString Host.trim "b1.value"
           (OlderGenerator.setInput "b0.value"
              (OlderGenerator.TypedInput "(1 + 2)"
                 OlderGenerator.ValueType.NUMBER))).
  reflexivity.
Defined.

(* ===================================================================== *)
(** * Properties of the folders of the lazy loading extension *)
(* ===================================================================== *)

Section Folders.
Import LazySpriteLoading.

Lemma prefix_append_same (pre needle post : string) :
  String.prefix needle post = true ->
  String.prefix (pre +:+ needle) (pre +:+ post) = true.
Proof.
  intros H. induction pre as [| c pre IH]; [exact H |].
  rewrite !append_cons. simpl.
  destruct (ascii_dec c c); [exact IH | congruence].
Qed.

Lemma prefix_append_more (needle : string) :
  forall b c,
    String.prefix needle b = true -> String.prefix needle (b +:+ c) = true.
Proof.
  induction needle as [| x needle IH]; intros b c H.
  - destruct (b +:+ c); reflexivity.
  - destruct b as [| y b]; [discriminate |].
    rewrite append_cons. simpl in *.
    destruct (ascii_dec x y); [now apply IH | discriminate].
Qed.

Lemma append_length (a b : string) :
  String.length (a +:+ b) = (String.length a + String.length b)%nat.
Proof.
  induction a as [| c a IH]; [reflexivity |].
  rewrite append_cons. simpl. now rewrite IH.
Qed.

Lemma substring_append (pre post : string) :
  substring 0 (String.length pre) (pre +:+ post) = pre.
Proof.
  induction pre as [| c pre IH].
  - destruct post; reflexivity.
  - rewrite append_cons. simpl. now rewrite IH.
Qed.

(** What [indexOfFrom] has found when it does not answer -1. *)
Lemma indexOfFrom_found (needle : string) :
  forall s p r,
    0 <= p -> indexOfFrom needle s p = r -> r <> -1 ->
    exists pre post,
      s = pre +:+ post
      /\ r = p + Z.of_nat (String.length pre)
      /\ String.prefix needle post = true
      /\ (forall a b,
             s = a +:+ b ->
             (String.length a < String.length pre)%nat ->
             String.prefix needle b = false).
Proof.
  induction s as [| c s IH]; intros p r Hp H Hr; cbn [indexOfFrom] in H.
  - destruct (String.prefix needle EmptyString) eqn:Hpre; [| congruence].
    exists EmptyString, EmptyString. simpl.
    repeat split; [lia | assumption | intros; lia].
  - destruct (String.prefix needle (String c s)) eqn:Hpre.
    + exists EmptyString, (String c s). simpl.
      repeat split; [lia | assumption | intros; lia].
    + destruct (IH (p + 1) r ltac:(lia) H Hr)
        as (pre & post & -> & -> & Hfound & Hmin).
      exists (String c pre), post. rewrite append_cons. simpl.
      repeat split; [lia | assumption |].
      intros [| x a] b Hsplit Hlen.
      * change (EmptyString +:+ b) with b in Hsplit. subst b. exact Hpre.
      * rewrite append_cons in Hsplit. injection Hsplit as -> Hs.
        apply (Hmin a b Hs). simpl in Hlen. lia.
Qed.

(** When [indexOfFrom] answers -1. *)
Lemma indexOfFrom_none (needle : string) :
  forall s p,
    0 <= p ->
    (forall a b, s = a +:+ b -> String.prefix needle b = false) ->
    indexOfFrom needle s p = -1.
Proof.
  intros s p Hp Hnone.
  destruct (Z.eq_dec (indexOfFrom needle s p) (-1)) as [| Hr];
    [assumption |].
  destruct (indexOfFrom_found needle s p _ Hp eq_refl Hr)
    as (pre & post & Hs & _ & Hfound & _).
  rewrite (Hnone pre post Hs) in Hfound. discriminate.
Qed.

Lemma getFolderFromName_Some (name folder : string) :
  getFolderFromName name = Some folder ->
  startsWithFolder name folder = true
  /\ folder <> EmptyString
  /\ indexOf DIVIDER folder = -1.
Proof.
  unfold getFolderFromName.
  destruct ((indexOf DIVIDER name =? -1) || (indexOf DIVIDER name =? 0))
    eqn:Hidx; [discriminate |].
  apply orb_false_iff in Hidx as [Hne Hnz].
  apply Z.eqb_neq in Hne, Hnz.
  destruct (indexOfFrom_found DIVIDER name 0 _ ltac:(lia) eq_refl Hne)
    as (pre & post & Hname & Hr & Hfound & Hmin).
  fold (indexOf DIVIDER name) in Hr. rewrite Hr, Z.add_0_l, Nat2Z.id.
  intros [= <-]. subst name.
  rewrite substring_append. split; [| split].
  - unfold startsWithFolder. now apply prefix_append_same.
  - intros ->. apply Hnz. rewrite Hr. reflexivity.
  - apply indexOfFrom_none; [lia |]. intros a b -> .
    destruct (String.prefix DIVIDER b) eqn:Hb; [| reflexivity].
    rewrite <- (Hmin a (b +:+ post)).
    + symmetry. now apply prefix_append_more.
    + apply append_assoc.
    + rewrite append_length.
      destruct b as [| x b]; [discriminate | simpl; lia].
Qed.
End Folders.

(** X24.  When [getFolderFromName] answers with a folder, the name
    starts with that folder followed by the divider, so
    [startsWithFolder] accepts the pair; the folder is not empty and has
    no divider in it.  A name that begins with the divider is in no
    folder. *)
Theorem X24_getFolderFromName_startsWithFolder (name : string) :
  (forall folder,
      LazySpriteLoading.getFolderFromName name = Some folder ->
      LazySpriteLoading.startsWithFolder name folder = true
      /\ folder <> EmptyString
      /\ LazySpriteLoading.indexOf LazySpriteLoading.DIVIDER folder = -1)
  /\ (LazySpriteLoading.startsWithFolder name EmptyString = true ->
      LazySpriteLoading.getFolderFromName name = None).
Proof.
  split; [intros folder; apply getFolderFromName_Some |].
  unfold LazySpriteLoading.startsWithFolder,
    LazySpriteLoading.getFolderFromName, LazySpriteLoading.indexOf.
  intros H. change (EmptyString +:+ LazySpriteLoading.DIVIDER)
              with LazySpriteLoading.DIVIDER in H.
  destruct name as [| c name]; simpl; [reflexivity |].
  simpl in H. rewrite H. reflexivity.
Qed.

Lemma X24_getFolderFromName_startsWithFolder_witness :
  LazySpriteLoading.getFolderFromName "enemies//bat" = Some "enemies"%string
  /\ LazySpriteLoading.startsWithFolder "enemies//bat" "enemies" = true
  /\ LazySpriteLoading.getFolderFromName "//bat" = None.
Proof.
  destruct (X24_getFolderFromName_startsWithFolder "enemies//bat")
    as [Hfolder _].
  destruct (X24_getFolderFromName_startsWithFolder "//bat") as [_ Hnone].
  split; [reflexivity |]. split.
  - apply (Hfolder "enemies"%string). reflexivity.
  - apply Hnone. reflexivity.
Defined.

Section FolderOptions.
Import LazySpriteLoading.

Lemma add_spec (folder : string) (folderNames : list string) :
  (forall f, In f (add folder folderNames) -> In f folderNames \/ f = folder)
  /\ (NoDup folderNames -> NoDup (add folder folderNames)).
Proof.
  unfold add.
  destruct (existsb (String.eqb folder) folderNames) eqn:Hin;
    [split; auto |].
  split.
  - intros f Hf. apply in_app_or in Hf as [Hf | [<- | []]]; auto.
  - intros Hnodup. apply NoDup_app. repeat split.
    + exact Hnodup.
    + intros f Hf Hsingle. apply list_elem_of_singleton in Hsingle.
      subst f. apply list_elem_of_In in Hf.
      assert (existsb (String.eqb folder) folderNames = true)
        by (apply existsb_exists; exists folder; split;
            [assumption | apply String.eqb_refl]).
      congruence.
    + apply NoDup_singleton.
Qed.

Lemma addFolder_spec (name : string) (folderNames : list string) :
  (forall f,
      In f (addFolder name folderNames) ->
      In f folderNames \/ getFolderFromName name = Some f)
  /\ (NoDup folderNames -> NoDup (addFolder name folderNames)).
Proof.
  unfold addFolder.
  destruct (getFolderFromName name) as [folder |]; [| split; auto].
  destruct (String.eqb folder EmptyString); [split; auto |].
  destruct (add_spec folder folderNames) as [Hin Hnodup].
  split; [| exact Hnodup].
  intros f Hf. destruct (Hin f Hf) as [| ->]; auto.
Qed.

Lemma collectFolders_spec (targets : list Target) :
  forall folderNames,
    (forall f,
        In f (collectFolders targets folderNames) ->
        In f folderNames
        \/ exists target,
             In target targets /\ isOriginal target = true
             /\ getFolderFromName (getName target) = Some f)
    /\ (NoDup folderNames -> NoDup (collectFolders targets folderNames)).
Proof.
  induction targets as [| target rest IH]; intros folderNames; simpl;
    [split; auto |].
  assert (Hskip :
            (forall f,
                In f (collectFolders rest folderNames) ->
                In f folderNames
                \/ exists target0,
                     (target = target0 \/ In target0 rest)
                     /\ isOriginal target0 = true
                     /\ getFolderFromName (getName target0) = Some f)
            /\ (NoDup folderNames ->
                NoDup (collectFolders rest folderNames))).
  { destruct (IH folderNames) as [Hin Hnodup]. split; [| exact Hnodup].
    intros f Hf. destruct (Hin f Hf) as [| (t & Ht & Ho & Hg)]; [auto |].
    right. exists t. auto. }
  assert (Hadd :
            isOriginal target = true ->
            (forall f,
                In f (collectFolders rest
                        (addFolder (getName target) folderNames)) ->
                In f folderNames
                \/ exists target0,
                     (target = target0 \/ In target0 rest)
                     /\ isOriginal target0 = true
                     /\ getFolderFromName (getName target0) = Some f)
            /\ (NoDup folderNames ->
                NoDup (collectFolders rest
                         (addFolder (getName target) folderNames)))).
  { intros Horiginal.
    destruct (IH (addFolder (getName target) folderNames))
      as [Hin Hnodup].
    destruct (addFolder_spec (getName target) folderNames)
      as [Hain Hanodup].
    split; [| auto].
    intros f Hf. destruct (Hin f Hf) as [Ha | (t & Ht & Ho & Hg)].
    - destruct (Hain f Ha) as [| Hg]; [auto |].
      right. exists target. auto.
    - right. exists t. auto. }
  destruct (isOriginal target); simpl; [| exact Hskip].
  destruct (lazyLoading target); [now apply Hadd |].
  destruct (isStage target); simpl; [exact Hskip | now apply Hadd].
Qed.

Lemma namesToLoad_In (targets : list Target) (target : Target)
    (folder : string) :
  In target targets -> isOriginal target = true ->
  startsWithFolder (getName target) folder = true ->
  In (getName target) (namesToLoad targets folder).
Proof.
  intros Hin Horiginal Hstarts.
  induction targets as [| t rest IH]; simpl in *; [contradiction |].
  destruct Hin as [-> | Hin].
  - rewrite Horiginal, Hstarts. simpl. auto.
  - destruct (isOriginal t); simpl; [| auto].
    destruct (startsWithFolder (getName t) folder); simpl; auto.
Qed.
End FolderOptions.

(** X25.  The folder menu is never empty and never lists a folder twice.
    Each of its items is either the placeholder, whose value is the empty
    string, or a folder that [getFolderFromName] gives for an original
    target's name, and [loadFolder] called with that folder collects this
    target's name: a folder that is offered always loads something. *)
Theorem X25_getFolderOptions_items_load
    (targets : list LazySpriteLoading.Target) :
  LazySpriteLoading.getFolderOptions targets <> []
  /\ NoDup (List.map LazySpriteLoading.value
              (LazySpriteLoading.getFolderOptions targets))
  /\ (forall item,
        In item (LazySpriteLoading.getFolderOptions targets) ->
        item = LazySpriteLoading.mkMenuItem "Project contains no folders"
                 EmptyString
        \/ (LazySpriteLoading.text item = LazySpriteLoading.value item
            /\ exists target,
                 In target targets
                 /\ LazySpriteLoading.isOriginal target = true
                 /\ LazySpriteLoading.getFolderFromName
                      (LazySpriteLoading.getName target)
                    = Some (LazySpriteLoading.value item)
                 /\ In (LazySpriteLoading.getName target)
                       (LazySpriteLoading.namesToLoad targets
                          (LazySpriteLoading.value item)))).
Proof.
  unfold LazySpriteLoading.getFolderOptions.
  destruct (collectFolders_spec targets []) as [Hin Hnodup].
  specialize (Hnodup NoDup_nil_2).
  destruct (LazySpriteLoading.collectFolders targets []) as [| f fs].
  - split; [discriminate |]. split.
    + simpl. apply NoDup_singleton.
    + intros item [<- | []]. auto.
  - split; [discriminate |]. split.
    + rewrite List.map_map. simpl. rewrite List.map_id. exact Hnodup.
    + intros item Hitem. right.
      apply List.in_map_iff in Hitem as (folder & <- & Hfolder). simpl.
      split; [reflexivity |].
      destruct (Hin folder Hfolder) as [[] | (target & Ht & Ho & Hg)].
      exists target. repeat split; try assumption.
      apply namesToLoad_In; try assumption.
      now apply getFolderFromName_Some.
Qed.

Lemma X25_getFolderOptions_items_load_witness :
  let bat := LazySpriteLoading.mkTarget true "enemies//bat" true false in
  let clone := LazySpriteLoading.mkTarget false "enemies//bat" false false in
  let stage := LazySpriteLoading.mkTarget true "Stage" false true in
  LazySpriteLoading.getFolderOptions [stage; bat; clone]
  = [LazySpriteLoading.mkMenuItem "enemies" "enemies"]
  /\ LazySpriteLoading.namesToLoad [stage; bat; clone] "enemies"
     = ["enemies//bat"%string]
  /\ LazySpriteLoading.getFolderOptions [stage] <> [].
Proof.
  split; [reflexivity |]. split; [reflexivity |].
  apply (X25_getFolderOptions_items_load
           [LazySpriteLoading.mkTarget true "Stage" false true]).
Defined.

(* ===================================================================== *)
(** * Properties of sanitize *)
(* ===================================================================== *)

Lemma charCode_ascii (c : ascii) :
  c = ascii_of_nat (Z.to_nat (charCode c)) /\ 0 <= charCode c < 256.
Proof.
  unfold charCode. rewrite Nat2Z.id, ascii_nat_embedding.
  pose proof (nat_ascii_bounded c). split; [reflexivity | lia].
Qed.

Lemma eqb_charCode (c d : ascii) :
  charCode c <> charCode d -> Ascii.eqb c d = false.
Proof.
  intros H. destruct (Ascii.eqb_spec c d) as [-> |]; congruence.
Qed.

Lemma unescape_quoteUnit (c : ascii) (rest : string) :
  unescape (JSON.quoteUnit c +:+ rest)
  = option_map (String c) (unescape rest).
Proof.
  destruct (charCode_ascii c) as [Hc Hrange].
  unfold JSON.quoteUnit.
  repeat match goal with
         | |- context [charCode c =? ?k] =>
             destruct (Z.eqb_spec (charCode c) k) as [He | ?];
             [rewrite He in Hc; rewrite Hc; reflexivity |]
         end.
  destruct (Z.ltb_spec (charCode c) 32) as [Hlt | Hge].
  - assert (Hk : (Z.to_nat (charCode c) < 32)%nat) by lia.
    rewrite Hc. clear Hc.
    generalize dependent (Z.to_nat (charCode c)). intros k Hk.
    do 32 (destruct k as [| k]; [reflexivity |]). lia.
  - rewrite append_cons. change (EmptyString +:+ rest) with rest.
    cbn [unescape].
    rewrite (eqb_charCode c JSON.backslash), (eqb_charCode c JSON.quote)
      by assumption.
    destruct (Z.eqb_spec (charCode c) 10); [contradiction |].
    destruct (Z.eqb_spec (charCode c) 13); [contradiction |].
    reflexivity.
Qed.

Lemma unescape_quoteUnits (s : string) :
  unescape (JSON.quoteUnits s) = Some s.
Proof.
  induction s as [| c s IH]; [reflexivity |].
  simpl. now rewrite unescape_quoteUnit, IH.
Qed.

Lemma stringify_length (s : string) :
  (String.length (JSON.stringify s)
   = String.length (JSON.quoteUnits s) + 2)%nat.
Proof.
  unfold JSON.stringify. simpl. rewrite append_length. simpl. lia.
Qed.

(** X26.  [sanitize] returns the text between the quotes of
    [JSON.stringify] of its argument turned into a string: putting it
    back between double quotes gives the JSON text again, and read as the
    inside of a string literal it denotes that string.  So it holds no
    bare quote, no bare line break and no dangling backslash, and two
    strings with the same sanitized text are the same string. *)
Theorem X26_sanitize_round_trip
    (NumberToString : JS.number -> string) (value : JS.value) :
  JSGenerator.quoted (sanitize NumberToString value)
  = JSON.stringify (JS.ToString NumberToString value)
  /\ unescape (sanitize NumberToString value)
     = Some (JS.ToString NumberToString value).
Proof.
  assert (Hbody : sanitize NumberToString value
                  = JSON.quoteUnits (JS.ToString NumberToString value)).
  { unfold sanitize. cbv zeta. rewrite stringify_length.
    replace (String.length (JSON.quoteUnits _) + 2 - 2)%nat
      with (String.length
              (JSON.quoteUnits (JS.ToString NumberToString value)))
      by lia.
    unfold JSON.stringify. simpl. apply substring_append. }
  rewrite Hbody. split; [reflexivity | apply unescape_quoteUnits].
Qed.

(* ===================================================================== *)
(** * The last block of a loop, and constants that name assets *)
(* ===================================================================== *)

(** X27.  [isLastBlockInLoop] answers true exactly when, going outwards
    from the current stack, every stack up to and including the first
    loop is at its last block.  In particular it answers true only
    inside a loop, which is where the [continue] it guards is legal. *)
Theorem X27_isLastBlockInLoop_exact (g : JSGenerator.Generator) :
  JSGenerator.isLastBlockInLoop g = true
  <-> exists inner loop outer,
        JSGenerator.frames g = inner ++ loop :: outer
        /\ JSGenerator.isLoop loop = true
        /\ JSGenerator.isLastBlock loop = true
        /\ forallb (fun frame =>
                      JSGenerator.isLastBlock frame
                      && negb (JSGenerator.isLoop frame)) inner
           = true.
Proof.
  unfold JSGenerator.isLastBlockInLoop.
  induction (JSGenerator.frames g) as [| frame rest IH]; simpl.
  - split; [discriminate |].
    intros (inner & loop & outer & H & _). destruct inner; discriminate.
  - destruct (JSGenerator.isLastBlock frame) eqn:Hlast; simpl.
    + destruct (JSGenerator.isLoop frame) eqn:Hloop.
      * split; [| reflexivity]. intros _.
        exists [], frame, rest. auto.
      * rewrite IH. split.
        -- intros (inner & loop & outer & -> & Hl & Hb & Hall).
           exists (frame :: inner), loop, outer. simpl.
           rewrite Hlast, Hloop. auto.
        -- intros (inner & loop & outer & Hsplit & Hl & Hb & Hall).
           destruct inner as [| first inner]; simpl in *;
             injection Hsplit as -> Hrest; [congruence |].
           apply andb_true_iff in Hall as [_ Hall].
           exists inner, loop, outer. auto.
    + split; [discriminate |].
      intros (inner & loop & outer & Hsplit & Hl & Hb & Hall).
      destruct inner as [| first inner]; simpl in *;
        injection Hsplit as -> Hrest; [congruence |].
      rewrite Hlast in Hall. discriminate.
Qed.

Section AssetNames.

Import OlderGenerator.

Lemma existsb_addName (s name : string) (result : list string) :
  existsb (String.eqb s) (addName name result)
  = existsb (String.eqb s) result || String.eqb s name.
Proof.
  unfold addName. destruct (existsb (String.eqb name) result) eqn:Hin.
  - destruct (String.eqb_spec s name) as [-> | _].
    + rewrite Hin. reflexivity.
    + rewrite orb_false_r. reflexivity.
  - rewrite existsb_app. simpl. rewrite orb_false_r. reflexivity.
Qed.

Lemma existsb_addNames (s : string) (names result : list string) :
  existsb (String.eqb s)
    (fold_left (fun result name => addName name result) names result)
  = existsb (String.eqb s) result || existsb (String.eqb s) names.
Proof.
  revert result. induction names as [| name names IH]; intros result; simpl.
  - rewrite orb_false_r. reflexivity.
  - rewrite IH, existsb_addName, orb_assoc. reflexivity.
Qed.

Lemma existsb_collected (s : string) (targets : list NamedAssets)
    (result : list string) :
  existsb (String.eqb s)
    (fold_left
       (fun result target =>
          if isOriginal target then
            fold_left (fun result name => addName name result)
              (sounds target)
              (fold_left (fun result name => addName name result)
                 (costumes target) result)
          else result)
       targets result)
  = existsb (String.eqb s) result
    || existsb (fun target =>
                  isOriginal target
                  && (existsb (String.eqb s) (costumes target)
                      || existsb (String.eqb s) (sounds target)))
         targets.
Proof.
  revert result.
  induction targets as [| target targets IH]; intros result; simpl.
  - rewrite orb_false_r. reflexivity.
  - rewrite IH. destruct (isOriginal target); simpl.
    + rewrite !existsb_addNames, !orb_assoc. reflexivity.
    + reflexivity.
Qed.

End AssetNames.

(** X28.  In the older generator [asSafe] compiles a string constant to
    the bare text of the string only when no original target has a
    costume or a sound of that name and the string is the text of its own
    numeric value; in every other case the result is the quoted,
    sanitized string.  A costume named like a number is therefore never
    compiled to a number. *)
Theorem X28_asSafe_of_string_constant
    (StringToNumber : string -> JS.number)
    (NumberToString : JS.number -> string)
    (sanitize : string -> string)
    (targets : list OlderGenerator.NamedAssets) (s : string) :
  OlderGenerator.asSafe StringToNumber NumberToString sanitize
    (OlderGenerator.safeConstantInput
       (OlderGenerator.getNamesOfCostumesAndSounds targets) (JS.VString s))
  = if negb (existsb
               (fun target =>
                  OlderGenerator.isOriginal target
                  && (existsb (String.eqb s) (OlderGenerator.costumes target)
                      || existsb (String.eqb s)
                           (OlderGenerator.sounds target)))
               targets)
       && String.eqb (NumberToString (StringToNumber s)) s
    then s
    else JSGenerator.quoted (sanitize s).
Proof.
  unfold OlderGenerator.safeConstantInput,
    OlderGenerator.getNamesOfCostumesAndSounds.
  rewrite existsb_collected. simpl existsb at 1. rewrite orb_false_l.
  unfold OlderGenerator.asSafe, OlderGenerator.constantAsUnknown,
    OlderGenerator.constantAsString.
  destruct (existsb _ targets); simpl; [reflexivity |].
  destruct (String.eqb (NumberToString (StringToNumber s)) s); reflexivity.
Qed.
